(** * Spectral calibration processor (python/spectral_processor.py)

    A shallow embedding of [SpectralProcessor] and the properties of its
    calibration pipeline.

    Numbers.  Python [int]s are [Z].  Python and NumPy floats are modelled
    as exact rationals [Q]; the one place where the code itself can
    produce a NaN, [np.mean] of an empty list in [calculate_baseline], is
    modelled by [option Q] with [None] for NaN.

    Containers.  The dictionaries keyed by colour name and by corner name
    are iterated by the code, so they are insertion-ordered association
    lists; the dictionaries keyed by wavelength are only looked up,
    updated and sorted, so they are [gmap Z].

    Effects.  The methods mutate the processor object, print to
    [sys.stderr] and may raise; they are functions in a state-and-exception
    monad [M] over the record [processor], whose field [stderr] collects
    the printed lines.  An exception leaves the mutations made before it
    in place, as in Python.

    Libraries.  OpenCV, NumPy and SciPy are an interface, the class
    [Vision]; every statement holds for all its implementations. *)

From Stdlib Require Import QArith Qminmax Lqa ZArith String.
From stdpp Require Import gmap strings list fin_maps sorting pretty.

Local Open Scope string_scope.
Local Open Scope list_scope.
Local Open Scope stdpp_scope.
Local Open Scope Z_scope.

(** ** Python built-ins on numbers *)

Module Py.

(** [b > a] on floats. *)
Definition Qltb (a b : Q) : bool := negb (Qle_bool b a).

(** [max(a, b)]: the first argument unless the second is strictly
    greater. *)
Definition max (a b : Q) : Q := if Qltb a b then b else a.

(** [min(a, b)]: the first argument unless the second is strictly
    smaller. *)
Definition min (a b : Q) : Q := if Qltb b a then b else a.

(** [max(x, *xs)] over a non-empty sequence: the first maximal element. *)
Definition max_of (x : Q) (xs : list Q) : Q := foldl max x xs.

(** [max(xs, key=key)] over a non-empty sequence. *)
Definition max_by {A} (key : A → Q) (x : A) (xs : list A) : A :=
  foldl (λ m y, if Qltb (key m) (key y) then y else m) x xs.

(** [int(q)]: truncation towards zero. *)
Definition int (q : Q) : Z := Z.quot (Qnum q) (Zpos (Qden q)).

(** [sorted(keys)] on integers. *)
Definition sorted (l : list Z) : list Z := merge_sort Z.le l.

(** The values of a list of floats, when none of them is NaN. *)
Fixpoint finite (xs : list (option Q)) : option (list Q) :=
  match xs with
  | [] => Some []
  | None :: _ => None
  | Some x :: xs' =>
      match finite xs' with
      | Some l => Some (x :: l)
      | None => None
      end
  end.

(** [np.mean(xs)] on floats that may be NaN ([None]): NaN on the empty
    list and on a list that holds a NaN. *)
Definition np_mean (xs : list (option Q)) : option Q :=
  match finite xs with
  | None | Some [] => None
  | Some l => Some (foldr Qplus 0%Q l / inject_Z (Z.of_nat (length l)))%Q
  end.

(** [z - x] for an integer [z] and a float [x] that may be NaN; NaN
    propagates. *)
Definition sub_nan (z : Z) (x : option Q) : option Q :=
  (λ q, inject_Z z - q)%Q <$> x.

(** [max(a, x)] for a float [x] that may be NaN: [x > a] is false for
    NaN, so the first argument is returned. *)
Definition max_nan (a : Q) (x : option Q) : Q :=
  match x with Some q => max a q | None => a end.

(** [np.polyval(p, x)]: Horner evaluation, highest degree first. *)
Definition np_polyval (p : list Q) (x : Q) : Q :=
  foldl (λ y c, (y * x + c)%Q) 0%Q p.

End Py.

(** ** Data model *)

Inductive color := red | yellow | green | cyan | blue | magenta.

Inductive corner := top_left | top_right | bottom_left | bottom_right.

(** The three channels; their dictionary keys are 'r', 'g' and 'b'. *)
Inductive channel := ch_r | ch_g | ch_b.

#[global] Instance color_eq_dec : EqDecision color.
Proof. solve_decision. Defined.
#[global] Instance corner_eq_dec : EqDecision corner.
Proof. solve_decision. Defined.
#[global] Instance channel_eq_dec : EqDecision channel.
Proof. solve_decision. Defined.

(** A dictionary with the keys 'r', 'g', 'b'. *)
Record rgb (A : Type) := RGB { rgb_r : A; rgb_g : A; rgb_b : A }.
Arguments RGB {A} _ _ _.
Arguments rgb_r {A} _.
Arguments rgb_g {A} _.
Arguments rgb_b {A} _.

Definition rgb_get {A} (c : channel) (v : rgb A) : A :=
  match c with ch_r => rgb_r v | ch_g => rgb_g v | ch_b => rgb_b v end.

(** The key of a channel. *)
Definition channel_key (c : channel) : string :=
  match c with ch_r => "r" | ch_g => "g" | ch_b => "b" end.

(** [v[key]] for an arbitrary key; [None] where Python raises
    [KeyError]. *)
Definition rgb_lookup {A} (key : string) (v : rgb A) : option A :=
  if decide (key = "r") then Some (rgb_r v)
  else if decide (key = "g") then Some (rgb_g v)
  else if decide (key = "b") then Some (rgb_b v)
  else None.

Definition COLOR_WAVELENGTHS : list (color * Z) :=
  [ (red, 625); (yellow, 580); (green, 530);
    (cyan, 490); (blue, 460); (magenta, 570) ].

Definition HSV_RANGES (c : color) : list (Z * Z * Z) :=
  match c with
  | red => [(0, 100, 100); (10, 255, 255); (170, 100, 100); (180, 255, 255)]
  | yellow => [(20, 100, 100); (30, 255, 255)]
  | green => [(40, 50, 50); (80, 255, 255)]
  | cyan => [(80, 50, 50); (100, 255, 255)]
  | blue => [(100, 100, 100); (130, 255, 255)]
  | magenta => [(140, 50, 100); (170, 255, 255)]
  end.

Record rect := Rect { rect_x : Z; rect_y : Z; rect_width : Z; rect_height : Z }.

(** An entry of [color_regions]. *)
Record color_region := ColorRegion {
  wavelength : Z;
  region_rgb : rgb Z;
  region_bgr : rgb Z;
  center : Z * Z;
  area : Z;
  bbox : rect
}.

(** An entry of [black_regions]; a channel is [None] when it is NaN. *)
Record black_region := BlackRegion {
  black_rgb : rgb (option Q);
  black_bgr : rgb (option Q);
  position : rect
}.

(** An entry of [raw_intensities] (over [Z]) or [corrected_intensities]
    (over [Q]): the three channels and the colour name. *)
Record intensity (A : Type) := Intensity { channels : rgb A; of_color : color }.
Arguments Intensity {A} _ _.
Arguments channels {A} _.
Arguments of_color {A} _.

#[global] Instance intensity_inhabited : Inhabited (intensity Q) :=
  populate (Intensity (RGB 0%Q 0%Q 0%Q) red).

(** The four lists of one channel-indexed table of [correction_curves]. *)
Record series := Series {
  series_wavelengths : list Z;
  series_r : list Q;
  series_g : list Q;
  series_b : list Q
}.

(** The dictionary stored in [correction_curves] by a successful fit. *)
Record curves := Curves {
  polynomial : rgb (list Q);
  data_points : series;
  raw_normalized : series;
  final_corrected : series;
  reference_values : gmap Z (rgb Q)
}.

(** ** Exceptions *)

(** [LibraryError] stands for the exceptions of OpenCV, NumPy and SciPy;
    it carries the message. *)
Inductive exn :=
| ValueError (msg : string)
| KeyError (key : string)
| LibraryError (msg : string).

(** [str(e)] *)
Definition str (e : exn) : string :=
  match e with
  | ValueError m => m
  | KeyError k => "'" +:+ k +:+ "'"
  | LibraryError m => m
  end.

Inductive Res (A : Type) :=
| Ok (a : A)
| Raise (e : exn).
Arguments Ok {A} _.
Arguments Raise {A} _.

(** ** The monad of methods

    A method is a function from the object's state to a result, or an
    exception, and the new state. *)

Definition M (S A : Type) : Type := S → Res A * S.

Definition ret {S A} (a : A) : M S A := λ st, (Ok a, st).

Definition bind {S A B} (m : M S A) (k : A → M S B) : M S B :=
  λ st, match m st with
        | (Ok a, st') => k a st'
        | (Raise e, st') => (Raise e, st')
        end.

Definition raise {S A} (e : exn) : M S A := λ st, (Raise e, st).

(** [try: body  except Exception as e: handler(e)] *)
Definition try_except {S A} (body : M S A) (handler : exn → M S A) : M S A :=
  λ st, match body st with
        | (Ok a, st') => (Ok a, st')
        | (Raise e, st') => handler e st'
        end.

Definition gets {S A} (f : S → A) : M S A := λ st, (Ok (f st), st).

Definition modify {S} (f : S → S) : M S unit := λ st, (Ok tt, f st).

(** A library call that may raise. *)
Definition call {S A} (r : Res A) : M S A := λ st, (r, st).

(** [for x in xs: body(x)] *)
Fixpoint for_each {S A} (xs : list A) (body : A → M S unit) : M S unit :=
  match xs with
  | [] => ret tt
  | x :: xs' => bind (body x) (λ _, for_each xs' body)
  end.

Declare Scope proc_scope.
Delimit Scope proc_scope with proc.
Notation "x ← y ; z" := (bind y (λ x, z))
  (at level 20, y at level 100, z at level 200, only parsing) : proc_scope.
Notation "' x ← y ; z" := (bind y (λ x, z))
  (at level 20, x pattern, y at level 100, z at level 200, only parsing) : proc_scope.
Notation "x ;; z" := (bind x (λ _, z))
  (at level 100, z at level 200, only parsing, right associativity) : proc_scope.

(** ** Lines printed to [sys.stderr]

    One constructor per [print] statement, carrying the interpolated
    values instead of their formatted text. *)

Inductive log_line :=
| LogDecodeFailed
| LogLoaded (w h : Z)
| LogLoadError (e : exn)
| LogExtractingColors
| LogRegionMissing (c : color)
| LogFound (c : color) (r g b : Z) (cx cy : Z)
| LogExtracted (n : nat)
| LogExtractingCorners
| LogBlackCorner (c : corner) (r g b : option Q)
| LogBaseline (r g b : option Q)
| LogShadowCorrection
| LogShadowLine (c : color) (wl : Z) (raw : rgb Z) (corrected : rgb Q)
| LogFitting
| LogProvidedReference
| LogReference (wl : Z) (ref : rgb Q)
| LogCorrections (wl : Z) (norm ref corr : rgb Q)
| LogFitted (n : nat)
| LogFinalCorrected (r g b : list Q)
| LogFitError (e : exn)
| LogForceAnalysis (n : nat)
| LogOnlyFew (n : nat)
| LogNoColors
| LogComplete (n : nat).

(** ** Results of [process] *)

Record statistics := Statistics {
  num_colors_detected : nat;
  num_black_corners : nat;
  wavelength_range : Z * Z
}.

(** The dictionary built at the end of a complete calibration; the
    'success' key is [True]. *)
Record calibration := Calibration {
  timestamp : string;
  image_info : Z * Z;
  calibration_color_regions : list (color * color_region);
  black_corners : list (corner * black_region);
  baseline : rgb (option Q);
  calibration_raw_intensities : list (string * intensity Z);
  calibration_corrected_intensities : list (string * intensity Q);
  calibration_correction_curves : option curves;
  calibration_statistics : statistics
}.

(** The three shapes of dictionary that [process] returns. *)
Inductive result :=
| Failure (error : string)
| AnalysisOnly (regions : list (color * color_region)) (count : nat)
    (message : string)
| Complete (record : calibration).

(** The 'success' key. *)
Definition success (r : result) : bool :=
  match r with Failure _ => false | _ => true end.

(** The 'mode' key, when present. *)
Definition mode (r : result) : option string :=
  match r with AnalysisOnly _ _ _ => Some "analysis_only" | _ => None end.

(** ** The OpenCV / NumPy / SciPy interface

    Calls that the code makes inside a [try] block may raise ([Res]);
    the calls it makes unguarded on a decoded image are total. *)

Inductive morph := MORPH_CLOSE | MORPH_OPEN.

Class Vision := {
  (** a decoded H x W x 3 array *)
  Image : Type;
  (** a single-channel H x W array *)
  Mask : Type;
  Contour : Type;
  (** [cv2.imdecode(np.frombuffer(data, np.uint8), cv2.IMREAD_COLOR)];
      [Ok None] when the bytes are not an image *)
  imdecode : list Byte.byte → Res (option Image);
  (** [img.shape[:2]], height first *)
  shape : Image → Z * Z;
  (** [cv2.cvtColor(img, cv2.COLOR_BGR2HSV)] *)
  cvtColor_BGR2HSV : Image → Res Image;
  (** [cv2.inRange(hsv, np.array(lower), np.array(upper))] *)
  inRange : Image → Z * Z * Z → Z * Z * Z → Mask;
  bitwise_or : Mask → Mask → Mask;
  (** [cv2.morphologyEx(mask, op, np.ones((5, 5), np.uint8))] *)
  morphologyEx : Mask → morph → Mask;
  countNonZero : Mask → Z;
  (** [cv2.findContours(mask, RETR_EXTERNAL, CHAIN_APPROX_SIMPLE)[0]] *)
  findContours : Mask → list Contour;
  contourArea : Contour → Q;
  boundingRect : Contour → rect;
  (** [cv2.mean(img, mask=m)[:3]] for [m] the filled contour drawn on a
      zero mask of the image's size; in B, G, R order *)
  mean_in_contour : Image → Contour → Q * Q * Q;
  (** [img[y:y+h, x:x+w].mean(axis=(0, 1))]; in B, G, R order; [None]
      is NaN, the mean that NumPy returns for an empty slice *)
  mean_of_slice : Image → rect → option Q * option Q * option Q;
  (** [np.polyfit(x, y, deg=3)] *)
  polyfit : list Z → list Q → Res (list Q);
  (** [UnivariateSpline(x, y, s=0.1, k=3)]; the spline object is not
      kept by the code *)
  UnivariateSpline : list Z → list Q → Res unit
}.

(** ** The processor object *)

Section Processor.
Context `{Vision}.

Record processor := Processor {
  image_data : list Byte.byte;
  image : option Image;
  hsv_image : option Image;
  height : Z;
  width : Z;
  color_regions : list (color * color_region);
  black_regions : list (corner * black_region);
  raw_intensities : gmap Z (intensity Z);
  corrected_intensities : gmap Z (intensity Q);
  correction_curves : option curves;
  stderr : list log_line
}.

(** [SpectralProcessor(image_data)] *)
Definition init (data : list Byte.byte) : processor :=
  Processor data None None 0 0 [] [] ∅ ∅ None [].

Definition with_image v '(Processor d _ hs h w cr br ri ci cc err) :=
  Processor d v hs h w cr br ri ci cc err.
Definition with_hsv_image v '(Processor d im _ h w cr br ri ci cc err) :=
  Processor d im v h w cr br ri ci cc err.
Definition with_size hv wv '(Processor d im hs _ _ cr br ri ci cc err) :=
  Processor d im hs hv wv cr br ri ci cc err.
Definition with_color_regions v '(Processor d im hs h w _ br ri ci cc err) :=
  Processor d im hs h w v br ri ci cc err.
Definition with_black_regions v '(Processor d im hs h w cr _ ri ci cc err) :=
  Processor d im hs h w cr v ri ci cc err.
Definition with_raw_intensities v '(Processor d im hs h w cr br _ ci cc err) :=
  Processor d im hs h w cr br v ci cc err.
Definition with_corrected_intensities v '(Processor d im hs h w cr br ri _ cc err) :=
  Processor d im hs h w cr br ri v cc err.
Definition with_correction_curves v '(Processor d im hs h w cr br ri ci _ err) :=
  Processor d im hs h w cr br ri ci v err.
Definition with_stderr v '(Processor d im hs h w cr br ri ci cc _) :=
  Processor d im hs h w cr br ri ci cc v.

End Processor.

(** ** Methods *)

Section Methods.
Context `{Vision}.
Local Open Scope proc_scope.

Abbreviation Method := (M processor).

(** [print(..., file=sys.stderr)] *)
Definition print (l : log_line) : Method unit :=
  modify (λ st, with_stderr (stderr st ++ [l]) st).

(** Use of [self.image] or [self.hsv_image] by an OpenCV or NumPy
    operation; these reject [None].  The text of their message is not
    modelled. *)
Definition loaded (field : processor → option Image) : Method Image :=
  v ← gets field;
  match v with
  | Some img => ret img
  | None => raise (LibraryError "image is None")
  end.

Definition load_image : Method bool :=
  try_except
    (data ← gets image_data;
     decoded ← call (imdecode data);
     modify (with_image decoded);;
     match decoded with
     | None => print LogDecodeFailed;; ret false
     | Some img =>
         let '(h, w) := shape img in
         modify (with_size h w);;
         print (LogLoaded w h);;
         hsv ← call (cvtColor_BGR2HSV img);
         modify (with_hsv_image (Some hsv));;
         ret true
     end)
    (λ e, print (LogLoadError e);; ret false).

Definition _create_color_mask (color_name : color) : Method (option Mask) :=
  let ranges := HSV_RANGES color_name in
  hsv ← loaded hsv_image;
  mask ← match color_name, ranges with
         | red, [lower1; upper1; lower2; upper2] =>
             let mask1 := inRange hsv lower1 upper1 in
             let mask2 := inRange hsv lower2 upper2 in
             ret (bitwise_or mask1 mask2)
         | red, _ => raise (ValueError "unpack")
         | _, [lower; upper] => ret (inRange hsv lower upper)
         | _, _ => raise (ValueError "unpack")
         end;
  let mask := morphologyEx mask MORPH_CLOSE in
  let mask := morphologyEx mask MORPH_OPEN in
  ret (Some mask).

(** [d[k] = v] on an insertion-ordered dictionary. *)
Fixpoint dict_set {K V} `{EqDecision K} (k : K) (v : V) (d : list (K * V))
  : list (K * V) :=
  match d with
  | [] => [(k, v)]
  | (k', v') :: d' =>
      if decide (k = k') then (k, v) :: d' else (k', v') :: dict_set k v d'
  end.

(** The body of the loop of [extract_color_regions]; [ret tt] where the
    code says [continue]. *)
Definition extract_color_region (color_name : color) (wl : Z) : Method unit :=
  mask ← _create_color_mask color_name;
  match mask with
  | None => print (LogRegionMissing color_name)
  | Some mask =>
      if countNonZero mask <? 100 then print (LogRegionMissing color_name)
      else
        match findContours mask with
        | [] => ret tt
        | c :: cs =>
            let largest_contour := Py.max_by contourArea c cs in
            let area := contourArea largest_contour in
            if Py.Qltb area 100 then ret tt
            else
              let '(Rect x y w h) := boundingRect largest_contour in
              let center_x := x + w `div` 2 in
              let center_y := y + h `div` 2 in
              img ← loaded image;
              let '(b, g, r) := mean_in_contour img largest_contour in
              modify (λ st, with_color_regions
                (dict_set color_name
                   {| wavelength := wl;
                      region_rgb := RGB (Py.int r) (Py.int g) (Py.int b);
                      region_bgr := RGB (Py.int r) (Py.int g) (Py.int b);
                      center := (center_x, center_y);
                      area := Py.int area;
                      bbox := Rect x y w h |}
                   (color_regions st)) st);;
              print (LogFound color_name (Py.int r) (Py.int g) (Py.int b)
                       center_x center_y)
        end
  end.

Definition extract_color_regions : Method bool :=
  print LogExtractingColors;;
  for_each COLOR_WAVELENGTHS (λ '(color_name, wl),
    extract_color_region color_name wl);;
  num_colors ← gets (λ st, length (color_regions st));
  print (LogExtracted num_colors);;
  ret (bool_decide (4 ≤ num_colors)%nat).

(** The body of the loop of [extract_black_corners]. *)
Definition sample_corner (corner_name : corner) (pos : rect) : Method unit :=
  img ← loaded image;
  let '(b, g, r) := mean_of_slice img pos in
  modify (λ st, with_black_regions
    (dict_set corner_name
       {| black_rgb := RGB r g b; black_bgr := RGB r g b; position := pos |}
       (black_regions st)) st);;
  print (LogBlackCorner corner_name r g b).

Definition extract_black_corners : Method bool :=
  print LogExtractingCorners;;
  w ← gets width;
  h ← gets height;
  let corner_size_w := w `div` 10 in
  let corner_size_h := h `div` 10 in
  let corners :=
    [ (top_left, Rect 0 0 corner_size_w corner_size_h);
      (top_right, Rect (w - corner_size_w) 0 corner_size_w corner_size_h);
      (bottom_left, Rect 0 (h - corner_size_h) corner_size_w corner_size_h);
      (bottom_right,
        Rect (w - corner_size_w) (h - corner_size_h) corner_size_w corner_size_h) ] in
  for_each corners (λ '(corner_name, pos), sample_corner corner_name pos);;
  ret true.

(** Returns [(R_baseline, G_baseline, B_baseline)]. *)
Definition calculate_baseline : Method (option Q * option Q * option Q) :=
  corners ← gets black_regions;
  let r_values := (λ c, rgb_r (black_rgb c.2)) <$> corners in
  let g_values := (λ c, rgb_g (black_rgb c.2)) <$> corners in
  let b_values := (λ c, rgb_b (black_rgb c.2)) <$> corners in
  let baseline := (Py.np_mean r_values, Py.np_mean g_values, Py.np_mean b_values) in
  print (LogBaseline baseline.1.1 baseline.1.2 baseline.2);;
  ret baseline.

(** [max(0, v - baseline)] *)
Definition subtract_baseline (v : Z) (baseline : option Q) : Q :=
  Py.max_nan 0 (Py.sub_nan v baseline).

(** The body of the loop of [perform_shadow_correction]. *)
Definition correct_region (r_baseline g_baseline b_baseline : option Q)
    (color_name : color) (region : color_region) : Method unit :=
  let wl := wavelength region in
  let raw := region_rgb region in
  modify (λ st, with_raw_intensities
    (<[wl := Intensity raw color_name]> (raw_intensities st)) st);;
  let corrected :=
    Intensity (RGB (subtract_baseline (rgb_r raw) r_baseline)
                   (subtract_baseline (rgb_g raw) g_baseline)
                   (subtract_baseline (rgb_b raw) b_baseline))
              color_name in
  modify (λ st, with_corrected_intensities
    (<[wl := corrected]> (corrected_intensities st)) st);;
  print (LogShadowLine color_name wl raw (channels corrected)).

Definition perform_shadow_correction : Method (gmap Z (intensity Q)) :=
  print LogShadowCorrection;;
  '(r_baseline, g_baseline, b_baseline) ← calculate_baseline;
  regions ← gets color_regions;
  for_each regions (λ '(color_name, region),
    correct_region r_baseline g_baseline b_baseline color_name region);;
  gets corrected_intensities.

(** *** Curve fitting *)

(** The built-in reference values at one wavelength: the body of the loop
    that fills [reference_data] when the caller supplies none. *)
Definition ideal_reference (wl : Z) : rgb Q :=
  let r_ref :=
    if 580 <=? wl then 1.0%Q
    else if 530 <=? wl then 0.3%Q
    else if 490 <=? wl then 0.1%Q
    else 0.2%Q in
  let g_ref :=
    if wl =? 530 then 1.0%Q
    else if bool_decide (wl ∈ [490; 570; 580]) then 0.6%Q
    else if wl =? 625 then 0.2%Q
    else 0.3%Q in
  let b_ref :=
    if wl <=? 490 then 1.0%Q
    else if wl =? 530 then 0.4%Q
    else if bool_decide (wl ∈ [570; 580]) then 0.3%Q
    else 0.1%Q in
  RGB r_ref g_ref b_ref.

(** [reference_data = {}; for wl in wavelengths: reference_data[wl] = ...] *)
Definition ideal_reference_data (wavelengths : list Z) : gmap Z (rgb Q) :=
  foldl (λ m wl, <[wl := ideal_reference wl]> m) ∅ wavelengths.

(** Truth value of the optional [reference_data] argument: [None] and
    the empty dictionary are false. *)
Definition truthy (reference_data : option (gmap Z (rgb Q))) : bool :=
  match reference_data with
  | None => false
  | Some m => negb (bool_decide (m = ∅))
  end.

(** [max(xs)] *)
Definition max_list (xs : list Q) : Res Q :=
  match xs with
  | [] => Raise (ValueError "max() arg is an empty sequence")
  | x :: xs' => Ok (Py.max_of x xs')
  end.

Definition MIN_THRESHOLD : Q := 0.01%Q.

(** [max(0.1, min(10.0, ref / max(norm, MIN_THRESHOLD)))] *)
Definition correction_factor (ref norm : Q) : Q :=
  Py.max 0.1 (Py.min 10.0 (ref / Py.max norm MIN_THRESHOLD))%Q.

(** One round of the loop over
    [zip(wavelengths, r_normalized, g_normalized, b_normalized)]: the
    normalized values, the reference used and the clipped factors. *)
Definition correction_row (reference_data : gmap Z (rgb Q))
    (row : Z * (Q * (Q * Q))) : Z * rgb Q * rgb Q * rgb Q :=
  let '(wl, (r_norm, (g_norm, b_norm))) := row in
  let ref := default (RGB 1.0 1.0 1.0)%Q (reference_data !! wl) in
  (wl, RGB r_norm g_norm b_norm, ref,
   RGB (correction_factor (rgb_r ref) r_norm)
       (correction_factor (rgb_g ref) g_norm)
       (correction_factor (rgb_b ref) b_norm)).

(** [[corrected[wl][chan] for wl in wavelengths]] *)
Definition channel_list (chan : channel) (corrected : gmap Z (intensity Q))
    (wavelengths : list Z) : list Q :=
  (λ wl, rgb_get chan (channels (corrected !!! wl))) <$> wavelengths.

(** [top if top > 0 else 1] *)
Definition divisor (top : Q) : Q := if Py.Qltb 0 top then top else 1%Q.

(** The line printed for one round of the correction loop. *)
Definition corrections_line (row : Z * rgb Q * rgb Q * rgb Q) : log_line :=
  let '(wl, norm, ref, corr) := row in LogCorrections wl norm ref corr.

Definition fit_correction_curves (reference_data : option (gmap Z (rgb Q)))
  : Method curves :=
  print LogFitting;;
  corrected ← gets corrected_intensities;
  if bool_decide (corrected = ∅)
  then raise (ValueError "Must perform shadow correction first")
  else
    let wavelengths := Py.sorted (map_to_list corrected).*1 in
    let r_intensities := channel_list ch_r corrected wavelengths in
    let g_intensities := channel_list ch_g corrected wavelengths in
    let b_intensities := channel_list ch_b corrected wavelengths in
    reference_data ←
      (if truthy reference_data
       then print LogProvidedReference;; ret (default ∅ reference_data)
       else
         for_each wavelengths (λ wl, print (LogReference wl (ideal_reference wl)));;
         ret (ideal_reference_data wavelengths));
    top_r ← call (max_list r_intensities);
    top_g ← call (max_list g_intensities);
    top_b ← call (max_list b_intensities);
    let max_r := divisor top_r in
    let max_g := divisor top_g in
    let max_b := divisor top_b in
    let r_normalized := (λ r, r / max_r)%Q <$> r_intensities in
    let g_normalized := (λ g, g / max_g)%Q <$> g_intensities in
    let b_normalized := (λ b, b / max_b)%Q <$> b_intensities in
    let rows := correction_row reference_data <$>
      zip wavelengths (zip r_normalized (zip g_normalized b_normalized)) in
    for_each rows (λ row, print (corrections_line row));;
    let r_corrections := (λ row, rgb_r row.2) <$> rows in
    let g_corrections := (λ row, rgb_g row.2) <$> rows in
    let b_corrections := (λ row, rgb_b row.2) <$> rows in
    let r_corrected_final := zip_with Qmult r_normalized r_corrections in
    let g_corrected_final := zip_with Qmult g_normalized g_corrections in
    let b_corrected_final := zip_with Qmult b_normalized b_corrections in
    try_except
      (r_poly ← call (polyfit wavelengths r_corrections);
       g_poly ← call (polyfit wavelengths g_corrections);
       b_poly ← call (polyfit wavelengths b_corrections);
       call (UnivariateSpline wavelengths r_corrections);;
       call (UnivariateSpline wavelengths g_corrections);;
       call (UnivariateSpline wavelengths b_corrections);;
       let fitted :=
         {| polynomial := RGB r_poly g_poly b_poly;
            data_points :=
              Series wavelengths r_corrections g_corrections b_corrections;
            raw_normalized :=
              Series wavelengths r_normalized g_normalized b_normalized;
            final_corrected :=
              Series wavelengths r_corrected_final g_corrected_final
                     b_corrected_final;
            reference_values := reference_data |} in
       modify (with_correction_curves (Some fitted));;
       print (LogFitted (length wavelengths));;
       print (LogFinalCorrected r_corrected_final g_corrected_final
                b_corrected_final);;
       ret fitted)
      (λ e, print (LogFitError e);; raise e).

Definition apply_correction_to_value (wl : Q) (chan : string) (value : Q)
  : Method Q :=
  fitted ← gets correction_curves;
  match fitted with
  | None => raise (ValueError "Correction curves not fitted yet")
  | Some c =>
      match rgb_lookup chan (polynomial c) with
      | None => raise (KeyError chan)
      | Some poly_coeffs =>
          let factor := Py.np_polyval poly_coeffs wl in
          ret (value * factor)%Q
      end
  end.

(** *** The pipeline *)

(** Values of NumPy types become native values of the same value; the
    embedding has one type for both. *)
Definition convert_to_json_serializable (r : calibration) : calibration := r.

Definition no_colors_error : string :=
  "No distinct colors detected. This system looks for red, yellow, green, cyan, blue, or magenta colors. Try taking a photo of a colorful object like a phone case, book cover, or printed color chart.".

(** [{str(k): v for k, v in d.items()}] *)
Definition str_keys {A} (d : gmap Z A) : list (string * A) :=
  (λ kv, (pretty kv.1, kv.2)) <$> map_to_list d.

(** [[min(d.keys()), max(d.keys())] if d else [0, 0]] *)
Definition key_range {A} (d : gmap Z A) : Z * Z :=
  match (map_to_list d).*1 with
  | [] => (0, 0)
  | k :: ks => (foldl Z.min k ks, foldl Z.max k ks)
  end.

(** The argument [now] is the value of [datetime.now().isoformat()]
    during the run. *)
Definition process (force_analysis : bool) (now : string) : Method result :=
  ok ← load_image;
  if negb ok then ret (Failure "Failed to load image")
  else
    has_enough_colors ← extract_color_regions;
    n ← gets (λ st, length (color_regions st));
    if force_analysis && bool_decide (0 < n)%nat then
      print (LogForceAnalysis n);;
      regions ← gets color_regions;
      ret (AnalysisOnly regions n
             ("Analysis mode: detected " +:+ pretty n +:+ " color region(s)"))
    else if negb has_enough_colors then
      if bool_decide (0 < n)%nat then
        print (LogOnlyFew n);;
        regions ← gets color_regions;
        ret (AnalysisOnly regions n
               ("Detected " +:+ pretty n +:+
                " color region(s) - insufficient for calibration but available for analysis"))
      else
        print LogNoColors;;
        ret (Failure no_colors_error)
    else
      ok ← extract_black_corners;
      if negb ok then ret (Failure "Failed to extract black corner regions")
      else
        corrected ← perform_shadow_correction;
        failed ← try_except
          (fit_correction_curves None;; ret None)
          (λ e, ret (Some ("Failed to fit correction curves: " +:+ str e)));
        match failed with
        | Some error => ret (Failure error)
        | None =>
            w ← gets width;
            h ← gets height;
            regions ← gets color_regions;
            corners ← gets black_regions;
            baseline_r ← calculate_baseline;
            baseline_g ← calculate_baseline;
            baseline_b ← calculate_baseline;
            raw ← gets raw_intensities;
            corrected ← gets corrected_intensities;
            fitted ← gets correction_curves;
            let record :=
              {| timestamp := now;
                 image_info := (w, h);
                 calibration_color_regions := regions;
                 black_corners := corners;
                 baseline :=
                   RGB baseline_r.1.1 baseline_g.1.2 baseline_b.2;
                 calibration_raw_intensities := str_keys raw;
                 calibration_corrected_intensities := str_keys corrected;
                 calibration_correction_curves := fitted;
                 calibration_statistics :=
                   {| num_colors_detected := length regions;
                      num_black_corners := length corners;
                      wavelength_range := key_range corrected |} |} in
            let record := convert_to_json_serializable record in
            print (LogComplete (length regions));;
            ret (Complete record)
        end.

End Methods.

(** ** A synthetic camera

    An implementation of [Vision] on which the pipeline can be run.  An
    image is a list of patches, each tagged with the lower HSV bound of
    the band that selects it; the first byte of the buffer says how many
    of the six chart colours are present, a second byte, when there is
    one, is the side of a square image instead of 120 by 240, and the
    empty buffer is not an image.  The mean of a slice without pixels
    is NaN.  The fit returns a constant cubic and the spline needs more
    than three points, as [UnivariateSpline(k=3)] does. *)

Module Synthetic.

Record patch := Patch {
  patch_area : Q;
  patch_box : rect;
  patch_mean : Q * Q * Q
}.

Record picture := Picture {
  picture_shape : Z * Z;
  picture_dark : Q * Q * Q;
  picture_patches : list ((Z * Z * Z) * patch)
}.

(** The mean B, G, R of the patch of a chart colour. *)
Definition ink (c : color) : Q * Q * Q :=
  match c with
  | red => (20.5, 30.25, 220)
  | yellow => (25, 210.75, 215)
  | green => (30, 200, 40.5)
  | cyan => (205, 190.5, 35)
  | blue => (225.5, 45, 28)
  | magenta => (180, 38.5, 190)
  end%Q.

Definition chart_patch (i : nat) (c : color) : (Z * Z * Z) * patch :=
  (default (0, 0, 0) (head (HSV_RANGES c)),
   Patch 400 (Rect (20 + 30 * Z.of_nat i) 40 20 21) (ink c)).

Definition decode (data : list Byte.byte) : Res (option picture) :=
  match data with
  | [] => Ok None
  | count :: rest =>
      Ok (Some (Picture
            match rest with
            | [] => (120, 240)
            | side :: _ => (Z.of_N (Byte.to_N side), Z.of_N (Byte.to_N side))
            end
            (12.5, 10, 9.5)%Q
            (imap chart_patch
               (take (N.to_nat (Byte.to_N count)) COLOR_WAVELENGTHS.*1))))
  end.

(** The mean colour of a slice of the picture: its dark background, or
    NaN in each channel when the slice has no pixel. *)
Definition slice_mean (img : picture) (pos : rect)
  : option Q * option Q * option Q :=
  if bool_decide (0 < rect_width pos ∧ 0 < rect_height pos)
  then let '(b, g, r) := picture_dark img in (Some b, Some g, Some r)
  else (None, None, None).

Definition total_area (m : list patch) : Z :=
  Py.int (foldr Qplus 0%Q (patch_area <$> m)).

Definition constant_fit (xs : list Z) (ys : list Q) : Res (list Q) :=
  match Py.np_mean (Some <$> ys) with
  | None => Raise (LibraryError "expected non-empty vector for x")
  | Some y => Ok [0; 0; 0; Qred y]%Q
  end.

Definition spline (xs : list Z) (ys : list Q) : Res unit :=
  if bool_decide (length xs ≤ 3)%nat
  then Raise (LibraryError "(m>k) failed for hidden m")
  else Ok tt.

Definition camera : Vision :=
  {| Image := picture;
     Mask := list patch;
     Contour := patch;
     imdecode := decode;
     shape := picture_shape;
     cvtColor_BGR2HSV := λ img, Ok img;
     inRange := λ img lower upper,
       (filter (λ p, p.1 = lower) (picture_patches img)).*2;
     bitwise_or := app;
     morphologyEx := λ m _, m;
     countNonZero := total_area;
     findContours := λ m, m;
     contourArea := patch_area;
     boundingRect := patch_box;
     mean_in_contour := λ _ c, patch_mean c;
     mean_of_slice := slice_mean;
     polyfit := constant_fit;
     UnivariateSpline := spline |}.

(** The processor after a full run on a buffer whose first byte is
    [count]. *)
Definition calibrated (count : Byte.byte) : processor :=
  (process (H := camera) false "2025-10-24T12:00:00" (init [count])).2.

(** A second shadow correction on a calibrated processor. *)
Definition reshadow : Res (gmap Z (intensity Q)) * processor :=
  perform_shadow_correction (H := camera) (calibrated Byte.x04).

Definition reshadow_table : gmap Z (intensity Q) :=
  match reshadow.1 with Ok t => t | Raise _ => ∅ end.

(** The corner samples and the regions of the calibrated processor, by
    position. *)
Definition corner_sample (i : nat) : black_region :=
  default (BlackRegion (RGB None None None) (RGB None None None)
             (Rect 0 0 0 0))
    ((black_regions (calibrated Byte.x04)).*2 !! i).

Definition chart_region (i : nat) : color * color_region :=
  default (red, ColorRegion 0 (RGB 0 0 0) (RGB 0 0 0) (0, 0) 0 (Rect 0 0 0 0))
    (color_regions (calibrated Byte.x04) !! i).

(** A processor with three detected colours, taken by hand through
    corner extraction and shadow correction. *)
Definition three_wavelengths : processor :=
  let st1 := (load_image (H := camera) (init [Byte.x03])).2 in
  let st2 := (extract_color_regions st1).2 in
  let st3 := (extract_black_corners st2).2 in
  (perform_shadow_correction st3).2.

(** Reference data with an entry for red only. *)
Definition red_only : gmap Z (rgb Q) := {[ 625 := (RGB 1.0 0.2 0.1)%Q ]}.

(** A second fit on a calibrated processor, with optional reference
    data. *)
Definition refit (reference_data : option (gmap Z (rgb Q)))
  : Res curves * processor :=
  fit_correction_curves (H := camera) reference_data (calibrated Byte.x04).

Definition refit_curves (reference_data : option (gmap Z (rgb Q))) : curves :=
  match (refit reference_data).1 with
  | Ok c => c
  | Raise _ => Curves (RGB [] [] []) (Series [] [] [] []) (Series [] [] [] [])
                 (Series [] [] [] []) ∅
  end.

End Synthetic.

(** ** Vocabulary of the statements *)

(** Clipping to a closed interval, with the mathematical maximum and
    minimum. *)
Definition clip (lo hi x : Q) : Q := Qmax lo (Qmin hi x).

(** One list of a table of [correction_curves], by channel. *)
Definition series_get (c : channel) (s : series) : list Q :=
  match c with ch_r => series_r s | ch_g => series_g s | ch_b => series_b s end.

(** The reference that the correction loop uses at a wavelength:
    [reference_data.get(wl, {'r': 1.0, 'g': 1.0, 'b': 1.0})]. *)
Definition reference_at (reference_data : gmap Z (rgb Q)) (wl : Z) : rgb Q :=
  default (RGB 1.0 1.0 1.0)%Q (reference_data !! wl).

(** The lines printed by the calibration stages: corner extraction,
    baseline, shadow correction and curve fitting. *)
Definition calibration_line (l : log_line) : bool :=
  match l with
  | LogExtractingCorners | LogBlackCorner _ _ _ _ | LogBaseline _ _ _
  | LogShadowCorrection | LogShadowLine _ _ _ _
  | LogFitting | LogProvidedReference | LogReference _ _
  | LogCorrections _ _ _ _ | LogFitted _ | LogFinalCorrected _ _ _
  | LogFitError _ | LogComplete _ => true
  | _ => false
  end.

Section Vocabulary.
Context `{Vision}.

(** No calibration stage ran between two states: the corner samples,
    the intensity tables and the curves are the same, and no line of a
    calibration stage was printed. *)
Definition no_calibration (st st' : processor) : Prop :=
  black_regions st' = black_regions st
  ∧ raw_intensities st' = raw_intensities st
  ∧ corrected_intensities st' = corrected_intensities st
  ∧ correction_curves st' = correction_curves st
  ∧ filter calibration_line (stderr st') = filter calibration_line (stderr st).

(** The image is decoded and converted. *)
Definition image_loaded (st : processor) : Prop :=
  is_Some (image st) ∧ is_Some (hsv_image st).

(** The value of [calculate_baseline] for given corner samples. *)
Definition baseline_of (corners : list (corner * black_region))
  : option Q * option Q * option Q :=
  (Py.np_mean ((λ c, rgb_r (black_rgb c.2)) <$> corners),
   Py.np_mean ((λ c, rgb_g (black_rgb c.2)) <$> corners),
   Py.np_mean ((λ c, rgb_b (black_rgb c.2)) <$> corners)).

(** The entry that the shadow corrector writes for one region. *)
Definition corrected_entry (base : option Q * option Q * option Q)
    (entry : color * color_region) : intensity Q :=
  let raw := region_rgb entry.2 in
  Intensity (RGB (subtract_baseline (rgb_r raw) base.1.1)
                 (subtract_baseline (rgb_g raw) base.1.2)
                 (subtract_baseline (rgb_b raw) base.2))
            entry.1.

(** The table of corrected intensities after the loop over the regions. *)
Definition shadow_table (base : option Q * option Q * option Q)
    (regions : list (color * color_region)) (table : gmap Z (intensity Q))
  : gmap Z (intensity Q) :=
  foldl (λ m entry, <[wavelength entry.2 := corrected_entry base entry]> m)
        table regions.

(** A printed line of the correction loop shows factors computed from
    the reference and the normalized values it shows. *)
Definition corrections_line_ok (l : log_line) : Prop :=
  match l with
  | LogCorrections _ norm ref corr =>
      ∀ chan, rgb_get chan corr
              = correction_factor (rgb_get chan ref) (rgb_get chan norm)
  | _ => True
  end.

(** The reference table that the fitter uses: the caller's when it is
    given and not empty, the built-in one otherwise. *)
Definition chosen_reference (reference_data : option (gmap Z (rgb Q)))
    (wavelengths : list Z) : gmap Z (rgb Q) :=
  if truthy reference_data then default ∅ reference_data
  else ideal_reference_data wavelengths.

(** The wavelengths of a table of corrected intensities, ascending. *)
Definition wavelengths_of (corrected : gmap Z (intensity Q)) : list Z :=
  Py.sorted (map_to_list corrected).*1.

(** The normalized value and the correction factor of a channel at a
    wavelength, for the channel maxima [tops]. *)
Definition norm_at (corrected : gmap Z (intensity Q)) (tops : rgb Q)
    (chan : channel) (wl : Z) : Q :=
  (rgb_get chan (channels (corrected !!! wl)) / divisor (rgb_get chan tops))%Q.

Definition factor_at (reference_data : gmap Z (rgb Q))
    (corrected : gmap Z (intensity Q)) (tops : rgb Q)
    (chan : channel) (wl : Z) : Q :=
  correction_factor (rgb_get chan (reference_at reference_data wl))
                    (norm_at corrected tops chan wl).

(** The calls of the [try] block, in order: three polynomial fits, then
    three splines. *)
Definition run_fits (wls : list Z) (f : channel → list Q) : Res (rgb (list Q)) :=
  match polyfit wls (f ch_r) with
  | Raise e => Raise e
  | Ok r_poly =>
    match polyfit wls (f ch_g) with
    | Raise e => Raise e
    | Ok g_poly =>
      match polyfit wls (f ch_b) with
      | Raise e => Raise e
      | Ok b_poly =>
        match UnivariateSpline wls (f ch_r) with
        | Raise e => Raise e
        | Ok _ =>
          match UnivariateSpline wls (f ch_g) with
          | Raise e => Raise e
          | Ok _ =>
            match UnivariateSpline wls (f ch_b) with
            | Raise e => Raise e
            | Ok _ => Ok (RGB r_poly g_poly b_poly)
            end
          end
        end
      end
    end
  end.

(** The dictionary that a successful fit stores. *)
Definition fitted_curves (reference_data : gmap Z (rgb Q))
    (corrected : gmap Z (intensity Q)) (tops : rgb Q)
    (polys : rgb (list Q)) : curves :=
  let wls := wavelengths_of corrected in
  let norms chan := norm_at corrected tops chan <$> wls in
  let factors chan := factor_at reference_data corrected tops chan <$> wls in
  let finals chan := zip_with Qmult (norms chan) (factors chan) in
  {| polynomial := polys;
     data_points := Series wls (factors ch_r) (factors ch_g) (factors ch_b);
     raw_normalized := Series wls (norms ch_r) (norms ch_g) (norms ch_b);
     final_corrected := Series wls (finals ch_r) (finals ch_g) (finals ch_b);
     reference_values := reference_data |}.

(** The image is the same in both states. *)
Definition same_image (st st' : processor) : Prop :=
  image st' = image st ∧ hsv_image st' = hsv_image st
  ∧ height st' = height st ∧ width st' = width st.

(** Every region carries the wavelength that [COLOR_WAVELENGTHS] gives
    its colour, and no colour occurs twice. *)
Definition regions_ok (regions : list (color * color_region)) : Prop :=
  NoDup regions.*1
  ∧ Forall (λ e, (e.1, wavelength e.2) ∈ COLOR_WAVELENGTHS) regions.

(** A step of the region detector: no calibration stage, same image,
    and well-formed regions stay well-formed. *)
Definition detector_step (st st' : processor) : Prop :=
  no_calibration st st' ∧ same_image st st'
  ∧ (regions_ok (color_regions st) → regions_ok (color_regions st')).

End Vocabulary.

(** ** The endpoint [/process] of the server

    [process_image] of spectral_server.py.  The request is the value of
    [request.get_json()]; the response is the dictionary given to
    [jsonify] and the status code; the lines are what the request
    prints to [sys.stderr], those of the processor included. *)

Module Server.

(** A parsed JSON value.  A number is [None] when it is one of the
    non-finite values that Python's parser accepts. *)
#[warnings="-register-all"] Inductive json :=
| JNull
| JBool (b : bool)
| JNum (x : option Q)
| JStr (s : string)
| JArr (items : list json)
| JObj (fields : list (string * json)).

(** The truth value of a parsed value, as [not v] and [v and ...] test
    it. *)
Definition truth (v : json) : bool :=
  match v with
  | JNull => false
  | JBool b => b
  | JNum (Some q) => negb (Qeq_bool q 0)
  | JNum None => true
  | JStr EmptyString => false
  | JStr _ => true
  | JArr [] => false
  | JArr _ => true
  | JObj [] => false
  | JObj _ => true
  end.

(** [d.get(key)] on the items of a dictionary. *)
Fixpoint get (key : string) (fields : list (string * json)) : option json :=
  match fields with
  | [] => None
  | (k, v) :: rest => if String.eqb k key then Some v else get key rest
  end.

(** [key in v]: a key of a dictionary, an element of a list, a part of
    a string; [None] where Python raises [TypeError] because the value
    is not iterable. *)
Definition contains (key : string) (v : json) : option bool :=
  match v with
  | JObj fields =>
      Some (match get key fields with Some _ => true | None => false end)
  | JArr items =>
      Some (existsb (λ item, match item with
                             | JStr s => String.eqb s key
                             | _ => false
                             end) items)
  | JStr s =>
      Some (match String.index 0 key s with Some _ => true | None => false end)
  | JNull | JBool _ | JNum _ => None
  end.

Definition comma : Ascii.ascii := Ascii.ascii_of_nat 44.

(** [s.split(',', 1)]: the text before the first comma and, when there
    is a comma, the text after it. *)
Fixpoint split_comma (s : string) : string * option string :=
  match s with
  | EmptyString => (EmptyString, None)
  | String c rest =>
      if Ascii.eqb c comma then (EmptyString, Some rest)
      else let '(before, after) := split_comma rest in (String c before, after)
  end.

(** The exceptions that reach the handler of the endpoint.  [Thrown]
    carries an exception of a library or of the processor;
    [RequestError] is raised by [get_json]. *)
Inductive failure :=
| Thrown (e : exn)
| TypeError
| AttributeError
| IndexError
| RequestError.

Inductive line :=
| Received (format : json)
| Decoded (shape : Z * Z)
| Converted (n : nat)
| Printed (l : log_line)
| ProcessingComplete
| ErrorProcessing (e : failure).

(** The dictionary of a response: an error message, an exception with
    its text and the name of its type, or the result of the
    processor. *)
Inductive payload :=
| ErrorBody (error : string)
| ExceptionBody (e : failure)
| ResultBody (r : result).

Record response := Response { body : payload; status : Z }.

Section Endpoint.
Context `{Vision}.

(** [base64.b64decode] *)
Variable b64decode : string → Res (list Byte.byte).

(** [cv2.imencode('.jpg', image)]: the flag and the encoded bytes. *)
Variable imencode : Image → Res (bool * list Byte.byte).

(** [except Exception as e] *)
Definition handler (e : failure) (printed : list line)
  : response * list line :=
  (Response (ExceptionBody e) 500, printed ++ [ErrorProcessing e]).

(** From [cv2.imencode] to the end of the [try] block. *)
Definition encode_and_process (now : string) (force_analysis : json)
    (image : Image) (printed : list line) : response * list line :=
  match imencode image with
  | Raise e => handler (Thrown e) printed
  | Ok (success, encoded_image) =>
      if negb success
      then (Response (ErrorBody "Failed to encode image") 400, printed)
      else
        let image_bytes_processed := encoded_image in
        let printed := printed ++ [Converted (length image_bytes_processed)] in
        let '(result, st) :=
          process (truth force_analysis) now (init image_bytes_processed) in
        let printed := printed ++ (Printed <$> stderr st) in
        match result with
        | Raise e => handler (Thrown e) printed
        | Ok result =>
            (Response (ResultBody result) 200, printed ++ [ProcessingComplete])
        end
  end.

(** From [base64.b64decode] on. *)
Definition decode_and_process (now : string) (force_analysis : json)
    (image_base64 : string) (printed : list line) : response * list line :=
  match b64decode image_base64 with
  | Raise e => handler (Thrown e) printed
  | Ok image_bytes =>
      match imdecode image_bytes with
      | Raise e => handler (Thrown e) printed
      | Ok None =>
          (Response (ErrorBody "Failed to decode image") 400, printed)
      | Ok (Some image) =>
          encode_and_process now force_analysis image
            (printed ++ [Decoded (shape image)])
      end
  end.

(** [request] is [None] when [request.get_json()] raises. *)
Definition process_image (now : string) (request : option json)
  : response * list line :=
  match request with
  | None => handler RequestError []
  | Some data =>
      if negb (truth data)
      then (Response (ErrorBody "No image data provided") 400, [])
      else
        match contains "image" data with
        | None => handler TypeError []
        | Some false =>
            (Response (ErrorBody "No image data provided") 400, [])
        | Some true =>
            match data with
            | JObj fields =>
                match get "image" fields with
                | None => handler (Thrown (KeyError "image")) []
                | Some image_base64 =>
                    let image_format :=
                      default (JStr "jpg") (get "format" fields) in
                    let force_analysis :=
                      default (JBool false) (get "force_analysis" fields) in
                    let printed := [Received image_format] in
                    match contains "," image_base64 with
                    | None => handler TypeError printed
                    | Some true =>
                        match image_base64 with
                        | JStr s =>
                            match (split_comma s).2 with
                            | Some rest =>
                                decode_and_process now force_analysis rest
                                  printed
                            | None => handler IndexError printed
                            end
                        | _ => handler AttributeError printed
                        end
                    | Some false =>
                        match image_base64 with
                        | JStr s =>
                            decode_and_process now force_analysis s printed
                        | _ => handler TypeError printed
                        end
                    end
                end
            | _ => handler TypeError []
            end
        end
  end.

End Endpoint.

(** The text that the endpoint decodes: what follows the first comma
    of the 'image' string, or all of it without a comma. *)
Definition base64_part (s : string) : string :=
  match (split_comma s).2 with Some rest => rest | None => s end.

End Server.

(** ** A test bench

    Stand-ins for the codecs of the endpoint on the synthetic camera,
    the complete run on a chart of four colours, the run on a chart
    of three, and the run on an image of five pixels by five. *)

Module Bench.

(** The bytes of the text, one for each character. *)
Definition b64decode (s : string) : Res (list Byte.byte) :=
  Ok (list_byte_of_string s).

(** One byte: the number of patches of the picture. *)
Definition imencode (img : Synthetic.picture) : Res (bool * list Byte.byte) :=
  Ok (true,
      [default Byte.x00
         (Byte.of_nat (length (Synthetic.picture_patches img)))]).

(** A text whose only character has code [count]. *)
Definition payload (count : nat) : string :=
  String (Ascii.ascii_of_nat count) EmptyString.

Definition no_picture : Synthetic.picture :=
  Synthetic.Picture (0, 0) (0, 0, 0)%Q [].

(** The picture that the synthetic camera decodes from the byte
    [count]. *)
Definition chart (count : Byte.byte) : Synthetic.picture :=
  match Synthetic.decode [count] with
  | Ok (Some img) => img
  | _ => no_picture
  end.

Definition endpoint (request : Server.json) : Server.response * list Server.line :=
  Server.process_image (H := Synthetic.camera) b64decode imencode
    "2025-10-24T12:00:00" (Some request).

Definition run : Res result * processor :=
  process (H := Synthetic.camera) false "2025-10-24T12:00:00"
    (init [Byte.x04]).

Definition no_record : calibration :=
  Calibration "none" (0, 0) [] [] (RGB None None None) [] [] None
    (Statistics 0 0 (0, 0)).

(** The calibration of the chart of four colours. *)
Definition record : calibration :=
  match run.1 with
  | Ok (Complete r) => r
  | _ => no_record
  end.


(** The run on four colours in an image of five pixels by five, whose
    corner slices have no pixel. *)
Definition tiny_run : Res result * processor :=
  process (H := Synthetic.camera) false "2025-10-24T12:00:00"
    (init [Byte.x04; Byte.x05]).

Definition tiny_record : calibration :=
  match tiny_run.1 with
  | Ok (Complete r) => r
  | _ => no_record
  end.

End Bench.

(** ** Properties of the built-ins *)

Section PyFacts.
Local Open Scope Q_scope.

Lemma Qltb_lt a b : Py.Qltb a b = true ↔ a < b.
Proof.
  unfold Py.Qltb. rewrite negb_true_iff.
  destruct (Qle_bool b a) eqn:E.
  - apply Qle_bool_iff in E. split; [discriminate | intros Hlt; exfalso; lra].
  - split; [intros _ | reflexivity].
    apply Qnot_le_lt. intros Hle. apply Qle_bool_iff in Hle. congruence.
Qed.

Lemma Qltb_ge a b : Py.Qltb a b = false ↔ b <= a.
Proof.
  destruct (Py.Qltb a b) eqn:E.
  - apply Qltb_lt in E. split; [discriminate | intros Hle; exfalso; lra].
  - split; [intros _ | reflexivity].
    apply Qnot_lt_le. intros Hlt. apply Qltb_lt in Hlt. congruence.
Qed.

Lemma py_max_spec a b : a <= Py.max a b ∧ b <= Py.max a b
  ∧ (Py.max a b = a ∨ Py.max a b = b).
Proof.
  unfold Py.max. destruct (Py.Qltb a b) eqn:E.
  - apply Qltb_lt in E. repeat split; [lra | lra | now right].
  - apply Qltb_ge in E. repeat split; [lra | lra | now left].
Qed.

Lemma py_min_spec a b : Py.min a b <= a ∧ Py.min a b <= b
  ∧ (Py.min a b = a ∨ Py.min a b = b).
Proof.
  unfold Py.min. destruct (Py.Qltb b a) eqn:E.
  - apply Qltb_lt in E. repeat split; [lra | lra | now right].
  - apply Qltb_ge in E. repeat split; [lra | lra | now left].
Qed.

Lemma py_max_Qmax a b : Py.max a b == Qmax a b.
Proof.
  destruct (py_max_spec a b) as (Ha & Hb & Hc).
  destruct (Q.max_spec a b) as [[Hlt ->]|[Hle ->]];
    destruct Hc as [Hc | Hc]; rewrite Hc in *; lra.
Qed.

Lemma py_min_Qmin a b : Py.min a b == Qmin a b.
Proof.
  destruct (py_min_spec a b) as (Ha & Hb & Hc).
  destruct (Q.min_spec a b) as [[Hlt ->]|[Hle ->]];
    destruct Hc as [Hc | Hc]; rewrite Hc in *; lra.
Qed.

Lemma py_max_floor_pos norm : 0 < Py.max norm MIN_THRESHOLD.
Proof.
  destruct (py_max_spec norm MIN_THRESHOLD) as (_ & Hb & _).
  unfold MIN_THRESHOLD in *. lra.
Qed.

Lemma correction_factor_clip ref norm :
  correction_factor ref norm == clip 0.1 10.0 (ref / Qmax norm 0.01).
Proof.
  unfold correction_factor, clip, MIN_THRESHOLD.
  rewrite py_max_Qmax, py_min_Qmin, py_max_Qmax. reflexivity.
Qed.

Lemma correction_factor_bounds ref norm :
  0.1 <= correction_factor ref norm ∧ correction_factor ref norm <= 10.0.
Proof.
  unfold correction_factor.
  set (x := ref / Py.max norm MIN_THRESHOLD).
  destruct (py_max_spec 0.1 (Py.min 10.0 x)) as (Ha & _ & Hm).
  destruct (py_min_spec 10.0 x) as (Hc & _ & _).
  split; [exact Ha |].
  destruct Hm as [Hm | Hm]; rewrite Hm; lra.
Qed.

Lemma correction_factor_zero ref norm :
  norm == 0 → correction_factor ref norm == clip 0.1 10.0 (ref / 0.01).
Proof.
  intros Hz. rewrite correction_factor_clip.
  assert (Hm : Qmax norm 0.01 == 0.01).
  { destruct (Q.max_spec norm 0.01) as [[_ ->]|[Hle ->]]; lra. }
  unfold clip. now rewrite Hm.
Qed.

End PyFacts.

(** ** Reasoning about methods *)

Section MonadFacts.
Context {S : Type}.

Lemma bind_ok {A B} (m : M S A) (k : A → M S B) st a st1 :
  m st = (Ok a, st1) → bind m k st = k a st1.
Proof. intros E. unfold bind. now rewrite E. Qed.

Lemma bind_raise {A B} (m : M S A) (k : A → M S B) st e st1 :
  m st = (Raise e, st1) → bind m k st = (Raise e, st1).
Proof. intros E. unfold bind. now rewrite E. Qed.

(** A loop whose body always returns, keeps an invariant [I] and moves
    the state along a preorder [R] returns and does the same. *)
Lemma for_each_total {A} (I : S → Prop) (R : relation S)
    (xs : list A) (body : A → M S unit) :
  (∀ st, R st st) → (∀ a b c, R a b → R b c → R a c) →
  (∀ x st, x ∈ xs → I st →
     ∃ st', body x st = (Ok tt, st') ∧ I st' ∧ R st st') →
  ∀ st, I st → ∃ st', for_each xs body st = (Ok tt, st') ∧ I st' ∧ R st st'.
Proof.
  intros Hrefl Htrans. induction xs as [|x xs IH]; intros Hbody st Hst.
  - exists st. repeat split; [assumption | apply Hrefl].
  - destruct (Hbody x st) as (st1 & E1 & I1 & R1); [left | assumption |].
    destruct (IH (λ y s Hy, Hbody y s (list_elem_of_further _ _ _ Hy)) st1 I1)
      as (st2 & E2 & I2 & R2).
    exists st2. cbn [for_each]. rewrite (bind_ok _ _ _ _ _ E1).
    repeat split; [assumption | assumption | now apply (Htrans st st1 st2)].
Qed.

End MonadFacts.

(** ** The stages of the pipeline *)

Section StageFacts.
Context `{Vision}.

#[local] Arguments bind {S A B} m k st /.
#[local] Arguments ret {S A} a st /.
#[local] Arguments raise {S A} e st /.
#[local] Arguments try_except {S A} body handler st /.
#[local] Arguments gets {S A} f st /.
#[local] Arguments modify {S} f st /.
#[local] Arguments call {S A} r st /.
#[local] Arguments print {_} l st /.
#[local] Arguments loaded {_} field st /.

Lemma no_calibration_refl st : no_calibration st st.
Proof. now repeat split. Qed.

Lemma no_calibration_trans a b c :
  no_calibration a b → no_calibration b c → no_calibration a c.
Proof.
  intros (E1 & E2 & E3 & E4 & E5) (F1 & F2 & F3 & F4 & F5).
  repeat split; congruence.
Qed.

Lemma for_each_print {A} (xs : list A) (f : A → log_line) st :
  for_each xs (λ x, print (f x)) st
  = (Ok tt, with_stderr (stderr st ++ (f <$> xs)) st).
Proof.
  revert st. induction xs as [|x xs IH]; intros st.
  - destruct st; simpl. by rewrite app_nil_r.
  - cbn [for_each bind]. cbn [print modify]. rewrite IH.
    destruct st; simpl. by rewrite <- app_assoc.
Qed.

Lemma load_image_total st :
  ∃ ok st1, load_image st = (Ok ok, st1)
    ∧ no_calibration st st1
    ∧ color_regions st1 = color_regions st
    ∧ (ok = true → image_loaded st1).
Proof.
  destruct st as [d im hs h w cr br ri ci cc err].
  unfold load_image, no_calibration, image_loaded. cbn.
  destruct (imdecode d) as [[img|]|e]; cbn.
  - destruct (shape img) as [hh ww]; cbn.
    destruct (cvtColor_BGR2HSV img) as [hsv|e]; cbn.
    + eexists _, _. split; [reflexivity|]. cbn.
      rewrite !filter_app. cbn. rewrite !app_nil_r. eauto 10.
    + eexists _, _. split; [reflexivity|]. cbn.
      rewrite !filter_app. cbn. rewrite !app_nil_r.
      repeat split; discriminate.
  - eexists _, _. split; [reflexivity|]. cbn.
    rewrite !filter_app. cbn. rewrite !app_nil_r.
    repeat split; discriminate.
  - eexists _, _. split; [reflexivity|]. cbn.
    rewrite !filter_app. cbn. rewrite !app_nil_r.
    repeat split; discriminate.
Qed.

Lemma dict_set_keys {K V} `{EqDecision K} (k : K) (v : V) d :
  (dict_set k v d).*1 = if decide (k ∈ d.*1) then d.*1 else d.*1 ++ [k].
Proof.
  induction d as [|[k' v'] d IH]; cbn.
  - rewrite decide_False; [done | apply not_elem_of_nil].
  - destruct (decide (k = k')) as [->|Hne]; cbn.
    + rewrite decide_True; [done | left].
    + rewrite IH. destruct (decide (k ∈ d.*1)) as [Hin|Hnin].
      * rewrite decide_True; [done | now right].
      * rewrite decide_False; [done |].
        intros Hin. apply elem_of_cons in Hin as [?|?]; congruence.
Qed.

Lemma dict_set_NoDup {K V} `{EqDecision K} (k : K) (v : V) d :
  NoDup d.*1 → NoDup (dict_set k v d).*1.
Proof.
  intros Hd. rewrite dict_set_keys. destruct (decide (k ∈ d.*1)); [done|].
  apply NoDup_app. repeat split; [done | | apply NoDup_singleton].
  intros x Hx Hk. apply list_elem_of_singleton in Hk. congruence.
Qed.

Lemma dict_set_elem {K V} `{EqDecision K} (k : K) (v : V) d kv :
  kv ∈ dict_set k v d → kv = (k, v) ∨ kv ∈ d.
Proof.
  induction d as [|[k' v'] d IH]; cbn.
  - intros Hin. apply list_elem_of_singleton in Hin. now left.
  - destruct (decide (k = k')) as [->|Hne]; intros Hin;
      apply elem_of_cons in Hin as [->|Hin].
    + now left.
    + right. now right.
    + right. left.
    + destruct (IH Hin) as [->|Hd]; [now left | right; now right].
Qed.

Lemma dict_set_length {K V} `{EqDecision K} (k : K) (v : V) d :
  (length d ≤ length (dict_set k v d))%nat.
Proof.
  induction d as [|[k' v'] d IH]; cbn; [lia|].
  destruct (decide (k = k')); cbn; lia.
Qed.

Lemma regions_ok_set name wl region regions :
  (name, wl) ∈ COLOR_WAVELENGTHS → wavelength region = wl →
  regions_ok regions → regions_ok (dict_set name region regions).
Proof.
  intros Htable Hwl [Hnodup Hall]. split.
  - now apply dict_set_NoDup.
  - rewrite Forall_forall in Hall. apply Forall_forall. intros [n r] Hin.
    apply dict_set_elem in Hin as [[= -> ->]|Hin].
    + cbn. now rewrite Hwl.
    + now apply (Hall (n, r)).
Qed.

Lemma detector_step_refl st : detector_step st st.
Proof. split; [apply no_calibration_refl|]. split; [now repeat split | auto]. Qed.

Lemma detector_step_trans a b c :
  detector_step a b → detector_step b c → detector_step a c.
Proof.
  intros (N1 & (E1 & E2 & E3 & E4) & K1) (N2 & (F1 & F2 & F3 & F4) & K2).
  split; [now apply (no_calibration_trans a b c)|].
  split; [repeat split; congruence | auto].
Qed.

Lemma extract_color_region_total name wl st :
  (name, wl) ∈ COLOR_WAVELENGTHS → image_loaded st →
  ∃ st', extract_color_region name wl st = (Ok tt, st')
    ∧ image_loaded st' ∧ detector_step st st'.
Proof.
  intros Htable [[img Himg] [hsv Hhsv]].
  destruct st as [d im hs h w cr br ri ci cc err]. cbn in Himg, Hhsv.
  subst im hs.
  unfold extract_color_region, _create_color_mask, detector_step,
    no_calibration, same_image, image_loaded.
  assert (Hfilter : ∀ l, filter calibration_line (err ++ [l])
            = filter calibration_line err ++ filter calibration_line [l]).
  { intros l. apply filter_app. }
  destruct name; cbn.
  all: destruct (countNonZero _ <? 100);
    [eexists; split; [reflexivity|]; cbn; rewrite Hfilter; cbn;
     rewrite app_nil_r; eauto 20 |].
  all: destruct (findContours _) as [|c cs];
    [eexists; split; [reflexivity|]; cbn; eauto 20 |].
  all: destruct (Py.Qltb _ 100);
    [eexists; split; [reflexivity|]; cbn; eauto 20 |].
  all: destruct (boundingRect _) as [x y ww hh]; cbn.
  all: destruct (mean_in_contour _ _) as [[b g] r]; cbn.
  all: eexists; split; [reflexivity|]; cbn.
  all: rewrite Hfilter; cbn; rewrite app_nil_r.
  all: split; [split; eauto|].
  all: split; [repeat split|].
  all: split; [repeat split|].
  all: apply (regions_ok_set _ wl); auto.
Qed.

Lemma extract_color_regions_total st :
  image_loaded st →
  ∃ st', extract_color_regions st
         = (Ok (bool_decide (4 ≤ length (color_regions st'))%nat), st')
    ∧ image_loaded st' ∧ detector_step st st'.
Proof.
  intros Hloaded. unfold extract_color_regions.
  set (st0 := with_stderr (stderr st ++ [LogExtractingColors]) st).
  assert (Hst0 : image_loaded st0 ∧ detector_step st st0).
  { subst st0. destruct st; cbn in *. split; [exact Hloaded|].
    split; [|split; [now repeat split | auto]].
    repeat split. cbn. rewrite filter_app. cbn. now rewrite app_nil_r. }
  destruct Hst0 as [I0 R0].
  destruct (for_each_total image_loaded detector_step COLOR_WAVELENGTHS
              (λ '(color_name, wl), extract_color_region color_name wl))
    with (st := st0) as (st1 & E1 & L1 & R1);
    [exact detector_step_refl | exact detector_step_trans | | exact I0 |].
  { intros [name wl] s Hin Hs. now apply extract_color_region_total. }
  cbn [bind print modify]. fold st0. rewrite E1. cbn.
  set (st2 := with_stderr _ st1).
  assert (E2 : color_regions st2 = color_regions st1) by now destruct st1.
  assert (L2 : image_loaded st2) by now destruct st1.
  assert (R2 : detector_step st1 st2).
  { subst st2. destruct st1; cbn. split; [|split; [now repeat split | auto]].
    repeat split. cbn. rewrite filter_app. cbn. now rewrite app_nil_r. }
  exists st2. rewrite E2. split; [reflexivity|]. split; [exact L2|].
  exact (detector_step_trans st st0 st2 R0 (detector_step_trans _ _ _ R1 R2)).
Qed.

Lemma extract_black_corners_total st :
  is_Some (image st) →
  ∃ st', extract_black_corners st = (Ok true, st')
    ∧ color_regions st' = color_regions st
    ∧ raw_intensities st' = raw_intensities st
    ∧ corrected_intensities st' = corrected_intensities st
    ∧ correction_curves st' = correction_curves st
    ∧ same_image st st'
    ∧ LogExtractingCorners ∈ stderr st'
    ∧ (black_regions st = [] →
       (black_regions st').*1 = [top_left; top_right; bottom_left; bottom_right]).
Proof.
  intros [img Himg]. destruct st as [d im hs h w cr br ri ci cc err].
  cbn in Himg. subst im. unfold extract_black_corners, sample_corner, same_image. cbn.
  repeat (destruct (mean_of_slice img _) as [[? ?] ?]; cbn).
  eexists. split; [reflexivity|]. cbn. repeat split.
  - rewrite !elem_of_app. do 4 left. right. left.
  - intros ->. reflexivity.
Qed.

Lemma calculate_baseline_eq st :
  calculate_baseline st
  = (Ok (baseline_of (black_regions st)),
     with_stderr (stderr st ++
       [LogBaseline (baseline_of (black_regions st)).1.1
                    (baseline_of (black_regions st)).1.2
                    (baseline_of (black_regions st)).2]) st).
Proof. destruct st. reflexivity. Qed.

Lemma shadow_loop rb gb bb regions st :
  for_each regions (λ '(color_name, region),
    correct_region rb gb bb color_name region) st
  = (Ok tt,
     with_stderr
       (stderr st ++
        ((λ e, LogShadowLine e.1 (wavelength e.2) (region_rgb e.2)
                 (channels (corrected_entry (rb, gb, bb) e))) <$> regions))
       (with_corrected_intensities
          (shadow_table (rb, gb, bb) regions (corrected_intensities st))
          (with_raw_intensities
             (foldl (λ m e, <[wavelength e.2 := Intensity (region_rgb e.2) e.1]> m)
                    (raw_intensities st) regions)
             st))).
Proof.
  revert st. induction regions as [|[name region] regions IH]; intros st.
  - destruct st; cbn. now rewrite app_nil_r.
  - cbn [for_each bind]. unfold correct_region at 1.
    cbn [modify print bind]. rewrite IH.
    destruct st; cbn. now rewrite <- app_assoc.
Qed.

Lemma perform_shadow_correction_total st :
  ∃ st', perform_shadow_correction st = (Ok (corrected_intensities st'), st')
    ∧ corrected_intensities st'
      = shadow_table (baseline_of (black_regions st)) (color_regions st)
          (corrected_intensities st)
    ∧ color_regions st' = color_regions st
    ∧ black_regions st' = black_regions st
    ∧ correction_curves st' = correction_curves st
    ∧ same_image st st'
    ∧ LogShadowCorrection ∈ stderr st'.
Proof.
  unfold perform_shadow_correction. cbn [bind print modify].
  rewrite calculate_baseline_eq.
  destruct st as [d im hs h w cr br ri ci cc err]. cbn.
  cbn -[correct_region]. rewrite shadow_loop. cbn.
  match goal with |- ∃ st', (_, ?s) = _ ∧ _ => exists s end.
  split; [reflexivity|]. cbn. repeat split.
  rewrite !elem_of_app. do 2 left. right. left.
Qed.

Lemma rows_fmap refd (f1 f2 f3 : Z → Q) (wls : list Z) :
  correction_row refd <$> zip wls (zip (f1 <$> wls) (zip (f2 <$> wls) (f3 <$> wls)))
  = (λ wl, correction_row refd (wl, (f1 wl, (f2 wl, f3 wl)))) <$> wls.
Proof. induction wls as [|wl wls IH]; [done|]. simpl. f_equal. exact IH. Qed.

Lemma wavelengths_of_elem corrected wl :
  wl ∈ wavelengths_of corrected ↔ is_Some (corrected !! wl).
Proof.
  unfold wavelengths_of, Py.sorted. rewrite merge_sort_Permutation.
  rewrite list_elem_of_fmap. split.
  - intros ([k v] & -> & Hin). apply elem_of_map_to_list in Hin. eauto.
  - intros [v Hv]. exists (wl, v). split; [done|].
    now apply elem_of_map_to_list.
Qed.

Lemma wavelengths_of_sorted corrected :
  StronglySorted Z.le (wavelengths_of corrected).
Proof. apply StronglySorted_merge_sort; apply _. Qed.

Lemma wavelengths_of_length corrected :
  length (wavelengths_of corrected) = size corrected.
Proof.
  unfold wavelengths_of, Py.sorted.
  rewrite merge_sort_Permutation, length_fmap. apply length_map_to_list.
Qed.

Lemma wavelengths_of_nonempty corrected :
  corrected ≠ ∅ → wavelengths_of corrected ≠ [].
Proof.
  intros Hne Hnil. apply Hne, map_size_empty_iff.
  now rewrite <- wavelengths_of_length, Hnil.
Qed.

Lemma fit_correction_curves_empty ref st :
  corrected_intensities st = ∅ →
  fit_correction_curves ref st
  = (Raise (ValueError "Must perform shadow correction first"),
     with_stderr (stderr st ++ [LogFitting]) st).
Proof.
  intros Hempty. destruct st as [d im hs h w cr br ri ci cc err].
  cbn in Hempty. subst ci. reflexivity.
Qed.

Lemma max_list_nonempty (xs : list Q) :
  xs ≠ [] → ∃ top, max_list xs = Ok top.
Proof. destruct xs; [done | eauto]. Qed.

Lemma channel_list_nonempty chan corrected wls :
  wls ≠ [] → channel_list chan corrected wls ≠ [].
Proof. destruct wls; [done | discriminate]. Qed.

Lemma normalized_eq chan corrected (tops : rgb Q) (wls : list Z) :
  (λ v, v / divisor (rgb_get chan tops))%Q <$> channel_list chan corrected wls
  = norm_at corrected tops chan <$> wls.
Proof. unfold channel_list. now rewrite <- list_fmap_compose. Qed.

Lemma rows_eq refd corrected (tops : rgb Q) (wls : list Z) :
  correction_row refd <$>
    zip wls (zip (norm_at corrected tops ch_r <$> wls)
               (zip (norm_at corrected tops ch_g <$> wls)
                    (norm_at corrected tops ch_b <$> wls)))
  = (λ wl, correction_row refd
             (wl, (norm_at corrected tops ch_r wl,
                   (norm_at corrected tops ch_g wl,
                    norm_at corrected tops ch_b wl)))) <$> wls.
Proof. apply rows_fmap. Qed.

Lemma corrections_eq chan refd corrected (tops : rgb Q) (wls : list Z) :
  (λ row : Z * rgb Q * rgb Q * rgb Q, rgb_get chan row.2) <$>
    ((λ wl, correction_row refd
              (wl, (norm_at corrected tops ch_r wl,
                    (norm_at corrected tops ch_g wl,
                     norm_at corrected tops ch_b wl)))) <$> wls)
  = factor_at refd corrected tops chan <$> wls.
Proof. rewrite <- list_fmap_compose. now destruct chan. Qed.

Lemma fit_correction_curves_nonempty ref st :
  corrected_intensities st ≠ ∅ →
  let ci := corrected_intensities st in
  let wls := wavelengths_of ci in
  let refd := chosen_reference ref wls in
  ∃ tops lines,
    Forall (λ l, calibration_line l = true ∧ corrections_line_ok l) lines ∧
    let st1 := with_stderr (stderr st ++ lines) st in
    fit_correction_curves ref st =
      match run_fits wls (λ chan, factor_at refd ci tops chan <$> wls) with
      | Ok polys =>
          let c := fitted_curves refd ci tops polys in
          (Ok c,
           with_stderr
             (stderr st1 ++
              [LogFitted (length wls);
               LogFinalCorrected (series_r (final_corrected c))
                 (series_g (final_corrected c)) (series_b (final_corrected c))])
             (with_correction_curves (Some c) st1))
      | Raise e => (Raise e, with_stderr (stderr st1 ++ [LogFitError e]) st1)
      end.
Proof.
  intros Hne ci wls refd.
  pose proof (wavelengths_of_nonempty _ Hne) as Hwls. fold ci wls in Hwls.
  destruct (max_list_nonempty _ (channel_list_nonempty ch_r ci wls Hwls)) as [tr Er].
  destruct (max_list_nonempty _ (channel_list_nonempty ch_g ci wls Hwls)) as [tg Eg].
  destruct (max_list_nonempty _ (channel_list_nonempty ch_b ci wls Hwls)) as [tb Eb].
  set (tops := RGB tr tg tb).
  set (ref_lines := if truthy ref then [LogProvidedReference]
                    else (λ wl, LogReference wl (ideal_reference wl)) <$> wls).
  set (rows := (λ wl, correction_row refd
             (wl, (norm_at ci tops ch_r wl,
                   (norm_at ci tops ch_g wl, norm_at ci tops ch_b wl)))) <$> wls).
  exists tops, ([LogFitting] ++ ref_lines ++ (corrections_line <$> rows)).
  split.
  { apply Forall_app. split; [repeat constructor|].
    apply Forall_app. split.
    - subst ref_lines. destruct (truthy ref); [repeat constructor|].
      apply Forall_fmap, Forall_true. intros wl. now split.
    - subst rows. apply Forall_fmap, Forall_fmap, Forall_true.
      intros wl. split; [reflexivity|]. intros chan. now destruct chan. }
  destruct st as [d im hs h w cr br ri ci0 cc err]. cbn in ci, Hne. subst ci.
  unfold fit_correction_curves.
  cbn -[Py.sorted map_to_list channel_list correction_row truthy].
  rewrite bool_decide_eq_false_2 by assumption.
  fold (wavelengths_of ci0). fold wls.
  assert (Hchoice : ∀ (k : gmap Z (rgb Q) → M processor curves) s,
    bind (if truthy ref
          then bind (print LogProvidedReference) (λ _, ret (default ∅ ref))
          else bind (for_each wls (λ wl, print (LogReference wl (ideal_reference wl))))
                    (λ _, ret (ideal_reference_data wls))) k s
    = k refd (with_stderr (stderr s ++ ref_lines) s)).
  { intros k s. subst refd ref_lines. unfold chosen_reference.
    destruct (truthy ref).
    - destruct s; reflexivity.
    - cbn [bind]. rewrite for_each_print. destruct s; reflexivity. }
  rewrite Hchoice. cbn [bind call]. rewrite Er, Eg, Eb.
  change tr with (rgb_get ch_r tops). change tg with (rgb_get ch_g tops).
  change tb with (rgb_get ch_b tops).
  rewrite !normalized_eq. rewrite rows_eq. fold rows.
  change (λ row : Z * rgb Q * rgb Q * rgb Q, rgb_r row.2)
    with (λ row : Z * rgb Q * rgb Q * rgb Q, rgb_get ch_r row.2).
  change (λ row : Z * rgb Q * rgb Q * rgb Q, rgb_g row.2)
    with (λ row : Z * rgb Q * rgb Q * rgb Q, rgb_get ch_g row.2).
  change (λ row : Z * rgb Q * rgb Q * rgb Q, rgb_b row.2)
    with (λ row : Z * rgb Q * rgb Q * rgb Q, rgb_get ch_b row.2).
  subst rows. rewrite !corrections_eq.
  rewrite for_each_print. unfold run_fits, fitted_curves. fold wls.
  cbn [try_except bind call].
  repeat match goal with
    | |- context [polyfit ?a ?b] => destruct (polyfit a b)
    | |- context [UnivariateSpline ?a ?b] => destruct (UnivariateSpline a b)
    end.
  all: cbn; repeat (rewrite <- app_assoc; cbn [app]); reflexivity.
Qed.
End StageFacts.
(** ** The reference model and the correction factors *)

Section Fitting.
Context `{Vision}.

Lemma ideal_reference_data_lookup wls wl :
  wl ∈ wls → ideal_reference_data wls !! wl = Some (ideal_reference wl).
Proof.
  unfold ideal_reference_data.
  assert (Hgen : ∀ m : gmap Z (rgb Q),
    (wl ∈ wls ∨ m !! wl = Some (ideal_reference wl)) →
    foldl (λ m wl, <[wl := ideal_reference wl]> m) m wls !! wl
    = Some (ideal_reference wl)).
  { induction wls as [|w ws IH]; intros m [Hin|Hm]; cbn.
    - now apply elem_of_nil in Hin.
    - exact Hm.
    - apply IH. apply elem_of_cons in Hin as [->|Hin]; [right | now left].
      apply lookup_insert_eq.
    - apply IH. right. destruct (decide (w = wl)) as [->|Hne].
      + apply lookup_insert_eq.
      + now rewrite lookup_insert_ne. }
  intros Hin. apply Hgen. now left.
Qed.

(** What a successful fit returns and stores. *)
Lemma fit_correction_curves_ok ref st c st' :
  fit_correction_curves ref st = (Ok c, st') →
  let ci := corrected_intensities st in
  ci ≠ ∅ ∧
  ∃ tops polys,
    c = fitted_curves (chosen_reference ref (wavelengths_of ci)) ci tops polys
    ∧ correction_curves st' = Some c
    ∧ corrected_intensities st' = ci
    ∧ color_regions st' = color_regions st
    ∧ black_regions st' = black_regions st.
Proof.
  intros Hfit ci.
  destruct (decide (ci = ∅)) as [Hempty|Hne].
  { rewrite fit_correction_curves_empty in Hfit by assumption. discriminate. }
  split; [assumption|].
  destruct (fit_correction_curves_nonempty ref st Hne) as (tops & lines & _ & E).
  cbn zeta in E. rewrite E in Hfit. clear E. fold ci in Hfit.
  destruct (run_fits _ _) as [polys|e]; [|discriminate].
  injection Hfit as <- <-. exists tops, polys.
  destruct st; cbn. repeat split.
Qed.

(** What a fit prints, whatever its outcome. *)
Lemma fit_correction_curves_lines ref st r st' :
  fit_correction_curves ref st = (r, st') →
  ∃ lines, stderr st' = stderr st ++ lines ∧ Forall corrections_line_ok lines.
Proof.
  intros Hfit.
  destruct (decide (corrected_intensities st = ∅)) as [Hempty|Hne].
  { rewrite fit_correction_curves_empty in Hfit by assumption.
    injection Hfit as _ <-. exists [LogFitting].
    split; [now destruct st | repeat constructor]. }
  destruct (fit_correction_curves_nonempty ref st Hne)
    as (tops & lines & Hlines & E).
  cbn zeta in E. rewrite E in Hfit. clear E.
  assert (Hok : Forall corrections_line_ok lines).
  { eapply Forall_impl; [exact Hlines | now intros l [_ Hl]]. }
  destruct (run_fits _ _) as [polys|e]; injection Hfit as _ <-;
    destruct st; cbn; eexists; (split; [rewrite <- app_assoc; reflexivity|]);
    (apply Forall_app; split; [exact Hok | repeat constructor]).
Qed.

(** What a failed fit leaves behind. *)
Lemma fit_correction_curves_raise ref st e st' :
  fit_correction_curves ref st = (Raise e, st') →
  correction_curves st' = correction_curves st
  ∧ corrected_intensities st' = corrected_intensities st
  ∧ color_regions st' = color_regions st
  ∧ black_regions st' = black_regions st.
Proof.
  intros Hfit.
  destruct (decide (corrected_intensities st = ∅)) as [Hempty|Hne].
  { rewrite fit_correction_curves_empty in Hfit by assumption.
    injection Hfit as <- <-. now destruct st. }
  destruct (fit_correction_curves_nonempty ref st Hne) as (tops & lines & _ & E).
  cbn zeta in E. rewrite E in Hfit. clear E.
  destruct (run_fits _ _) as [polys|e']; [discriminate|].
  injection Hfit as <- <-. now destruct st.
Qed.

End Fitting.

(** ** The fit in normal form *)

Section FitFacts.
Context `{Vision}.

#[local] Arguments bind {S A B} m k st /.
#[local] Arguments ret {S A} a st /.
#[local] Arguments raise {S A} e st /.
#[local] Arguments try_except {S A} body handler st /.
#[local] Arguments gets {S A} f st /.
#[local] Arguments modify {S} f st /.
#[local] Arguments call {S A} r st /.
#[local] Arguments print {_} l st /.
#[local] Arguments loaded {_} field st /.

Lemma max_of_ge_first (zs : list Q) (a : Q) : (a <= foldl Py.max a zs)%Q.
Proof.
  revert a. induction zs as [|z zs IH]; intros a; cbn; [lra|].
  destruct (py_max_spec a z) as (Ha & _ & _).
  specialize (IH (Py.max a z)). lra.
Qed.

Lemma max_of_upper (x : Q) (xs : list Q) (y : Q) :
  y ∈ x :: xs → (y <= Py.max_of x xs)%Q.
Proof.
  unfold Py.max_of. revert x. induction xs as [|z zs IH]; intros x Hin; cbn.
  - apply elem_of_cons in Hin as [->|Hin]; [lra | now apply elem_of_nil in Hin].
  - destruct (py_max_spec x z) as (Hx & Hz & _).
    pose proof (max_of_ge_first zs (Py.max x z)) as Hm.
    apply elem_of_cons in Hin as [->|Hin]; [lra|].
    apply elem_of_cons in Hin as [->|Hin]; [lra|].
    apply IH. now apply list_elem_of_further.
Qed.

Lemma max_of_elem (x : Q) (xs : list Q) : Py.max_of x xs ∈ x :: xs.
Proof.
  unfold Py.max_of. revert x. induction xs as [|z zs IH]; intros x; cbn.
  - apply list_elem_of_here.
  - specialize (IH (Py.max x z)).
    destruct (py_max_spec x z) as (_ & _ & [E|E]); rewrite E in *.
    + apply elem_of_cons in IH as [IH|IH].
      * rewrite IH. apply list_elem_of_here.
      * now do 2 apply list_elem_of_further.
    + now apply list_elem_of_further.
Qed.

Lemma sorted_nodup_ascending (l : list Z) :
  StronglySorted Z.le l → NoDup l → StronglySorted Z.lt l.
Proof.
  induction 1 as [|x l Hs IH Hall]; intros Hnd; constructor.
  - apply IH. now apply NoDup_cons in Hnd as [_ ?].
  - apply NoDup_cons in Hnd as [Hx _].
    rewrite Forall_forall in Hall |- *. intros y Hy.
    specialize (Hall y Hy).
    assert (x ≠ y) by (intros ->; contradiction). lia.
Qed.

Lemma wavelengths_of_ascending corrected :
  StronglySorted Z.lt (wavelengths_of corrected).
Proof.
  apply sorted_nodup_ascending; [apply wavelengths_of_sorted|].
  unfold wavelengths_of, Py.sorted. rewrite merge_sort_Permutation.
  apply NoDup_fst_map_to_list.
Qed.

(** The fit in normal form, with the channel maxima it divides by. *)
Lemma fit_correction_curves_normal ref st :
  corrected_intensities st ≠ ∅ →
  let ci := corrected_intensities st in
  let wls := wavelengths_of ci in
  let refd := chosen_reference ref wls in
  ∃ tops lines,
    (∀ chan, max_list (channel_list chan ci wls) = Ok (rgb_get chan tops)) ∧
    (∀ wl, wl ∈ wls →
       LogCorrections wl
         (RGB (norm_at ci tops ch_r wl) (norm_at ci tops ch_g wl)
              (norm_at ci tops ch_b wl))
         (reference_at refd wl)
         (RGB (factor_at refd ci tops ch_r wl) (factor_at refd ci tops ch_g wl)
              (factor_at refd ci tops ch_b wl))
       ∈ lines) ∧
    let st1 := with_stderr (stderr st ++ lines) st in
    fit_correction_curves ref st =
      match run_fits wls (λ chan, factor_at refd ci tops chan <$> wls) with
      | Ok polys =>
          let c := fitted_curves refd ci tops polys in
          (Ok c,
           with_stderr
             (stderr st1 ++
              [LogFitted (length wls);
               LogFinalCorrected (series_r (final_corrected c))
                 (series_g (final_corrected c)) (series_b (final_corrected c))])
             (with_correction_curves (Some c) st1))
      | Raise e => (Raise e, with_stderr (stderr st1 ++ [LogFitError e]) st1)
      end.
Proof.
  intros Hne ci wls refd.
  pose proof (wavelengths_of_nonempty _ Hne) as Hwls. fold ci wls in Hwls.
  destruct (max_list_nonempty _ (channel_list_nonempty ch_r ci wls Hwls)) as [tr Er].
  destruct (max_list_nonempty _ (channel_list_nonempty ch_g ci wls Hwls)) as [tg Eg].
  destruct (max_list_nonempty _ (channel_list_nonempty ch_b ci wls Hwls)) as [tb Eb].
  set (tops := RGB tr tg tb).
  set (ref_lines := if truthy ref then [LogProvidedReference]
                    else (λ wl, LogReference wl (ideal_reference wl)) <$> wls).
  set (rows := (λ wl, correction_row refd
             (wl, (norm_at ci tops ch_r wl,
                   (norm_at ci tops ch_g wl, norm_at ci tops ch_b wl)))) <$> wls).
  exists tops, ([LogFitting] ++ ref_lines ++ (corrections_line <$> rows)).
  split; [intros chan; now destruct chan|].
  split.
  { intros wl Hwl. rewrite !elem_of_app. right. right.
    apply list_elem_of_fmap.
    exists (correction_row refd
              (wl, (norm_at ci tops ch_r wl,
                    (norm_at ci tops ch_g wl, norm_at ci tops ch_b wl)))).
    split; [reflexivity|]. subst rows. apply list_elem_of_fmap. now exists wl. }
  destruct st as [d im hs h w cr br ri ci0 cc err]. cbn in ci, Hne. subst ci.
  unfold fit_correction_curves.
  cbn -[Py.sorted map_to_list channel_list correction_row truthy].
  rewrite bool_decide_eq_false_2 by assumption.
  fold (wavelengths_of ci0). fold wls.
  assert (Hchoice : ∀ (k : gmap Z (rgb Q) → M processor curves) s,
    bind (if truthy ref
          then bind (print LogProvidedReference) (λ _, ret (default ∅ ref))
          else bind (for_each wls (λ wl, print (LogReference wl (ideal_reference wl))))
                    (λ _, ret (ideal_reference_data wls))) k s
    = k refd (with_stderr (stderr s ++ ref_lines) s)).
  { intros k s. subst refd ref_lines. unfold chosen_reference.
    destruct (truthy ref).
    - destruct s; reflexivity.
    - cbn [bind]. rewrite for_each_print. destruct s; reflexivity. }
  rewrite Hchoice. cbn [bind call]. rewrite Er, Eg, Eb.
  change tr with (rgb_get ch_r tops). change tg with (rgb_get ch_g tops).
  change tb with (rgb_get ch_b tops).
  rewrite !normalized_eq. rewrite rows_eq. fold rows.
  change (λ row : Z * rgb Q * rgb Q * rgb Q, rgb_r row.2)
    with (λ row : Z * rgb Q * rgb Q * rgb Q, rgb_get ch_r row.2).
  change (λ row : Z * rgb Q * rgb Q * rgb Q, rgb_g row.2)
    with (λ row : Z * rgb Q * rgb Q * rgb Q, rgb_get ch_g row.2).
  change (λ row : Z * rgb Q * rgb Q * rgb Q, rgb_b row.2)
    with (λ row : Z * rgb Q * rgb Q * rgb Q, rgb_get ch_b row.2).
  subst rows. rewrite !corrections_eq.
  rewrite for_each_print. unfold run_fits, fitted_curves. fold wls.
  cbn [try_except bind call].
  repeat match goal with
    | |- context [polyfit ?a ?b] => destruct (polyfit a b)
    | |- context [UnivariateSpline ?a ?b] => destruct (UnivariateSpline a b)
    end.
  all: cbn; repeat (rewrite <- app_assoc; cbn [app]); reflexivity.
Qed.

(** What a successful fit computed. *)
Lemma fit_correction_curves_tops ref st c st' :
  fit_correction_curves ref st = (Ok c, st') →
  let ci := corrected_intensities st in
  let wls := wavelengths_of ci in
  let refd := chosen_reference ref wls in
  wls ≠ [] ∧
  ∃ tops polys,
    (∀ chan, max_list (channel_list chan ci wls) = Ok (rgb_get chan tops))
    ∧ run_fits wls (λ chan, factor_at refd ci tops chan <$> wls) = Ok polys
    ∧ c = fitted_curves refd ci tops polys.
Proof.
  intros Hfit ci wls refd.
  destruct (decide (ci = ∅)) as [Hempty|Hne].
  { rewrite fit_correction_curves_empty in Hfit by assumption. discriminate. }
  split; [now apply wavelengths_of_nonempty|].
  destruct (fit_correction_curves_normal ref st Hne)
    as (tops & lines & Htops & _ & E).
  cbn zeta in E. rewrite E in Hfit. clear E. fold ci wls refd in Hfit.
  destruct (run_fits _ _) as [polys|e] eqn:Hrun; [|discriminate].
  injection Hfit as <- _. now exists tops, polys.
Qed.

Lemma series_of_fitted refd ci tops polys chan :
  series_get chan (data_points (fitted_curves refd ci tops polys))
  = factor_at refd ci tops chan <$> wavelengths_of ci
  ∧ series_get chan (raw_normalized (fitted_curves refd ci tops polys))
    = norm_at ci tops chan <$> wavelengths_of ci
  ∧ series_get chan (final_corrected (fitted_curves refd ci tops polys))
    = zip_with Qmult (norm_at ci tops chan <$> wavelengths_of ci)
        (factor_at refd ci tops chan <$> wavelengths_of ci).
Proof. now destruct chan. Qed.

End FitFacts.

(** C4. The built-in reference is a step function of the wavelength:
    the red channel is 1.0 from 580 up, 0.3 on [530, 580), 0.1 on
    [490, 530) and 0.2 below 490; the green channel is 1.0 exactly at
    530; and a fit without reference data stores this function's value
    for every wavelength of the corrected intensities. *)
Theorem builtin_reference_step_function `{Vision} (wl : Z) :
  (580 ≤ wl → rgb_r (ideal_reference wl) = 1.0%Q)
  ∧ (530 ≤ wl < 580 → rgb_r (ideal_reference wl) = 0.3%Q)
  ∧ (490 ≤ wl < 530 → rgb_r (ideal_reference wl) = 0.1%Q)
  ∧ (wl < 490 → rgb_r (ideal_reference wl) = 0.2%Q)
  ∧ ((rgb_g (ideal_reference wl) == 1.0)%Q ↔ wl = 530)
  ∧ (∀ st c st',
       fit_correction_curves None st = (Ok c, st') →
       is_Some (corrected_intensities st !! wl) →
       reference_values c !! wl = Some (ideal_reference wl)).
Proof.
  unfold ideal_reference. cbn [rgb_r rgb_g].
  repeat split.
  - intros Hwl. now rewrite (proj2 (Z.leb_le 580 wl)).
  - intros [H1 H2]. rewrite (proj2 (Z.leb_gt 580 wl)) by assumption.
    now rewrite (proj2 (Z.leb_le 530 wl)).
  - intros [H1 H2]. rewrite (proj2 (Z.leb_gt 580 wl)) by lia.
    rewrite (proj2 (Z.leb_gt 530 wl)) by assumption.
    now rewrite (proj2 (Z.leb_le 490 wl)).
  - intros Hwl. rewrite (proj2 (Z.leb_gt 580 wl)) by lia.
    rewrite (proj2 (Z.leb_gt 530 wl)) by lia.
    now rewrite (proj2 (Z.leb_gt 490 wl)).
  - destruct (wl =? 530) eqn:E530; [intros _; now apply Z.eqb_eq|].
    destruct (bool_decide _); [discriminate|].
    destruct (wl =? 625); discriminate.
  - intros ->. reflexivity.
  - intros st c st' Hfit Hwl.
    destruct (fit_correction_curves_ok _ _ _ _ Hfit) as (_ & tops & polys & -> & _).
    cbn. apply ideal_reference_data_lookup. now apply wavelengths_of_elem.
Qed.

Lemma builtin_reference_step_function_witness :
  rgb_r (ideal_reference 530) = 0.3%Q
  ∧ reference_values (Synthetic.refit_curves None) !! 530
    = Some (ideal_reference 530).
Proof.
  pose proof (builtin_reference_step_function (H := Synthetic.camera) 530)
    as (_ & Hred & _ & _ & _ & Hfit).
  split.
  - apply Hred. lia.
  - apply (Hfit (Synthetic.calibrated Byte.x04) _ (Synthetic.refit None).2).
    + vm_compute. reflexivity.
    + vm_compute. eauto.
Defined.

(** C2. For every wavelength that has a corrected intensity, and
    every channel, the fit computes the factor
    max(0.1, min(10.0, reference / max(normalized, 0.01))), where
    normalized is the corrected intensity over the maximum of its
    channel (over 1 when that maximum is not positive): the loop prints
    it, whether the fit then succeeds or not, and a successful fit
    stores it at a position of its tables, with the wavelength and the
    normalized value.  The factor is reference / max(normalized, 0.01)
    clipped to [0.1, 10.0]: it lies in [0.1, 10.0] whatever the inputs,
    the divisor is positive, and a normalized value of 0 gives
    clip(reference / 0.01).  Every factor that is printed or stored
    has this form, and every stored row belongs to a wavelength of the
    corrected intensities. *)
Theorem correction_factors_clipped `{Vision}
    (ref : option (gmap Z (rgb Q))) (st : processor) (r : Res curves)
    (st' : processor) :
  fit_correction_curves ref st = (r, st') →
  let ci := corrected_intensities st in
  let wls := wavelengths_of ci in
  let refd := chosen_reference ref wls in
  ∃ tops lines,
    stderr st' = stderr st ++ lines
    ∧ (ci ≠ ∅ →
       ∀ chan, max_list (channel_list chan ci wls) = Ok (rgb_get chan tops))
    ∧ (∀ wl entry chan,
         ci !! wl = Some entry →
         let norm :=
           (rgb_get chan (channels entry) / divisor (rgb_get chan tops))%Q in
         let reference := rgb_get chan (reference_at refd wl) in
         let factor := correction_factor reference norm in
         (∃ norms refs corrs,
            LogCorrections wl norms refs corrs ∈ lines
            ∧ rgb_get chan norms = norm
            ∧ rgb_get chan refs = reference
            ∧ rgb_get chan corrs = factor)
         ∧ (∀ c, r = Ok c →
              ∃ i, series_wavelengths (data_points c) !! i = Some wl
                ∧ series_get chan (raw_normalized c) !! i = Some norm
                ∧ series_get chan (data_points c) !! i = Some factor
                ∧ reference_values c = refd)
         ∧ (factor == clip 0.1 10.0 (reference / Qmax norm 0.01)
            ∧ 0 < Qmax norm 0.01
            ∧ 0.1 <= factor ∧ factor <= 10.0
            ∧ (norm == 0 → factor == clip 0.1 10.0 (reference / 0.01)))%Q)
    ∧ (∀ wl norm reference corr chan,
         LogCorrections wl norm reference corr ∈ lines →
         rgb_get chan corr
         = correction_factor (rgb_get chan reference) (rgb_get chan norm)
         ∧ (0.1 <= rgb_get chan corr ∧ rgb_get chan corr <= 10.0)%Q)
    ∧ ∀ c i wl chan,
        r = Ok c →
        series_wavelengths (data_points c) !! i = Some wl →
        is_Some (ci !! wl)
        ∧ ∃ norm factor,
            series_get chan (raw_normalized c) !! i = Some norm
            ∧ series_get chan (data_points c) !! i = Some factor
            ∧ correction_curves st' = Some c
            ∧ let reference :=
                rgb_get chan (reference_at (reference_values c) wl) in
              factor = correction_factor reference norm
              ∧ (factor == clip 0.1 10.0 (reference / Qmax norm 0.01)
                 ∧ 0 < Qmax norm 0.01
                 ∧ 0.1 <= factor ∧ factor <= 10.0
                 ∧ (norm == 0 → factor == clip 0.1 10.0 (reference / 0.01)))%Q.
Proof.
  intros Hfit ci wls refd.
  destruct (fit_correction_curves_lines _ _ _ _ Hfit) as (lines & Hlog & Hok).
  assert (Hform : ∀ reference norm,
    (correction_factor reference norm
       == clip 0.1 10.0 (reference / Qmax norm 0.01)
     ∧ 0 < Qmax norm 0.01
     ∧ 0.1 <= correction_factor reference norm
     ∧ correction_factor reference norm <= 10.0
     ∧ (norm == 0 →
        correction_factor reference norm == clip 0.1 10.0 (reference / 0.01)))%Q).
  { intros reference norm.
    split; [apply correction_factor_clip|].
    split; [pose proof (Q.le_max_r norm 0.01); lra|].
    split; [apply correction_factor_bounds|].
    split; [apply correction_factor_bounds|].
    apply correction_factor_zero. }
  assert (Hprinted : ∀ wl norm reference corr chan,
    LogCorrections wl norm reference corr ∈ lines →
    rgb_get chan corr
    = correction_factor (rgb_get chan reference) (rgb_get chan norm)
    ∧ (0.1 <= rgb_get chan corr ∧ rgb_get chan corr <= 10.0)%Q).
  { intros wl norm reference corr chan Hin.
    rewrite Forall_forall in Hok. specialize (Hok _ Hin chan). cbn in Hok.
    rewrite Hok. split; [reflexivity | apply correction_factor_bounds]. }
  destruct (decide (ci = ∅)) as [Hempty|Hne].
  { exists (RGB 0 0 0)%Q, lines. split; [exact Hlog|].
    split; [contradiction|]. split.
    { intros wl entry chan Hentry. rewrite Hempty, lookup_empty in Hentry.
      discriminate. }
    split; [exact Hprinted|].
    intros c i wl chan ->.
    rewrite fit_correction_curves_empty in Hfit by assumption. discriminate. }
  destruct (fit_correction_curves_normal ref st Hne)
    as (tops & lines0 & Htops & Hrows & E).
  cbn zeta in E. fold ci wls refd in E, Htops, Hrows.
  assert (Hrun : (∃ tail, lines = lines0 ++ tail)
                 ∧ ∀ c, r = Ok c →
                     ∃ polys, c = fitted_curves refd ci tops polys).
  { rewrite E in Hfit.
    destruct (run_fits _ _) as [polys|e]; injection Hfit as <- <-; split.
    - destruct st; cbn in Hlog. rewrite <- app_assoc in Hlog.
      apply app_inv_head in Hlog. eauto.
    - intros c [= <-]. now exists polys.
    - destruct st; cbn in Hlog. rewrite <- app_assoc in Hlog.
      apply app_inv_head in Hlog. eauto.
    - discriminate. }
  destruct Hrun as [[tail ->] Hstored].
  exists tops, (lines0 ++ tail). split; [exact Hlog|].
  split; [intros _; exact Htops|]. split.
  { intros wl entry chan Hentry.
    assert (Hwl : wl ∈ wls) by (apply wavelengths_of_elem; eauto).
    assert (Hnorm : norm_at ci tops chan wl
                    = (rgb_get chan (channels entry)
                       / divisor (rgb_get chan tops))%Q).
    { unfold norm_at. now rewrite (lookup_total_correct _ _ _ Hentry). }
    cbn zeta. rewrite <- Hnorm. split; [|split].
    - eexists _, _, _. split.
      + apply elem_of_app. left. exact (Hrows wl Hwl).
      + now destruct chan.
    - intros c Hc. destruct (Hstored c Hc) as [polys ->].
      apply list_elem_of_lookup in Hwl as [i Hi]. exists i.
      destruct (series_of_fitted refd ci tops polys chan) as (-> & -> & _).
      split; [exact Hi|]. rewrite !list_lookup_fmap.
      fold wls. rewrite Hi. now repeat split.
    - apply Hform. }
  split; [exact Hprinted|].
  intros c i wl chan Hc Hwl.
  destruct (Hstored c Hc) as [polys ->]. subst r.
  destruct (fit_correction_curves_ok _ _ _ _ Hfit) as (_ & _ & _ & _ & Hcurves & _).
  change (series_wavelengths (data_points (fitted_curves refd ci tops polys)))
    with wls in Hwl.
  split.
  { apply wavelengths_of_elem, list_elem_of_lookup. now exists i. }
  exists (norm_at ci tops chan wl), (factor_at refd ci tops chan wl).
  destruct (series_of_fitted refd ci tops polys chan) as (-> & -> & _).
  fold wls. rewrite !list_lookup_fmap, Hwl.
  split; [reflexivity|]. split; [reflexivity|]. split; [exact Hcurves|].
  cbn zeta. change (reference_values (fitted_curves refd ci tops polys)) with refd.
  split; [reflexivity|]. apply Hform.
Qed.

Lemma correction_factors_clipped_witness :
  ∃ i norm factor,
    series_wavelengths (data_points (Synthetic.refit_curves None)) !! i
      = Some 490
    ∧ series_get ch_r (raw_normalized (Synthetic.refit_curves None)) !! i
      = Some norm
    ∧ series_get ch_r (data_points (Synthetic.refit_curves None)) !! i
      = Some factor
    ∧ (0.1 <= factor ∧ factor <= 10.0)%Q.
Proof.
  destruct (correction_factors_clipped (H := Synthetic.camera) None
              (Synthetic.calibrated Byte.x04)
              (Ok (Synthetic.refit_curves None)) (Synthetic.refit None).2)
    as (tops & lines & _ & _ & Hrows & _).
  - vm_compute. reflexivity.
  - destruct (Hrows 490 (Synthetic.reshadow_table !!! 490) ch_r)
      as (_ & Hstored & _ & _ & Hlo & Hhi & _).
    + vm_compute. reflexivity.
    + destruct (Hstored _ eq_refl) as (i & Hw & Hn & Hf & _).
      eexists i, _, _. eauto.
Defined.

(** ** Shadow correction *)

Lemma wavelength_table_injective name1 name2 wl :
  (name1, wl) ∈ COLOR_WAVELENGTHS → (name2, wl) ∈ COLOR_WAVELENGTHS →
  name1 = name2.
Proof.
  unfold COLOR_WAVELENGTHS. intros H1 H2. set_unfold.
  destruct H1 as [H1|[H1|[H1|[H1|[H1|[H1|[]]]]]]];
    destruct H2 as [H2|[H2|[H2|[H2|[H2|[H2|[]]]]]]]; simplify_eq; reflexivity.
Qed.

Lemma dict_functional {K V} (d : list (K * V)) k v1 v2 :
  NoDup d.*1 → (k, v1) ∈ d → (k, v2) ∈ d → v1 = v2.
Proof.
  induction d as [|[k' v'] d IH]; intros Hnodup H1 H2.
  - now apply elem_of_nil in H1.
  - cbn in Hnodup. apply NoDup_cons in Hnodup as [Hfresh Hnodup].
    apply elem_of_cons in H1 as [H1|H1]; apply elem_of_cons in H2 as [H2|H2].
    + congruence.
    + injection H1 as -> ->. exfalso. apply Hfresh.
      apply list_elem_of_fmap. now exists (k', v2).
    + injection H2 as -> ->. exfalso. apply Hfresh.
      apply list_elem_of_fmap. now exists (k', v1).
    + now apply IH.
Qed.

Lemma regions_ok_wavelengths regions :
  regions_ok regions → NoDup ((λ e, wavelength e.2) <$> regions).
Proof.
  intros [Hnodup Hall]. rewrite Forall_forall in Hall.
  apply NoDup_fmap_2_strong.
  - intros [n1 r1] [n2 r2] H1 H2 Hwl. cbn in Hwl.
    assert (n1 = n2) as ->.
    { apply (wavelength_table_injective n1 n2 (wavelength r1)).
      - now apply (Hall (n1, r1)).
      - rewrite Hwl. now apply (Hall (n2, r2)). }
    f_equal. now apply (dict_functional regions n2).
  - eapply NoDup_fmap_1. exact Hnodup.
Qed.

Lemma shadow_table_other base regions table wl :
  wl ∉ (λ e, wavelength e.2) <$> regions →
  shadow_table base regions table !! wl = table !! wl.
Proof.
  unfold shadow_table. revert table.
  induction regions as [|e regions IH]; intros table Hnot; [done|].
  cbn. rewrite IH.
  - apply lookup_insert_ne. intros Heq. apply Hnot. rewrite <- Heq. left.
  - intros Hin. apply Hnot. now right.
Qed.

Lemma shadow_table_lookup base regions table entry :
  NoDup ((λ e, wavelength e.2) <$> regions) → entry ∈ regions →
  shadow_table base regions table !! wavelength entry.2
  = Some (corrected_entry base entry).
Proof.
  revert table. induction regions as [|e regions IH]; intros table Hnodup Hin.
  - now apply elem_of_nil in Hin.
  - cbn in Hnodup. apply NoDup_cons in Hnodup as [Hfresh Hnodup].
    apply elem_of_cons in Hin as [->|Hin].
    + change (shadow_table base (e :: regions) table)
        with (shadow_table base regions
                (<[wavelength e.2 := corrected_entry base e]> table)).
      rewrite shadow_table_other by assumption. apply lookup_insert_eq.
    + now apply IH.
Qed.

Lemma subtract_baseline_spec (v : Z) (b : Q) :
  (subtract_baseline v (Some b) == Qmax 0 (inject_Z v - b)
   ∧ 0 <= subtract_baseline v (Some b))%Q
  ∧ ((inject_Z v == b)%Q → subtract_baseline v (Some b) = 0%Q).
Proof.
  unfold subtract_baseline. cbn. split.
  - rewrite py_max_Qmax. split; [reflexivity | apply Q.le_max_l].
  - intros Heq. unfold Py.max.
    rewrite (proj2 (Qltb_ge 0 (inject_Z v - b))); [reflexivity | lra].
Qed.

Lemma finite_nan (xs : list (option Q)) : None ∈ xs → Py.finite xs = None.
Proof.
  induction xs as [|[x|] xs IH]; intros Hin; cbn.
  - now apply elem_of_nil in Hin.
  - apply elem_of_cons in Hin as [Hin|Hin]; [discriminate|].
    now rewrite IH.
  - reflexivity.
Qed.

(** The mean of a list that holds a NaN is NaN. *)
Lemma np_mean_nan (xs : list (option Q)) : None ∈ xs → Py.np_mean xs = None.
Proof. intros Hin. unfold Py.np_mean. now rewrite finite_nan. Qed.

Lemma finite_inv (xs : list (option Q)) (l : list Q) :
  Py.finite xs = Some l → xs = Some <$> l.
Proof.
  revert l. induction xs as [|[x|] xs IH]; intros l Hl; cbn in Hl.
  - now injection Hl as <-.
  - destruct (Py.finite xs) as [l'|]; [|discriminate].
    injection Hl as <-. cbn. f_equal. now apply IH.
  - discriminate.
Qed.

Lemma finite_fmap (l : list Q) : Py.finite (Some <$> l) = Some l.
Proof. induction l as [|x l IH]; [reflexivity|]. cbn. now rewrite IH. Qed.

(** The mean of a list of numbers that is not empty is a number. *)
Lemma np_mean_finite (xs : list (option Q)) :
  xs ≠ [] → Forall is_Some xs → is_Some (Py.np_mean xs).
Proof.
  intros Hne Hall.
  assert (Hl : ∃ l, xs = Some <$> l).
  { clear Hne. induction Hall as [|x xs [v ->] _ [l ->]].
    - now exists [].
    - now exists (v :: l). }
  destruct Hl as [l ->]. unfold Py.np_mean. rewrite finite_fmap.
  destruct l; [done | eauto].
Qed.

(** C3. With four corner samples, the shadow corrector writes, for
    every detected region and channel, max(0, raw - baseline) at the
    region's wavelength, where the baseline is the mean of the four
    corner means; the value is nonnegative, and it is exactly zero
    when the raw value equals the baseline.  When a corner mean is NaN
    the baseline is NaN and the value written is 0. *)
Theorem shadow_correction_subtracts_baseline `{Vision}
    (st : processor) (c1 c2 c3 c4 : black_region)
    (table : gmap Z (intensity Q)) (st' : processor)
    (name : color) (region : color_region) (chan : channel) :
  (black_regions st).*2 = [c1; c2; c3; c4] →
  regions_ok (color_regions st) →
  perform_shadow_correction st = (Ok table, st') →
  (name, region) ∈ color_regions st →
  ∃ entry,
    table !! wavelength region = Some entry
    ∧ corrected_intensities st' = table
    ∧ of_color entry = name
    ∧ (∀ v1 v2 v3 v4 : Q,
         rgb_get chan (black_rgb c1) = Some v1 →
         rgb_get chan (black_rgb c2) = Some v2 →
         rgb_get chan (black_rgb c3) = Some v3 →
         rgb_get chan (black_rgb c4) = Some v4 →
         ∃ base,
           (base == (v1 + v2 + v3 + v4) / 4
            ∧ rgb_get chan (channels entry)
              == Qmax 0 (inject_Z (rgb_get chan (region_rgb region)) - base)
            ∧ 0 <= rgb_get chan (channels entry))%Q
           ∧ ((inject_Z (rgb_get chan (region_rgb region)) == base)%Q →
              rgb_get chan (channels entry) = 0%Q))
    ∧ (None ∈ [rgb_get chan (black_rgb c1); rgb_get chan (black_rgb c2);
               rgb_get chan (black_rgb c3); rgb_get chan (black_rgb c4)] →
       rgb_get chan (channels entry) = 0%Q).
Proof.
  intros Hcorners Hok Hrun Hin.
  destruct (perform_shadow_correction_total st) as (st1 & E & Htable & _).
  rewrite E in Hrun. injection Hrun as <- <-.
  pose proof (shadow_table_lookup (baseline_of (black_regions st))
                (color_regions st) (corrected_intensities st) (name, region)
                (regions_ok_wavelengths _ Hok) Hin) as Hlookup.
  rewrite <- Htable in Hlookup. cbn [snd] in Hlookup.
  assert (Hvalues : ∀ ch,
    (λ c, rgb_get ch (black_rgb c.2)) <$> black_regions st
    = [rgb_get ch (black_rgb c1); rgb_get ch (black_rgb c2);
       rgb_get ch (black_rgb c3); rgb_get ch (black_rgb c4)]).
  { intros ch.
    replace ((λ c, rgb_get ch (black_rgb c.2)) <$> black_regions st)
      with ((λ c, rgb_get ch (black_rgb c)) <$> (black_regions st).*2)
      by (now rewrite <- list_fmap_compose).
    now rewrite Hcorners. }
  assert (Hval : rgb_get chan
            (channels (corrected_entry (baseline_of (black_regions st)) (name, region)))
          = subtract_baseline (rgb_get chan (region_rgb region))
              (Py.np_mean [rgb_get chan (black_rgb c1); rgb_get chan (black_rgb c2);
                           rgb_get chan (black_rgb c3); rgb_get chan (black_rgb c4)])).
  { rewrite <- Hvalues. now destruct chan. }
  exists (corrected_entry (baseline_of (black_regions st)) (name, region)).
  split; [assumption|]. split; [reflexivity|]. split; [reflexivity|].
  rewrite Hval. split.
  - intros v1 v2 v3 v4 -> -> -> ->.
    exists ((v1 + (v2 + (v3 + (v4 + 0)))) / inject_Z 4)%Q.
    change (Py.np_mean [Some v1; Some v2; Some v3; Some v4])
      with (Some ((v1 + (v2 + (v3 + (v4 + 0)))) / inject_Z 4)%Q).
    destruct (subtract_baseline_spec (rgb_get chan (region_rgb region))
                ((v1 + (v2 + (v3 + (v4 + 0)))) / inject_Z 4)%Q)
      as [[Hmax Hpos] Hzero].
    split; [|exact Hzero]. split; [field|]. split; assumption.
  - intros Hnan. now rewrite (np_mean_nan _ Hnan).
Qed.

Lemma shadow_correction_subtracts_baseline_witness :
  ∃ entry base,
    Synthetic.reshadow_table !! wavelength (Synthetic.chart_region 0).2
      = Some entry
    ∧ (rgb_get ch_r (channels entry)
       == Qmax 0 (inject_Z (rgb_get ch_r (region_rgb (Synthetic.chart_region 0).2))
                  - base))%Q.
Proof.
  destruct (shadow_correction_subtracts_baseline (H := Synthetic.camera)
              (Synthetic.calibrated Byte.x04)
              (Synthetic.corner_sample 0) (Synthetic.corner_sample 1)
              (Synthetic.corner_sample 2) (Synthetic.corner_sample 3)
              Synthetic.reshadow_table Synthetic.reshadow.2
              (Synthetic.chart_region 0).1 (Synthetic.chart_region 0).2 ch_r)
    as (entry & Hentry & _ & _ & Hvalue & _).
  - vm_compute. reflexivity.
  - apply (bool_decide_unpack _). vm_compute. exact I.
  - vm_compute. reflexivity.
  - apply list_elem_of_lookup. exists 0%nat. vm_compute. reflexivity.
  - destruct (Hvalue 9.5 9.5 9.5 9.5)%Q as (base & (_ & Hmax & _) & _);
      try (vm_compute; reflexivity).
    exists entry, base. auto.
Defined.

(** ** The pipeline *)

Section Pipeline.
Context `{Vision}.

#[local] Arguments bind {S A B} m k st /.
#[local] Arguments ret {S A} a st /.
#[local] Arguments raise {S A} e st /.
#[local] Arguments try_except {S A} body handler st /.
#[local] Arguments gets {S A} f st /.
#[local] Arguments modify {S} f st /.
#[local] Arguments call {S A} r st /.
#[local] Arguments print {_} l st /.
#[local] Arguments load_image : simpl never.
#[local] Arguments extract_color_regions : simpl never.
#[local] Arguments extract_black_corners : simpl never.
#[local] Arguments calculate_baseline : simpl never.
#[local] Arguments perform_shadow_correction : simpl never.
#[local] Arguments fit_correction_curves : simpl never.

Lemma print_no_calibration l st :
  calibration_line l = false →
  no_calibration st (with_stderr (stderr st ++ [l]) st).
Proof.
  intros Hl. destruct st; repeat split. cbn.
  rewrite filter_app. cbn. rewrite Hl. apply app_nil_r.
Qed.

(** The run after the detector, in full mode with enough colours. *)
Lemma process_after_detection now st st1 st2 :
  load_image st = (Ok true, st1) →
  extract_color_regions st1 = (Ok true, st2) →
  image_loaded st2 →
  ∃ st3 table st4,
    extract_black_corners st2 = (Ok true, st3)
    ∧ perform_shadow_correction st3 = (Ok table, st4)
    ∧ match fit_correction_curves None st4 with
      | (Ok c, st5) =>
          ∃ record st6,
            process false now st = (Ok (Complete record), st6)
            ∧ timestamp record = now
            ∧ calibration_correction_curves record = Some c
            ∧ calibration_color_regions record = color_regions st2
            ∧ num_colors_detected (calibration_statistics record)
              = length (color_regions st2)
            ∧ correction_curves st6 = Some c
      | (Raise e, st5) =>
          process false now st
          = (Ok (Failure ("Failed to fit correction curves: " +:+ str e)), st5)
      end.
Proof.
  intros Hload Hextract [Himg _].
  destruct (extract_black_corners_total st2 Himg)
    as (st3 & E3 & Hcr3 & _).
  destruct (perform_shadow_correction_total st3)
    as (st4 & E4 & _ & Hcr4 & _).
  exists st3, (corrected_intensities st4), st4.
  split; [exact E3|]. split; [exact E4|].
  unfold process. cbn [bind]. rewrite Hload. cbn [negb bind].
  rewrite Hextract. cbn [bind gets andb negb]. rewrite E3. cbn [negb bind].
  rewrite E4. cbn [bind try_except].
  destruct (fit_correction_curves None st4) as [[c|e] st5] eqn:E5.
  - destruct (fit_correction_curves_ok _ _ _ _ E5)
      as (_ & tops & polys & _ & Hcurves & _ & Hcr5 & _).
    cbn [bind ret gets]. rewrite !calculate_baseline_eq. cbn [bind gets ret print modify].
    eexists _, _. split; [reflexivity|].
    unfold convert_to_json_serializable. cbn.
    destruct st5; cbn in *. repeat split; congruence.
  - reflexivity.
Qed.

(** C1. For a loaded image in full mode the number of detected regions
    decides the outcome: none gives the failure for no colours, one to
    three give a successful analysis-only result with the detected
    regions and no calibration stage, and four or more go through corner
    extraction, shadow correction and curve fitting. *)
Theorem process_outcome_by_region_count (now : string) (st st1 : processor) :
  load_image st = (Ok true, st1) →
  ∃ has st2,
    extract_color_regions st1 = (Ok has, st2)
    ∧ let n := length (color_regions st2) in
      (n = 0%nat →
         ∃ r st3, process false now st = (Ok r, st3)
           ∧ r = Failure no_colors_error ∧ success r = false
           ∧ no_calibration st st3)
      ∧ ((1 ≤ n ≤ 3)%nat →
         ∃ r message st3, process false now st = (Ok r, st3)
           ∧ r = AnalysisOnly (color_regions st2) n message
           ∧ success r = true ∧ mode r = Some "analysis_only"
           ∧ no_calibration st st3)
      ∧ ((4 ≤ n)%nat →
         ∃ st3 table st4,
           extract_black_corners st2 = (Ok true, st3)
           ∧ perform_shadow_correction st3 = (Ok table, st4)
           ∧ match fit_correction_curves None st4 with
             | (Ok c, st5) =>
                 ∃ record st6,
                   process false now st = (Ok (Complete record), st6)
                   ∧ timestamp record = now
                   ∧ calibration_correction_curves record = Some c
                   ∧ calibration_color_regions record = color_regions st2
                   ∧ num_colors_detected (calibration_statistics record) = n
                   ∧ correction_curves st6 = Some c
             | (Raise e, st5) =>
                 process false now st
                 = (Ok (Failure ("Failed to fit correction curves: " +:+ str e)),
                    st5)
             end).
Proof.
  intros Hload.
  destruct (load_image_total st) as (ok & st1' & E1 & N1 & _ & Hloaded).
  rewrite Hload in E1. injection E1 as <- <-.
  destruct (extract_color_regions_total st1 (Hloaded eq_refl))
    as (st2 & E2 & L2 & N2 & _).
  eexists _, st2. split; [exact E2|]. cbn zeta.
  pose proof (no_calibration_trans _ _ _ N1 N2) as N12.
  split; [|split].
  - intros Hn. rewrite Hn in E2.
    unfold process. cbn [bind]. rewrite Hload. cbn [negb bind]. rewrite E2.
    cbn [bind gets andb negb]. rewrite Hn. cbn.
    eexists _, _. split; [reflexivity|]. repeat split.
    all: apply (no_calibration_trans _ _ _ N12 (print_no_calibration LogNoColors st2 eq_refl)).
  - intros Hn. rewrite bool_decide_eq_false_2 in E2 by lia.
    unfold process. cbn [bind]. rewrite Hload. cbn [negb bind]. rewrite E2.
    cbn [bind gets andb negb]. rewrite bool_decide_eq_true_2 by lia.
    cbn [bind print modify gets ret].
    eexists _, _, _. split; [reflexivity|].
    assert (Hcr : ∀ l, color_regions (with_stderr l st2) = color_regions st2)
      by now destruct st2.
    rewrite Hcr. repeat split.
    all: apply (no_calibration_trans _ _ _ N12
                  (print_no_calibration (LogOnlyFew _) st2 eq_refl)).
  - intros Hn. rewrite bool_decide_eq_true_2 in E2 by lia.
    apply (process_after_detection now st st1 st2 Hload E2 L2).
Qed.

(** C6, as the code has it. With [force_analysis] the run never
    reaches a calibration stage and never returns a calibration; it
    returns the analysis-only result, with the regions and their count,
    whenever the image loads and at least one region is detected, also
    with four or more; with no region it returns the failure for no
    colours, and with an undecodable image the load failure. *)
Theorem force_analysis_never_calibrates (now : string) (st : processor) :
  ∃ r st',
    process true now st = (Ok r, st')
    ∧ no_calibration st st'
    ∧ match r with
      | AnalysisOnly regions count message =>
          regions = color_regions st' ∧ count = length regions
          ∧ (0 < count)%nat
          ∧ message
            = "Analysis mode: detected " +:+ pretty count +:+ " color region(s)"
      | Failure error =>
          error = "Failed to load image"
          ∨ (error = no_colors_error ∧ color_regions st' = [])
      | Complete _ => False
      end
    ∧ (∀ st1 has st2,
         load_image st = (Ok true, st1) →
         extract_color_regions st1 = (Ok has, st2) →
         color_regions st2 ≠ [] →
         ∃ message,
           r = AnalysisOnly (color_regions st2) (length (color_regions st2))
                 message).
Proof.
  destruct (load_image_total st) as (ok & st1 & E1 & N1 & _ & Hloaded).
  unfold process. cbn [bind]. rewrite E1. destruct ok; cbn [negb bind ret].
  2:{ eexists _, _. split; [reflexivity|]. split; [exact N1|].
      split; [now left|]. intros ? ? ? [=]. }
  destruct (extract_color_regions_total st1 (Hloaded eq_refl))
    as (st2 & E2 & L2 & N2 & _).
  pose proof (no_calibration_trans _ _ _ N1 N2) as N12.
  rewrite E2. cbn [bind gets andb].
  assert (Hcr : ∀ l, color_regions (with_stderr l st2) = color_regions st2)
    by now destruct st2.
  destruct (color_regions st2) as [|entry regions] eqn:Hregions.
  - cbn. eexists _, _. split; [reflexivity|]. rewrite ?Hcr, ?Hregions.
    split.
    { apply (no_calibration_trans _ _ _ N12
               (print_no_calibration LogNoColors st2 eq_refl)). }
    split; [now right|].
    intros st1' has st2' Hl E2' Hne. injection Hl as Hl. subst st1'.
    rewrite E2 in E2'.
    injection E2' as _ <-. congruence.
  - rewrite bool_decide_eq_true_2 by (cbn; lia).
    cbn [bind print modify gets ret].
    eexists _, _. split; [reflexivity|]. rewrite ?Hcr, ?Hregions.
    split.
    { apply (no_calibration_trans _ _ _ N12
               (print_no_calibration (LogForceAnalysis _) st2 eq_refl)). }
    split; [repeat split; cbn; lia|].
    intros st1' has st2' Hl E2' Hne. injection Hl as Hl. subst st1'.
    rewrite E2 in E2'.
    injection E2' as _ <-. rewrite Hregions. eauto.
Qed.

(** In a run from a new processor the shadow corrector finds
    well-formed regions and four corner samples. *)
Lemma shadow_preconditions_in_pipeline data st1 has st2 st3 :
  load_image (init data) = (Ok true, st1) →
  extract_color_regions st1 = (Ok has, st2) →
  extract_black_corners st2 = (Ok true, st3) →
  regions_ok (color_regions st3)
  ∧ ∃ c1 c2 c3 c4, (black_regions st3).*2 = [c1; c2; c3; c4].
Proof.
  intros Hload Hextract Hcorners.
  destruct (load_image_total (init data))
    as (ok & st1' & E1 & (B1 & _) & C1 & Hloaded).
  rewrite Hload in E1. injection E1 as <- <-.
  destruct (extract_color_regions_total st1 (Hloaded eq_refl))
    as (st2' & E2 & L2 & (B2 & _) & _ & K2).
  rewrite Hextract in E2. injection E2 as _ <-.
  destruct (extract_black_corners_total st2 (proj1 L2))
    as (st3' & E3 & C3 & _ & _ & _ & _ & _ & Hkeys).
  rewrite Hcorners in E3. injection E3 as <-.
  split.
  - rewrite C3. apply K2. rewrite C1. split; [apply NoDup_nil_2 | constructor].
  - assert (Hfour : (black_regions st3).*1
                    = [top_left; top_right; bottom_left; bottom_right]).
    { apply Hkeys. now rewrite B2, B1. }
    apply (f_equal length) in Hfour. rewrite length_fmap in Hfour.
    destruct (black_regions st3) as [|[? c1] [|[? c2] [|[? c3] [|[? c4] [|]]]]];
      try discriminate.
    now exists c1, c2, c3, c4.
Qed.

(** C7, as the code has it. The shadow corrector has no check of its
    own and never raises: in every state it returns the table of
    corrected intensities, unchanged when there is no colour region.
    The error for the missing stage is raised by the fitter, when it
    finds the table empty. *)
Theorem shadow_correction_has_no_guard (st : processor) :
  ∃ table st',
    perform_shadow_correction st = (Ok table, st')
    ∧ table = corrected_intensities st'
    ∧ (color_regions st = [] → table = corrected_intensities st)
    ∧ (table = ∅ →
       ∀ ref, ∃ st'',
         fit_correction_curves ref st'
         = (Raise (ValueError "Must perform shadow correction first"), st'')).
Proof.
  destruct (perform_shadow_correction_total st) as (st' & E & Htable & _).
  exists (corrected_intensities st'), st'.
  split; [exact E|]. split; [reflexivity|]. rewrite Htable.
  split.
  - now intros ->.
  - intros Hempty ref. rewrite <- Htable in Hempty.
    rewrite fit_correction_curves_empty by assumption. eauto.
Qed.

(** C8. For each of the channels, [apply_correction_to_value] raises
    exactly when no curves are fitted; with fitted curves it returns the
    value times the channel's polynomial at the wavelength, by Horner's
    rule, and leaves the processor as it was. *)
Theorem apply_correction_to_value_spec
    (st : processor) (wl : Q) (chan : channel) (value : Q) :
  ((∃ e st',
      apply_correction_to_value wl (channel_key chan) value st = (Raise e, st'))
   ↔ correction_curves st = None)
  ∧ (correction_curves st = None →
     apply_correction_to_value wl (channel_key chan) value st
     = (Raise (ValueError "Correction curves not fitted yet"), st))
  ∧ (∀ c, correction_curves st = Some c →
     apply_correction_to_value wl (channel_key chan) value st
     = (Ok (value * Py.np_polyval (rgb_get chan (polynomial c)) wl)%Q, st))
  ∧ (∀ a3 a2 a1 a0 : Q,
       Py.np_polyval [a3; a2; a1; a0] wl
       == a3 * wl ^ 3 + a2 * wl ^ 2 + a1 * wl + a0)%Q.
Proof.
  unfold apply_correction_to_value. cbn [bind gets].
  assert (Hkey : ∀ v : rgb (list Q),
            rgb_lookup (channel_key chan) v = Some (rgb_get chan v))
    by (intros v; now destruct chan).
  destruct (correction_curves st) as [c|] eqn:Hcurves; cbn [ret raise].
  - rewrite Hkey. cbn [ret].
    split; [split; [intros (e & st' & [=]) | discriminate]|].
    split; [discriminate|].
    split; [now intros c' [= <-]|].
    intros. unfold Py.np_polyval. cbn. ring.
  - split; [split; [reflexivity | eauto]|].
    split; [reflexivity|].
    split; [discriminate|].
    intros. unfold Py.np_polyval. cbn. ring.
Qed.

(** An empty reference dictionary counts as none. *)
Lemma empty_reference_is_builtin st :
  fit_correction_curves (Some ∅) st = fit_correction_curves None st.
Proof. reflexivity. Qed.

(** C10, as the code has it. When the caller's reference data is not
    empty and has no entry for a wavelength of the corrected
    intensities, the fitter uses 1.0 for every channel there, so the
    factor is clip(1.0 / max(normalized, 0.01)); the caller's data is
    stored as given. *)
Theorem missing_reference_defaults_to_one
    (m : gmap Z (rgb Q)) (st : processor) (c : curves) (st' : processor)
    (i : nat) (wl : Z) (chan : channel) :
  m ≠ ∅ → m !! wl = None →
  fit_correction_curves (Some m) st = (Ok c, st') →
  series_wavelengths (data_points c) !! i = Some wl →
  reference_values c = m
  ∧ ∃ norm factor,
      series_get chan (raw_normalized c) !! i = Some norm
      ∧ series_get chan (data_points c) !! i = Some factor
      ∧ factor = correction_factor 1.0 norm
      ∧ (factor == clip 0.1 10.0 (1.0 / Qmax norm 0.01))%Q.
Proof.
  intros Hne Hmissing Hfit Hwl.
  destruct (fit_correction_curves_ok _ _ _ _ Hfit)
    as (_ & tops & polys & -> & _).
  assert (Hchosen : ∀ wls, chosen_reference (Some m) wls = m).
  { intros wls. unfold chosen_reference, truthy.
    now rewrite bool_decide_eq_false_2. }
  rewrite Hchosen in *. cbn in Hwl. split; [reflexivity|].
  exists (norm_at (corrected_intensities st) tops chan wl),
         (factor_at m (corrected_intensities st) tops chan wl).
  split; [destruct chan; cbn; now rewrite list_lookup_fmap, Hwl|].
  split; [destruct chan; cbn; now rewrite list_lookup_fmap, Hwl|].
  assert (Hone : rgb_get chan (reference_at m wl) = 1.0%Q).
  { unfold reference_at. rewrite Hmissing. now destruct chan. }
  unfold factor_at. rewrite Hone. split; [reflexivity|].
  apply correction_factor_clip.
Qed.
End Pipeline.

(** ** Runs on the synthetic camera *)

Lemma process_outcome_by_region_count_witness :
  ∃ regions message st',
    process (H := Synthetic.camera) false "2025-10-24T12:00:00"
      (init [Byte.x03]) = (Ok (AnalysisOnly regions 3 message), st').
Proof.
  destruct (process_outcome_by_region_count (H := Synthetic.camera)
              "2025-10-24T12:00:00" (init [Byte.x03])
              (load_image (H := Synthetic.camera) (init [Byte.x03])).2)
    as (has & st2 & E & _ & Hfew & _).
  - vm_compute. reflexivity.
  - vm_compute in E. injection E as <- <-.
    destruct Hfew as (r & message & st3 & Hrun & -> & _).
    + vm_compute. lia.
    + eexists _, message, st3. exact Hrun.
Defined.

Lemma missing_reference_defaults_to_one_witness :
  reference_values (Synthetic.refit_curves (Some Synthetic.red_only))
  = Synthetic.red_only
  ∧ ∃ norm factor,
      series_get ch_g
        (raw_normalized (Synthetic.refit_curves (Some Synthetic.red_only)))
        !! 0%nat = Some norm
      ∧ series_get ch_g
          (data_points (Synthetic.refit_curves (Some Synthetic.red_only)))
          !! 0%nat = Some factor
      ∧ factor = correction_factor 1.0 norm.
Proof.
  destruct (missing_reference_defaults_to_one (H := Synthetic.camera)
              Synthetic.red_only (Synthetic.calibrated Byte.x04)
              (Synthetic.refit_curves (Some Synthetic.red_only))
              (Synthetic.refit (Some Synthetic.red_only)).2 0 490 ch_g)
    as (Hstored & norm & factor & Hn & Hf & Heq & _).
  - intros Hempty. apply (f_equal (λ m, m !! 625)) in Hempty.
    vm_compute in Hempty. discriminate.
  - vm_compute. reflexivity.
  - vm_compute. reflexivity.
  - vm_compute. reflexivity.
  - split; [exact Hstored|]. exists norm, factor. auto.
Defined.


(** C6 as stated fails: with [force_analysis] and an image in which
    no colour is detected, the run returns the failure for no colours,
    not an analysis-only result. *)
Lemma force_analysis_without_regions :
  (load_image (H := Synthetic.camera) (init [Byte.x00])).1 = Ok true
  ∧ (process (H := Synthetic.camera) true "2025-10-24T12:00:00"
       (init [Byte.x00])).1
    = Ok (Failure no_colors_error).
Proof. split; vm_compute; reflexivity. Qed.

(** C7 as stated fails: on a new processor, with no colour region and
    no corner sample, the shadow corrector returns the empty table. *)
Lemma shadow_correction_on_new_processor :
  color_regions (H := Synthetic.camera) (init []) = []
  ∧ black_regions (H := Synthetic.camera) (init []) = []
  ∧ (perform_shadow_correction (H := Synthetic.camera) (init [])).1 = Ok ∅.
Proof. repeat split. Qed.

(** C10 as stated fails: with the empty dictionary as reference data,
    an entry is missing for 530 nm, and the fitter uses the built-in
    reference there (0.3 for red), not 1.0. *)
Lemma empty_reference_counterexample :
  (∅ : gmap Z (rgb Q)) !! 530 = None
  ∧ series_wavelengths (data_points (Synthetic.refit_curves (Some ∅))) !! 1%nat
    = Some 530
  ∧ (Synthetic.refit (Some ∅)).1 = Ok (Synthetic.refit_curves (Some ∅))
  ∧ reference_values (Synthetic.refit_curves (Some ∅)) !! 530
    = Some (ideal_reference 530)
  ∧ ∃ norm factor,
      series_r (raw_normalized (Synthetic.refit_curves (Some ∅))) !! 1%nat
        = Some norm
      ∧ series_r (data_points (Synthetic.refit_curves (Some ∅))) !! 1%nat
        = Some factor
      ∧ ¬ (factor == correction_factor 1.0 norm)%Q.
Proof.
  split; [reflexivity|].
  split; [vm_compute; reflexivity|].
  split; [vm_compute; reflexivity|].
  split; [vm_compute; reflexivity|].
  eexists _, _.
  split; [vm_compute; reflexivity|].
  split; [vm_compute; reflexivity|].
  vm_compute. discriminate.
Qed.

(** ** Further properties of the stages *)

Section Stages.
Context `{Vision}.

#[local] Arguments bind {S A B} m k st /.
#[local] Arguments ret {S A} a st /.
#[local] Arguments raise {S A} e st /.
#[local] Arguments try_except {S A} body handler st /.
#[local] Arguments gets {S A} f st /.
#[local] Arguments modify {S} f st /.
#[local] Arguments call {S A} r st /.
#[local] Arguments print {_} l st /.
#[local] Arguments loaded {_} field st /.
#[local] Arguments load_image : simpl never.
#[local] Arguments extract_color_regions : simpl never.
#[local] Arguments extract_black_corners : simpl never.
#[local] Arguments calculate_baseline : simpl never.
#[local] Arguments perform_shadow_correction : simpl never.
#[local] Arguments fit_correction_curves : simpl never.

(** [load_image] never raises: it returns [True] exactly when the
    bytes decode to an image and the conversion to HSV succeeds, and
    then the image, its HSV form and its size are stored; every other
    outcome, an exception of the library included, is [False]. *)
Theorem load_image_outcome (st : processor) :
  ∃ ok st',
    load_image st = (Ok ok, st')
    ∧ color_regions st' = color_regions st
    ∧ (ok = true ↔
       ∃ img hsv, imdecode (image_data st) = Ok (Some img)
                  ∧ cvtColor_BGR2HSV img = Ok hsv)
    ∧ (ok = true →
       ∃ img hsv, image st' = Some img ∧ hsv_image st' = Some hsv
                  ∧ imdecode (image_data st) = Ok (Some img)
                  ∧ cvtColor_BGR2HSV img = Ok hsv
                  ∧ shape img = (height st', width st'))
    ∧ (imdecode (image_data st) = Ok None → ok = false ∧ image st' = None).
Proof.
  destruct st as [d im hs h w cr br ri ci cc err].
  unfold load_image. cbn.
  destruct (imdecode d) as [[img|]|e] eqn:Hdecode; cbn.
  - destruct (shape img) as [hh ww] eqn:Hshape; cbn.
    destruct (cvtColor_BGR2HSV img) as [hsv|e] eqn:Hhsv; cbn.
    + eexists _, _. split; [reflexivity|]. cbn.
      split; [reflexivity|]. split; [split; eauto|].
      split; [eauto 10 | discriminate].
    + eexists _, _. split; [reflexivity|]. cbn.
      split; [reflexivity|]. split.
      { split; [discriminate|]. intros (i & hsv & [= <-] & Hc). congruence. }
      split; discriminate.
  - eexists _, _. split; [reflexivity|]. cbn.
    split; [reflexivity|]. split.
    { split; [discriminate|]. intros (i & hsv & [=] & _). }
    split; [discriminate | auto].
  - eexists _, _. split; [reflexivity|]. cbn.
    split; [reflexivity|]. split.
    { split; [discriminate|]. intros (i & hsv & [=] & _). }
    split; discriminate.
Qed.


(** A loop keeps what each round keeps, whatever its outcome. *)
Lemma for_each_invariant {A} (I : processor → Prop) (xs : list A)
    (body : A → M processor unit) :
  (∀ x st r st', x ∈ xs → I st → body x st = (r, st') → I st') →
  ∀ st r st', I st → for_each xs body st = (r, st') → I st'.
Proof.
  induction xs as [|x xs IH]; intros Hbody st r st' Hst Hrun.
  - cbn in Hrun. injection Hrun as _ <-. exact Hst.
  - cbn [for_each bind] in Hrun.
    destruct (body x st) as [[[]|e] st1] eqn:E1.
    + apply (IH (λ y s r' s' Hy, Hbody y s r' s' (list_elem_of_further _ _ _ Hy))
               st1 r st'); [|exact Hrun].
      apply (Hbody x st (Ok tt) st1); [left | exact Hst | exact E1].
    + injection Hrun as _ <-.
      apply (Hbody x st (Raise e) st1); [left | exact Hst | exact E1].
Qed.

Lemma int_lower_bound (q : Q) : Py.Qltb q 100 = false → 100 ≤ Py.int q.
Proof.
  intros Hq. apply Qltb_ge in Hq. unfold Py.int.
  apply Z.quot_le_lower_bound; [reflexivity|].
  unfold Qle in Hq. cbn in Hq. lia.
Qed.

(** One round of the detector either leaves the regions as they are or
    sets the entry of its colour, to a region of the round's wavelength
    and of area 100 at least. *)
Lemma extract_color_region_writes name wl st r st' :
  extract_color_region name wl st = (r, st') →
  color_regions st' = color_regions st
  ∨ ∃ region,
      color_regions st' = dict_set name region (color_regions st)
      ∧ wavelength region = wl ∧ 100 ≤ area region.
Proof.
  destruct st as [d im hs h w cr br ri ci cc err].
  unfold extract_color_region, _create_color_mask. cbn.
  destruct hs as [hsv|]; cbn; [|intros [= _ <-]; now left].
  destruct name; cbn.
  all: destruct (countNonZero _ <? 100); [intros [= _ <-]; now left|].
  all: destruct (findContours _) as [|c cs]; [intros [= _ <-]; now left|].
  all: destruct (Py.Qltb _ 100) eqn:Harea; [intros [= _ <-]; now left|].
  all: destruct (boundingRect _) as [x y ww hh]; cbn.
  all: destruct im as [img|]; cbn; [|intros [= _ <-]; now left].
  all: destruct (mean_in_contour _ _) as [[b g] rr]; cbn.
  all: intros [= _ <-]; right; eexists; cbn.
  all: split; [reflexivity|]; split; [reflexivity|].
  all: now apply int_lower_bound.
Qed.

(** Regions of area 100 at least. *)
Lemma large_regions_set name region regions :
  100 ≤ area region →
  Forall (λ e : color * color_region, 100 ≤ area e.2) regions →
  Forall (λ e : color * color_region, 100 ≤ area e.2)
         (dict_set name region regions).
Proof.
  intros Hregion Hall. rewrite Forall_forall in Hall.
  apply Forall_forall. intros [n r] Hin.
  apply dict_set_elem in Hin as [[= -> ->]|Hin]; [exact Hregion|].
  now apply (Hall (n, r)).
Qed.

Lemma colors_at_most_six (names : list color) :
  NoDup names → (length names ≤ 6)%nat.
Proof.
  intros Hnodup.
  change 6%nat with (length [red; yellow; green; cyan; blue; magenta]).
  apply submseteq_length, NoDup_submseteq; [exact Hnodup|].
  intros []; set_solver.
Qed.

(** The detector keeps the table of regions well-formed: at most one
    region per colour, so at most six, each with the wavelength of its
    colour and an area of 100 at least.  No colour recorded before is
    lost: the colours of the table before the call are the first
    colours of the table after it, in the same order, and new colours
    come after them.  The return value says whether there are four or
    more. *)
Theorem extract_color_regions_invariants (st : processor)
    (r : Res bool) (st' : processor) :
  regions_ok (color_regions st) →
  Forall (λ e, 100 ≤ area e.2) (color_regions st) →
  extract_color_regions st = (r, st') →
  regions_ok (color_regions st')
  ∧ Forall (λ e, 100 ≤ area e.2) (color_regions st')
  ∧ (length (color_regions st') ≤ 6)%nat
  ∧ (length (color_regions st) ≤ length (color_regions st'))%nat
  ∧ (color_regions st).*1 `prefix_of` (color_regions st').*1
  ∧ (∀ name, name ∈ (color_regions st).*1 → name ∈ (color_regions st').*1)
  ∧ ∀ found, r = Ok found →
      found = bool_decide (4 ≤ length (color_regions st'))%nat.
Proof.
  intros Hok Hlarge Hrun. unfold extract_color_regions in Hrun.
  cbn [bind print modify] in Hrun.
  set (st0 := with_stderr (stderr st ++ [LogExtractingColors]) st) in Hrun.
  set (I := λ s : processor,
         regions_ok (color_regions s)
         ∧ Forall (λ e, 100 ≤ area e.2) (color_regions s)
         ∧ (color_regions st).*1 `prefix_of` (color_regions s).*1).
  assert (I0 : I st0) by (subst st0 I; destruct st; cbn in *; auto).
  destruct (for_each COLOR_WAVELENGTHS _ st0) as [r1 st1] eqn:Hloop.
  assert (I1 : I st1).
  { refine (for_each_invariant I COLOR_WAVELENGTHS
              (λ '(color_name, wl), extract_color_region color_name wl)
              _ st0 r1 st1 I0 Hloop).
    intros [name wl] s r' s' Hin (K1 & K2 & K3) Hbody. unfold I.
    destruct (extract_color_region_writes _ _ _ _ _ Hbody)
      as [->|(region & -> & Hwl & Harea)]; [exact (conj K1 (conj K2 K3))|].
    split; [now apply (regions_ok_set _ wl)|].
    split; [now apply large_regions_set|].
    rewrite dict_set_keys.
    destruct (decide (name ∈ (color_regions s).*1)); [exact K3|].
    now apply prefix_app_r. }
  destruct I1 as (K1 & K2 & K3).
  assert (Hsix : (length (color_regions st1) ≤ 6)%nat).
  { rewrite <- (length_fmap fst). apply colors_at_most_six, K1. }
  assert (Hlength : (length (color_regions st) ≤ length (color_regions st1))%nat).
  { rewrite <- !(length_fmap fst). now apply prefix_length. }
  assert (Hkept : ∀ name, name ∈ (color_regions st).*1 →
                          name ∈ (color_regions st1).*1).
  { intros name Hin. destruct K3 as [k ->]. apply elem_of_app. now left. }
  destruct r1 as [[]|e]; cbn in Hrun; injection Hrun as <- <-.
  - destruct st1; cbn in *. split; [exact K1|]. repeat split; try assumption.
    now intros found [= <-].
  - split; [exact K1|]. repeat split; try assumption. discriminate.
Qed.

(** Before an image is loaded the detector raises and records no
    region. *)
Theorem extract_color_regions_needs_image (st : processor) :
  hsv_image st = None →
  ∃ e st', extract_color_regions st = (Raise e, st')
    ∧ color_regions st' = color_regions st.
Proof.
  intros Hnone. destruct st as [d im hs h w cr br ri ci cc err].
  cbn in Hnone. subst hs. eexists _, _. split; reflexivity.
Qed.


(** The four corner rectangles. On a processor with no corner sample
    yet, or with the four of an earlier call, [extract_black_corners]
    leaves exactly four samples, in the order of the code; each
    rectangle is a tenth of the width by a tenth of the height, lies
    inside the image, and the left ones end before the right ones
    begin, the top ones before the bottom ones. *)
Theorem extract_black_corners_geometry (st : processor) :
  is_Some (image st) →
  (black_regions st).*1 = []
  ∨ (black_regions st).*1 = [top_left; top_right; bottom_left; bottom_right] →
  0 ≤ width st → 0 ≤ height st →
  ∃ st' tl tr bl br,
    extract_black_corners st = (Ok true, st')
    ∧ black_regions st'
      = [(top_left, tl); (top_right, tr); (bottom_left, bl); (bottom_right, br)]
    ∧ Forall (λ c, rect_width (position c) = width st `div` 10
                   ∧ rect_height (position c) = height st `div` 10
                   ∧ 0 ≤ rect_x (position c)
                   ∧ rect_x (position c) + rect_width (position c) ≤ width st
                   ∧ 0 ≤ rect_y (position c)
                   ∧ rect_y (position c) + rect_height (position c) ≤ height st
                   ∧ black_bgr c = black_rgb c)
             [tl; tr; bl; br]
    ∧ rect_x (position tl) + rect_width (position tl) ≤ rect_x (position tr)
    ∧ rect_x (position bl) + rect_width (position bl) ≤ rect_x (position br)
    ∧ rect_y (position tl) + rect_height (position tl) ≤ rect_y (position bl)
    ∧ rect_y (position tr) + rect_height (position tr) ≤ rect_y (position br).
Proof.
  intros [img Himg] Hkeys Hw Hh.
  destruct st as [d im hs h w cr br ri ci cc err].
  cbn in Himg, Hkeys, Hw, Hh. subst im.
  assert (Hdiv : 0 ≤ w `div` 10 ∧ 2 * (w `div` 10) ≤ w
                 ∧ 0 ≤ h `div` 10 ∧ 2 * (h `div` 10) ≤ h).
  { Z.div_mod_to_equations. lia. }
  destruct Hdiv as (W1 & W2 & H1 & H2).
  unfold extract_black_corners, sample_corner.
  destruct Hkeys as [Hkeys|Hkeys].
  - destruct br; [|discriminate]. cbn.
    repeat (destruct (mean_of_slice img _) as [[? ?] ?]; cbn).
    eexists _, _, _, _, _. split; [reflexivity|]. split; [reflexivity|].
    cbn. split; [|lia]. repeat constructor; cbn; lia.
  - destruct br as [|[k1 c1] [|[k2 c2] [|[k3 c3] [|[k4 c4] [|]]]]];
      try discriminate.
    injection Hkeys as -> -> -> ->. cbn.
    repeat (destruct (mean_of_slice img _) as [[? ?] ?]; cbn).
    eexists _, _, _, _, _. split; [reflexivity|]. split; [reflexivity|].
    cbn. split; [|lia]. repeat constructor; cbn; lia.
Qed.

Lemma mean_bounds (xs : list (option Q)) (lo hi : Q) :
  xs ≠ [] →
  Forall (λ x, ∃ v, x = Some v ∧ (lo <= v ∧ v <= hi)%Q) xs →
  ∃ m, Py.np_mean xs = Some m ∧ (lo <= m ∧ m <= hi)%Q.
Proof.
  intros Hne Hall.
  assert (Hfinite : ∃ l, xs = Some <$> l ∧ Forall (λ v, lo <= v ∧ v <= hi)%Q l).
  { clear Hne. induction Hall as [|x xs (v & -> & Hv) _ (l & -> & Hl)].
    - now exists [].
    - exists (v :: l). split; [reflexivity | now constructor]. }
  destruct Hfinite as (l & -> & Hl). unfold Py.np_mean. rewrite finite_fmap.
  assert (Hsum : (lo * inject_Z (Z.of_nat (length l)) <= foldr Qplus 0 l
                  ∧ foldr Qplus 0 l <= hi * inject_Z (Z.of_nat (length l)))%Q).
  { clear Hne Hall. induction Hl as [|x l [Hlo Hhi] _ [IHlo IHhi]].
    - cbn [length foldr]. change (inject_Z (Z.of_nat 0)) with 0%Q. split; lra.
    - cbn [length foldr]. rewrite Nat2Z.inj_succ, <- Z.add_1_r, inject_Z_plus.
      change (inject_Z 1) with 1%Q. split; lra. }
  destruct l as [|x l]; [done|]. eexists. split; [reflexivity|].
  assert (Hpos : (0 < inject_Z (Z.of_nat (length (x :: l))))%Q).
  { change 0%Q with (inject_Z 0). rewrite <- Zlt_Qlt. cbn [length]. lia. }
  destruct Hsum as [Hlo Hhi]. split.
  - now apply Qle_shift_div_l.
  - now apply Qle_shift_div_r.
Qed.

Lemma mean_nonneg (xs : list (option Q)) (m : Q) :
  Py.np_mean xs = Some m →
  Forall (λ x, ∀ v, x = Some v → (0 <= v)%Q) xs → (0 <= m)%Q.
Proof.
  intros Hmean Hall. unfold Py.np_mean in Hmean.
  destruct (Py.finite xs) as [l|] eqn:Hfinite; [|discriminate].
  apply finite_inv in Hfinite. subst xs.
  assert (Hl : Forall (λ v, 0 <= v)%Q l).
  { apply Forall_fmap in Hall. eapply Forall_impl; [exact Hall|].
    intros v Hv. now apply Hv. }
  assert (Hsum : (0 <= foldr Qplus 0 l)%Q).
  { clear Hmean Hall. induction Hl as [|x l Hx _ IH]; cbn [foldr]; lra. }
  destruct l as [|x l]; [discriminate|]. injection Hmean as <-.
  apply Qle_shift_div_l; [|cbn [foldr] in *; lra].
  change 0%Q with (inject_Z 0). rewrite <- Zlt_Qlt. cbn [length]. lia.
Qed.

(** The baseline. Without corner samples it is NaN in each channel;
    with samples whose channel means all lie between two bounds, each
    channel of the baseline lies between them too. The call changes
    nothing but the printed lines. *)
Theorem calculate_baseline_bounds (st : processor) (lo hi : Q) :
  (∀ c chan, c ∈ (black_regions st).*2 →
     ∃ v, rgb_get chan (black_rgb c) = Some v ∧ (lo <= v ∧ v <= hi)%Q) →
  ∃ base line,
    calculate_baseline st
    = (Ok base, with_stderr (stderr st ++ [line]) st)
    ∧ (black_regions st = [] → base = (None, None, None))
    ∧ (black_regions st ≠ [] →
       ∃ r g b, base = (Some r, Some g, Some b)
         ∧ (lo <= r ∧ r <= hi ∧ lo <= g ∧ g <= hi ∧ lo <= b ∧ b <= hi)%Q).
Proof.
  intros Hall. rewrite calculate_baseline_eq. eexists _, _.
  split; [reflexivity|]. split; [now intros ->|].
  intros Hne.
  assert (Hchan : ∀ chan, ∃ m,
    Py.np_mean ((λ c, rgb_get chan (black_rgb c.2)) <$> black_regions st) = Some m
    ∧ (lo <= m ∧ m <= hi)%Q).
  { intros chan. apply mean_bounds.
    - destruct (black_regions st); [done | discriminate].
    - apply Forall_fmap, Forall_forall. intros [k c] Hin. cbn.
      apply Hall. apply list_elem_of_fmap. now exists (k, c). }
  destruct (Hchan ch_r) as (r & Er & Hr1 & Hr2).
  destruct (Hchan ch_g) as (g & Eg & Hg1 & Hg2).
  destruct (Hchan ch_b) as (b & Eb & Hb1 & Hb2).
  exists r, g, b. unfold baseline_of. cbn in Er, Eg, Eb.
  rewrite Er, Eg, Eb. repeat split; assumption.
Qed.


(** Tables filled by a loop of assignments at the regions' wavelengths. *)
Lemma fold_insert_dom {V} (f : color * color_region → V)
    (regions : list (color * color_region)) (m : gmap Z V) :
  dom (foldl (λ m e, <[wavelength e.2 := f e]> m) m regions)
  = dom m ∪ list_to_set ((λ e, wavelength e.2) <$> regions).
Proof.
  revert m. induction regions as [|e regions IH]; intros m; cbn.
  - now rewrite union_empty_r_L.
  - rewrite IH, dom_insert_L.
    now rewrite (union_comm_L {[wavelength e.2]} (dom m)), <- union_assoc_L.
Qed.

Lemma fold_insert_other {V} (f : color * color_region → V)
    (regions : list (color * color_region)) (m : gmap Z V) wl :
  wl ∉ (λ e, wavelength e.2) <$> regions →
  foldl (λ m e, <[wavelength e.2 := f e]> m) m regions !! wl = m !! wl.
Proof.
  revert m. induction regions as [|e regions IH]; intros m Hnot; [done|].
  cbn. rewrite IH.
  - apply lookup_insert_ne. intros Heq. apply Hnot. rewrite <- Heq. left.
  - intros Hin. apply Hnot. now right.
Qed.

Lemma fold_insert_lookup {V} (f : color * color_region → V)
    (regions : list (color * color_region)) (m : gmap Z V) entry :
  NoDup ((λ e, wavelength e.2) <$> regions) → entry ∈ regions →
  foldl (λ m e, <[wavelength e.2 := f e]> m) m regions !! wavelength entry.2
  = Some (f entry).
Proof.
  revert m. induction regions as [|e regions IH]; intros m Hnodup Hin.
  - now apply elem_of_nil in Hin.
  - cbn in Hnodup. apply NoDup_cons in Hnodup as [Hfresh Hnodup].
    apply elem_of_cons in Hin as [->|Hin]; cbn.
    + rewrite fold_insert_other by assumption. apply lookup_insert_eq.
    + now apply IH.
Qed.

(** Both tables after the shadow corrector. *)
Lemma perform_shadow_correction_tables st :
  ∃ st', perform_shadow_correction st = (Ok (corrected_intensities st'), st')
    ∧ corrected_intensities st'
      = foldl (λ m e, <[wavelength e.2
                        := corrected_entry (baseline_of (black_regions st)) e]> m)
              (corrected_intensities st) (color_regions st)
    ∧ raw_intensities st'
      = foldl (λ m e, <[wavelength e.2 := Intensity (region_rgb e.2) e.1]> m)
              (raw_intensities st) (color_regions st).
Proof.
  unfold perform_shadow_correction. cbn [bind print modify].
  rewrite calculate_baseline_eq.
  destruct st as [d im hs h w cr br ri ci cc err].
  cbn -[correct_region]. rewrite shadow_loop. cbn.
  match goal with |- ∃ st', (_, ?s) = _ ∧ _ => exists s end.
  repeat split.
Qed.

(** One record per region. The shadow corrector adds to both tables
    exactly the wavelengths of the regions; with well-formed regions
    and tables empty before, each table has as many records as there
    are regions, and the raw record of a region holds its mean colour
    and its colour name. *)
Theorem perform_shadow_correction_records (st : processor)
    (table : gmap Z (intensity Q)) (st' : processor) :
  regions_ok (color_regions st) →
  perform_shadow_correction st = (Ok table, st') →
  dom table
  = dom (corrected_intensities st)
    ∪ list_to_set ((λ e, wavelength e.2) <$> color_regions st)
  ∧ dom (raw_intensities st')
    = dom (raw_intensities st)
      ∪ list_to_set ((λ e, wavelength e.2) <$> color_regions st)
  ∧ (corrected_intensities st = ∅ → size table = length (color_regions st))
  ∧ (raw_intensities st = ∅ →
     size (raw_intensities st') = length (color_regions st))
  ∧ ∀ name region, (name, region) ∈ color_regions st →
      raw_intensities st' !! wavelength region
      = Some (Intensity (region_rgb region) name).
Proof.
  intros Hok Hrun.
  destruct (perform_shadow_correction_tables st) as (st1 & E & Hc & Hr).
  rewrite E in Hrun. injection Hrun as <- <-.
  pose proof (regions_ok_wavelengths _ Hok) as Hnodup.
  assert (Hsize : ∀ V (m : gmap Z V),
    dom m = ∅ ∪ list_to_set ((λ e, wavelength e.2) <$> color_regions st) →
    size m = length (color_regions st)).
  { intros V m Hdom. rewrite <- size_dom, Hdom, union_empty_l_L.
    rewrite size_list_to_set by assumption. apply length_fmap. }
  rewrite Hc, Hr, !fold_insert_dom.
  split; [reflexivity|]. split; [reflexivity|].
  split; [|split].
  - intros Hempty. apply Hsize. now rewrite fold_insert_dom, Hempty, dom_empty_L.
  - intros Hempty. apply Hsize. now rewrite fold_insert_dom, Hempty, dom_empty_L.
  - intros name region Hin.
    exact (fold_insert_lookup (λ e, Intensity (region_rgb e.2) e.1) _ _
             (name, region) Hnodup Hin).
Qed.

Lemma subtract_baseline_le (v : Z) (base : option Q) :
  0 ≤ v → (∀ b, base = Some b → 0 <= b)%Q →
  (0 <= subtract_baseline v base ∧ subtract_baseline v base <= inject_Z v)%Q.
Proof.
  intros Hv Hbase.
  assert (Hq : (0 <= inject_Z v)%Q).
  { change 0%Q with (inject_Z 0). now rewrite <- Zle_Qle. }
  unfold subtract_baseline. destruct base as [b|]; cbn; [|split; lra].
  specialize (Hbase b eq_refl).
  destruct (py_max_spec 0 (inject_Z v - b)) as (H0 & _ & [Hm|Hm]);
    rewrite Hm in *; split; lra.
Qed.

(** Subtraction never adds. When no corner mean is negative, each
    corrected channel of a region with a non-negative raw value lies
    between 0 and the raw value, also when there is no corner sample at
    all or when a corner mean is NaN. *)
Theorem shadow_correction_never_increases (st : processor)
    (table : gmap Z (intensity Q)) (st' : processor)
    (name : color) (region : color_region) (chan : channel) :
  regions_ok (color_regions st) →
  (∀ c ch v, c ∈ (black_regions st).*2 →
     rgb_get ch (black_rgb c) = Some v → (0 <= v)%Q) →
  perform_shadow_correction st = (Ok table, st') →
  (name, region) ∈ color_regions st →
  0 ≤ rgb_get chan (region_rgb region) →
  ∃ entry,
    table !! wavelength region = Some entry
    ∧ (0 <= rgb_get chan (channels entry)
       ∧ rgb_get chan (channels entry)
         <= inject_Z (rgb_get chan (region_rgb region)))%Q.
Proof.
  intros Hok Hdark Hrun Hin Hraw.
  destruct (perform_shadow_correction_tables st) as (st1 & E & Hc & _).
  rewrite E in Hrun. injection Hrun as <- <-.
  pose proof (fold_insert_lookup
                (corrected_entry (baseline_of (black_regions st)))
                (color_regions st) (corrected_intensities st) (name, region)
                (regions_ok_wavelengths _ Hok) Hin) as Hlookup.
  rewrite <- Hc in Hlookup. cbn [snd] in Hlookup.
  eexists. split; [exact Hlookup|].
  assert (Hbase : ∀ ch b,
    Py.np_mean ((λ c, rgb_get ch (black_rgb c.2)) <$> black_regions st) = Some b →
    (0 <= b)%Q).
  { intros ch b Hmean. apply (mean_nonneg _ _ Hmean).
    apply Forall_fmap, Forall_forall. intros [k c] Hc0 v Hv. cbn [snd] in Hv.
    apply (Hdark c ch v); [|exact Hv].
    apply list_elem_of_fmap. now exists (k, c). }
  destruct chan; cbn; apply subtract_baseline_le; try assumption; intros b Hb.
  - exact (Hbase ch_r b Hb).
  - exact (Hbase ch_g b Hb).
  - exact (Hbase ch_b b Hb).
Qed.

End Stages.

Lemma extract_color_regions_invariants_witness :
  (length (color_regions
     (extract_color_regions (H := Synthetic.camera)
        (load_image (H := Synthetic.camera) (init [Byte.x05])).2).2) ≤ 6)%nat.
Proof.
  destruct (extract_color_regions_invariants (H := Synthetic.camera)
              (load_image (H := Synthetic.camera) (init [Byte.x05])).2
              (extract_color_regions (H := Synthetic.camera)
                 (load_image (H := Synthetic.camera) (init [Byte.x05])).2).1
              (extract_color_regions (H := Synthetic.camera)
                 (load_image (H := Synthetic.camera) (init [Byte.x05])).2).2)
    as (_ & _ & Hsix & _).
  - apply (bool_decide_unpack _). vm_compute. exact I.
  - constructor.
  - vm_compute. reflexivity.
  - exact Hsix.
Defined.

Lemma extract_color_regions_needs_image_witness :
  ∃ e st',
    extract_color_regions (H := Synthetic.camera) (init [Byte.x05])
    = (Raise e, st').
Proof.
  destruct (extract_color_regions_needs_image (H := Synthetic.camera)
              (init [Byte.x05])) as (e & st' & Hrun & _).
  - reflexivity.
  - eauto.
Defined.

Lemma extract_black_corners_geometry_witness :
  ∃ st', extract_black_corners (H := Synthetic.camera)
           (load_image (H := Synthetic.camera) (init [Byte.x04])).2
         = (Ok true, st')
    ∧ length (black_regions st') = 4%nat.
Proof.
  destruct (extract_black_corners_geometry (H := Synthetic.camera)
              (load_image (H := Synthetic.camera) (init [Byte.x04])).2)
    as (st' & tl & tr & bl & br & Hrun & Hfour & _).
  - vm_compute. eauto.
  - left. reflexivity.
  - vm_compute. discriminate.
  - vm_compute. discriminate.
  - exists st'. split; [exact Hrun|]. now rewrite Hfour.
Defined.

Lemma calculate_baseline_bounds_witness :
  ∃ base line,
    calculate_baseline (H := Synthetic.camera) (Synthetic.calibrated Byte.x04)
    = (Ok base,
       with_stderr (stderr (Synthetic.calibrated Byte.x04) ++ [line])
         (Synthetic.calibrated Byte.x04)).
Proof.
  destruct (calculate_baseline_bounds (H := Synthetic.camera)
              (Synthetic.calibrated Byte.x04) 0 255)
    as (base & line & Hrun & _).
  - intros c chan Hin. vm_compute in Hin.
    repeat (apply elem_of_cons in Hin as [->|Hin];
            [destruct chan; eexists; (split; [reflexivity|]);
             vm_compute; split; discriminate|]).
    now apply elem_of_nil in Hin.
  - eauto.
Defined.

Lemma perform_shadow_correction_records_witness :
  size Synthetic.reshadow_table = 4%nat.
Proof.
  destruct (perform_shadow_correction_records (H := Synthetic.camera)
              (with_corrected_intensities ∅ (Synthetic.calibrated Byte.x04))
              Synthetic.reshadow_table
              (perform_shadow_correction (H := Synthetic.camera)
                 (with_corrected_intensities ∅ (Synthetic.calibrated Byte.x04))).2)
    as (_ & _ & Hsize & _).
  - apply (bool_decide_unpack _). vm_compute. exact I.
  - vm_compute. reflexivity.
  - rewrite Hsize; reflexivity.
Defined.

Lemma shadow_correction_never_increases_witness :
  ∃ entry,
    Synthetic.reshadow_table !! wavelength (Synthetic.chart_region 0).2
    = Some entry
    ∧ (rgb_get ch_g (channels entry)
       <= inject_Z (rgb_get ch_g (region_rgb (Synthetic.chart_region 0).2)))%Q.
Proof.
  destruct (shadow_correction_never_increases (H := Synthetic.camera)
              (Synthetic.calibrated Byte.x04) Synthetic.reshadow_table
              Synthetic.reshadow.2
              (Synthetic.chart_region 0).1 (Synthetic.chart_region 0).2 ch_g)
    as (entry & Hentry & _ & Hle).
  - apply (bool_decide_unpack _). vm_compute. exact I.
  - intros c ch v Hin. vm_compute in Hin.
    repeat (apply elem_of_cons in Hin as [->|Hin];
            [destruct ch; intros [= <-]; vm_compute; discriminate|]).
    now apply elem_of_nil in Hin.
  - vm_compute. reflexivity.
  - apply list_elem_of_lookup. exists 0%nat. vm_compute. reflexivity.
  - vm_compute. discriminate.
  - eauto.
Defined.

(** ** Further properties of the fitted curves *)

Section Curves.
Context `{Vision}.

#[local] Arguments bind {S A B} m k st /.
#[local] Arguments ret {S A} a st /.
#[local] Arguments raise {S A} e st /.
#[local] Arguments try_except {S A} body handler st /.
#[local] Arguments gets {S A} f st /.
#[local] Arguments modify {S} f st /.
#[local] Arguments call {S A} r st /.
#[local] Arguments print {_} l st /.
#[local] Arguments loaded {_} field st /.

(** The four tables of fitted curves are aligned: they share one list
    of wavelengths, which is not empty, strictly ascending and holds
    exactly the wavelengths with a corrected intensity, and every
    channel of every table has one value for each of them. *)
Theorem fitted_series_aligned
    (ref : option (gmap Z (rgb Q))) (st : processor) (c : curves)
    (st' : processor) :
  fit_correction_curves ref st = (Ok c, st') →
  let wls := series_wavelengths (data_points c) in
  wls ≠ []
  ∧ StronglySorted Z.lt wls
  ∧ (∀ wl, wl ∈ wls ↔ is_Some (corrected_intensities st !! wl))
  ∧ series_wavelengths (raw_normalized c) = wls
  ∧ series_wavelengths (final_corrected c) = wls
  ∧ ∀ chan,
      length (series_get chan (data_points c)) = length wls
      ∧ length (series_get chan (raw_normalized c)) = length wls
      ∧ length (series_get chan (final_corrected c)) = length wls.
Proof.
  intros Hfit.
  destruct (fit_correction_curves_tops _ _ _ _ Hfit)
    as (Hne & tops & polys & _ & _ & ->).
  cbn zeta.
  change (series_wavelengths (data_points (fitted_curves _ _ _ _)))
    with (wavelengths_of (corrected_intensities st)).
  split; [exact Hne|]. split; [apply wavelengths_of_ascending|].
  split; [apply wavelengths_of_elem|].
  split; [reflexivity|]. split; [reflexivity|].
  intros chan.
  destruct (series_of_fitted
              (chosen_reference ref (wavelengths_of (corrected_intensities st)))
              (corrected_intensities st) tops polys chan) as (-> & -> & ->).
  rewrite length_zip_with, !length_fmap. repeat split. lia.
Qed.

(** With corrected intensities that are not negative in a channel, the
    normalized values of that channel lie between 0 and 1, and one of
    them is 1 as soon as one intensity is positive. *)
Theorem normalized_within_unit
    (ref : option (gmap Z (rgb Q))) (st : processor) (c : curves)
    (st' : processor) (chan : channel) :
  fit_correction_curves ref st = (Ok c, st') →
  (∀ wl entry, corrected_intensities st !! wl = Some entry →
     (0 <= rgb_get chan (channels entry))%Q) →
  Forall (λ v, (0 <= v)%Q ∧ (v <= 1)%Q) (series_get chan (raw_normalized c))
  ∧ ((∃ wl entry, corrected_intensities st !! wl = Some entry
                  ∧ (0 < rgb_get chan (channels entry))%Q) →
     Exists (λ v, (v == 1)%Q) (series_get chan (raw_normalized c))).
Proof.
  intros Hfit Hpos.
  destruct (fit_correction_curves_tops _ _ _ _ Hfit)
    as (Hne & tops & polys & Htops & _ & ->).
  set (ci := corrected_intensities st) in *.
  set (wls := wavelengths_of ci) in *.
  destruct (series_of_fitted (chosen_reference ref wls) ci tops polys chan)
    as (_ & -> & _). fold wls.
  specialize (Htops chan).
  set (top := rgb_get chan tops) in *.
  assert (Hval : ∀ wl, wl ∈ wls →
            ∃ entry, ci !! wl = Some entry ∧ ci !!! wl = entry).
  { intros wl Hwl. apply wavelengths_of_elem in Hwl as [entry Hentry].
    exists entry. split; [exact Hentry|]. now apply lookup_total_correct. }
  assert (Hupper : ∀ wl, wl ∈ wls →
            (rgb_get chan (channels (ci !!! wl)) <= top)%Q).
  { intros wl Hwl. unfold max_list in Htops.
    destruct (channel_list chan ci wls) as [|v vs] eqn:Hlist; [discriminate|].
    injection Htops as Htops. rewrite <- Htops.
    apply max_of_upper. rewrite <- Hlist.
    unfold channel_list. apply list_elem_of_fmap. now exists wl. }
  assert (Hattained : ∃ wl, wl ∈ wls ∧ rgb_get chan (channels (ci !!! wl)) = top).
  { unfold max_list in Htops.
    destruct (channel_list chan ci wls) as [|v vs] eqn:Hlist; [discriminate|].
    injection Htops as Htops.
    pose proof (max_of_elem v vs) as Hin. rewrite Htops, <- Hlist in Hin.
    unfold channel_list in Hin. apply list_elem_of_fmap in Hin as (wl & E & Hwl).
    now exists wl. }
  split.
  - apply Forall_fmap, Forall_forall. intros wl Hwl. cbn.
    destruct (Hval wl Hwl) as (entry & Hentry & Htotal).
    pose proof (Hpos wl entry Hentry) as H0.
    pose proof (Hupper wl Hwl) as H1. rewrite Htotal in H1.
    unfold norm_at. fold top. rewrite Htotal. unfold divisor.
    destruct (Py.Qltb 0 top) eqn:Htop.
    + apply Qltb_lt in Htop. split.
      * apply Qle_shift_div_l; [exact Htop | lra].
      * apply Qle_shift_div_r; [exact Htop | lra].
    + apply Qltb_ge in Htop.
      assert (E : (rgb_get chan (channels entry) / 1
                   == rgb_get chan (channels entry))%Q) by (field).
      rewrite E. split; lra.
  - intros (wl & entry & Hentry & Hgt).
    destruct Hattained as (wl0 & Hwl0 & Htop0).
    assert (Hwl : wl ∈ wls) by (apply wavelengths_of_elem; eauto).
    pose proof (Hupper wl Hwl) as H1.
    rewrite (lookup_total_correct _ _ _ Hentry) in H1.
    apply Exists_exists. exists (norm_at ci tops chan wl0). split.
    + apply list_elem_of_fmap. now exists wl0.
    + unfold norm_at. fold top. rewrite Htop0. unfold divisor.
      assert (Htop : (0 < top)%Q) by lra.
      apply Qltb_lt in Htop as Hb. rewrite Hb. field. lra.
Qed.

(** The stored polynomial of a channel is what [np.polyfit] returned
    for the stored wavelengths and the stored correction factors of
    that channel, and the spline constructor accepted the same points. *)
Theorem stored_polynomial_fits_data_points
    (ref : option (gmap Z (rgb Q))) (st : processor) (c : curves)
    (st' : processor) (chan : channel) :
  fit_correction_curves ref st = (Ok c, st') →
  polyfit (series_wavelengths (data_points c)) (series_get chan (data_points c))
  = Ok (rgb_get chan (polynomial c))
  ∧ UnivariateSpline (series_wavelengths (data_points c))
      (series_get chan (data_points c)) = Ok tt
  ∧ correction_curves st' = Some c.
Proof.
  intros Hfit.
  destruct (fit_correction_curves_ok _ _ _ _ Hfit) as (_ & _ & _ & _ & Hst & _).
  destruct (fit_correction_curves_tops _ _ _ _ Hfit)
    as (Hne & tops & polys & _ & Hrun & ->).
  set (ci := corrected_intensities st) in *.
  set (wls := wavelengths_of ci) in *.
  set (refd := chosen_reference ref wls) in *.
  destruct (series_of_fitted refd ci tops polys chan) as (-> & _ & _).
  change (series_wavelengths (data_points (fitted_curves refd ci tops polys)))
    with wls.
  change (polynomial (fitted_curves refd ci tops polys)) with polys.
  unfold run_fits in Hrun.
  destruct (polyfit wls _) as [pr|] eqn:Pr; [|discriminate].
  destruct (polyfit wls (factor_at refd ci tops ch_g <$> _)) as [pg|] eqn:Pg;
    [|discriminate].
  destruct (polyfit wls (factor_at refd ci tops ch_b <$> _)) as [pb|] eqn:Pb;
    [|discriminate].
  destruct (UnivariateSpline wls _) as [[]|] eqn:Sr; [|discriminate].
  destruct (UnivariateSpline wls (factor_at refd ci tops ch_g <$> _))
    as [[]|] eqn:Sg; [|discriminate].
  destruct (UnivariateSpline wls (factor_at refd ci tops ch_b <$> _))
    as [[]|] eqn:Sb; [|discriminate].
  injection Hrun as <-.
  destruct chan; cbn; auto.
Qed.

(** A fit that raises changes nothing but the standard error: curves
    fitted earlier stay in place and keep serving
    [apply_correction_to_value]; and unless the table of corrected
    intensities is empty, the last line printed names the exception. *)
Theorem failed_fit_keeps_earlier_curves
    (ref : option (gmap Z (rgb Q))) (st : processor) (e : exn)
    (st' : processor) :
  fit_correction_curves ref st = (Raise e, st') →
  ∃ lines,
    st' = with_stderr (stderr st ++ lines) st
    ∧ (corrected_intensities st ≠ ∅ → last lines = Some (LogFitError e))
    ∧ ∀ c wl chan value,
        correction_curves st = Some c →
        apply_correction_to_value wl (channel_key chan) value st'
        = (Ok (value * Py.np_polyval (rgb_get chan (polynomial c)) wl)%Q, st').
Proof.
  intros Hfit.
  assert (Happly : ∀ c wl chan value,
    correction_curves st' = Some c →
    apply_correction_to_value wl (channel_key chan) value st'
    = (Ok (value * Py.np_polyval (rgb_get chan (polynomial c)) wl)%Q, st')).
  { intros c wl chan value Hc. unfold apply_correction_to_value.
    cbn [bind gets]. rewrite Hc. now destruct chan. }
  destruct (fit_correction_curves_raise _ _ _ _ Hfit) as (Hcurves & _).
  rewrite Hcurves in Happly.
  destruct (decide (corrected_intensities st = ∅)) as [Hempty|Hne].
  { rewrite fit_correction_curves_empty in Hfit by assumption.
    injection Hfit as <- <-. exists [LogFitting].
    split; [reflexivity|]. split; [done | exact Happly]. }
  destruct (fit_correction_curves_normal ref st Hne)
    as (tops & lines & _ & _ & E).
  cbn zeta in E. rewrite E in Hfit. clear E.
  destruct (run_fits _ _) as [polys|e']; [discriminate|].
  injection Hfit as <- Hst. exists (lines ++ [LogFitError e']).
  split; [|split; [intros _; apply last_snoc | exact Happly]].
  rewrite <- Hst. destruct st; cbn. now rewrite app_assoc.
Qed.

End Curves.

Lemma fitted_series_aligned_witness :
  series_wavelengths (data_points (Synthetic.refit_curves None)) ≠ []
  ∧ StronglySorted Z.lt
      (series_wavelengths (data_points (Synthetic.refit_curves None))).
Proof.
  destruct (fitted_series_aligned (H := Synthetic.camera) None
              (Synthetic.calibrated Byte.x04) (Synthetic.refit_curves None)
              (Synthetic.refit None).2) as (Hne & Hsorted & _).
  - vm_compute. reflexivity.
  - split; [exact Hne | exact Hsorted].
Defined.

Lemma normalized_within_unit_witness :
  Forall (λ v, (0 <= v)%Q ∧ (v <= 1)%Q)
    (series_get ch_g (raw_normalized (Synthetic.refit_curves None))).
Proof.
  destruct (normalized_within_unit (H := Synthetic.camera) None
              (Synthetic.calibrated Byte.x04) (Synthetic.refit_curves None)
              (Synthetic.refit None).2 ch_g) as (Hunit & _).
  - vm_compute. reflexivity.
  - intros wl entry Hlookup. apply elem_of_map_to_list in Hlookup.
    vm_compute in Hlookup.
    repeat (apply elem_of_cons in Hlookup as [Hlookup|Hlookup];
            [injection Hlookup as -> ->; vm_compute; discriminate|]).
    now apply elem_of_nil in Hlookup.
  - exact Hunit.
Defined.

Lemma stored_polynomial_fits_data_points_witness :
  Synthetic.constant_fit
    (series_wavelengths (data_points (Synthetic.refit_curves None)))
    (series_get ch_b (data_points (Synthetic.refit_curves None)))
  = Ok (rgb_get ch_b (polynomial (Synthetic.refit_curves None))).
Proof.
  destruct (stored_polynomial_fits_data_points (H := Synthetic.camera) None
              (Synthetic.calibrated Byte.x04) (Synthetic.refit_curves None)
              (Synthetic.refit None).2 ch_b) as (Hpoly & _).
  - vm_compute. reflexivity.
  - exact Hpoly.
Defined.

Lemma failed_fit_keeps_earlier_curves_witness :
  ∃ lines,
    (fit_correction_curves (H := Synthetic.camera) None
       Synthetic.three_wavelengths).2
    = with_stderr (stderr Synthetic.three_wavelengths ++ lines)
        Synthetic.three_wavelengths.
Proof.
  destruct (failed_fit_keeps_earlier_curves (H := Synthetic.camera) None
              Synthetic.three_wavelengths
              (match (fit_correction_curves (H := Synthetic.camera) None
                        Synthetic.three_wavelengths).1 with
               | Raise e => e
               | Ok _ => KeyError ""
               end)
              (fit_correction_curves (H := Synthetic.camera) None
                 Synthetic.three_wavelengths).2)
    as (lines & Hst & _).
  - vm_compute. reflexivity.
  - now exists lines.
Defined.

(** ** Further properties of the pipeline *)

Section Runs.
Context `{Vision}.

#[local] Arguments bind {S A B} m k st /.
#[local] Arguments ret {S A} a st /.
#[local] Arguments raise {S A} e st /.
#[local] Arguments try_except {S A} body handler st /.
#[local] Arguments gets {S A} f st /.
#[local] Arguments modify {S} f st /.
#[local] Arguments call {S A} r st /.
#[local] Arguments print {_} l st /.
#[local] Arguments load_image : simpl never.
#[local] Arguments extract_color_regions : simpl never.
#[local] Arguments extract_black_corners : simpl never.
#[local] Arguments calculate_baseline : simpl never.
#[local] Arguments perform_shadow_correction : simpl never.
#[local] Arguments fit_correction_curves : simpl never.

(** The state after a successful fit. *)
Lemma fit_correction_curves_state ref st c st' :
  fit_correction_curves ref st = (Ok c, st') →
  ∃ lines,
    st' = with_stderr (stderr st ++ lines) (with_correction_curves (Some c) st).
Proof.
  intros Hfit.
  destruct (decide (corrected_intensities st = ∅)) as [Hempty|Hne].
  { rewrite fit_correction_curves_empty in Hfit by assumption. discriminate. }
  destruct (fit_correction_curves_normal ref st Hne)
    as (tops & lines & _ & _ & E).
  cbn zeta in E. rewrite E in Hfit. clear E.
  destruct (run_fits _ _) as [polys|e]; [|discriminate].
  injection Hfit as <- <-. destruct st; cbn. eexists.
  rewrite <- app_assoc. reflexivity.
Qed.

(** The size of the decoded image. *)
Lemma load_image_shape st st1 :
  load_image st = (Ok true, st1) →
  ∃ img, image st1 = Some img ∧ shape img = (height st1, width st1).
Proof.
  destruct st as [d im hs h w cr br ri ci cc err].
  unfold load_image. cbn.
  destruct (imdecode d) as [[img|]|e]; cbn; try discriminate.
  destruct (shape img) as [hh ww] eqn:Hshape; cbn.
  destruct (cvtColor_BGR2HSV img) as [hsv|e]; cbn; [|discriminate].
  intros [= <-]. now exists img.
Qed.

Lemma foldl_min_spec (ks : list Z) (k : Z) :
  foldl Z.min k ks ∈ k :: ks ∧ ∀ y, y ∈ k :: ks → foldl Z.min k ks ≤ y.
Proof.
  revert k. induction ks as [|z zs IH]; intros k; cbn.
  - split; [left|]. intros y Hy.
    apply elem_of_cons in Hy as [->|Hy]; [lia | now apply elem_of_nil in Hy].
  - destruct (IH (Z.min k z)) as [Hin Hle]. split.
    + apply elem_of_cons in Hin as [Hin|Hin].
      * rewrite Hin. destruct (Z.min_spec k z) as [[_ ->]|[_ ->]];
          [left | right; left].
      * now do 2 right.
    + intros y Hy.
      pose proof (Hle (Z.min k z) (list_elem_of_here _ _)) as Hm.
      apply elem_of_cons in Hy as [->|Hy]; [lia|].
      apply elem_of_cons in Hy as [->|Hy]; [lia|].
      apply Hle. now right.
Qed.

Lemma foldl_max_spec (ks : list Z) (k : Z) :
  foldl Z.max k ks ∈ k :: ks ∧ ∀ y, y ∈ k :: ks → y ≤ foldl Z.max k ks.
Proof.
  revert k. induction ks as [|z zs IH]; intros k; cbn.
  - split; [left|]. intros y Hy.
    apply elem_of_cons in Hy as [->|Hy]; [lia | now apply elem_of_nil in Hy].
  - destruct (IH (Z.max k z)) as [Hin Hle]. split.
    + apply elem_of_cons in Hin as [Hin|Hin].
      * rewrite Hin. destruct (Z.max_spec k z) as [[_ ->]|[_ ->]];
          [right; left | left].
      * now do 2 right.
    + intros y Hy.
      pose proof (Hle (Z.max k z) (list_elem_of_here _ _)) as Hm.
      apply elem_of_cons in Hy as [->|Hy]; [lia|].
      apply elem_of_cons in Hy as [->|Hy]; [lia|].
      apply Hle. now right.
Qed.

Lemma keys_elem {A} (d : gmap Z A) (k : Z) :
  k ∈ (map_to_list d).*1 ↔ is_Some (d !! k).
Proof.
  rewrite list_elem_of_fmap. split.
  - intros ([k' v] & -> & Hin). apply elem_of_map_to_list in Hin. eauto.
  - intros [v Hv]. exists (k, v). split; [done|].
    now apply elem_of_map_to_list.
Qed.

(** The range of the keys of a table that is not empty. *)
Lemma key_range_spec {A} (d : gmap Z A) :
  d ≠ ∅ →
  is_Some (d !! (key_range d).1) ∧ is_Some (d !! (key_range d).2)
  ∧ ∀ k, is_Some (d !! k) → (key_range d).1 ≤ k ≤ (key_range d).2.
Proof.
  intros Hne. unfold key_range.
  pose proof (keys_elem d) as Hkeys.
  destruct ((map_to_list d).*1) as [|k ks] eqn:E.
  { exfalso. apply Hne. apply map_to_list_empty_iff.
    now apply fmap_nil_inv in E. }
  destruct (foldl_min_spec ks k) as [Hmin Hlo].
  destruct (foldl_max_spec ks k) as [Hmax Hhi].
  cbn [fst snd]. split; [now apply Hkeys|]. split; [now apply Hkeys|].
  intros y Hy. apply Hkeys in Hy. split; [now apply Hlo | now apply Hhi].
Qed.

Lemma chart_wavelength_bounds (name : color) (wl : Z) :
  (name, wl) ∈ COLOR_WAVELENGTHS → 460 ≤ wl ≤ 625.
Proof.
  unfold COLOR_WAVELENGTHS. intros Hin.
  repeat (apply elem_of_cons in Hin as [[= _ ->]|Hin]; [lia|]).
  now apply elem_of_nil in Hin.
Qed.

(** A table filled from nothing by well-formed regions has one record
    for each of them. *)
Lemma fold_insert_size {V} (f : color * color_region → V)
    (regions : list (color * color_region)) :
  regions_ok regions →
  size (foldl (λ m e, <[wavelength e.2 := f e]> m) (∅ : gmap Z V) regions)
  = length regions.
Proof.
  intros Hok. pose proof (regions_ok_wavelengths _ Hok) as Hnodup.
  rewrite <- size_dom, fold_insert_dom, dom_empty_L, union_empty_l_L.
  rewrite size_list_to_set by assumption. apply length_fmap.
Qed.

Lemma fold_insert_key {V} (f : color * color_region → V)
    (regions : list (color * color_region)) (wl : Z) :
  is_Some (foldl (λ m e, <[wavelength e.2 := f e]> m) (∅ : gmap Z V) regions
           !! wl) →
  ∃ e, e ∈ regions ∧ wavelength e.2 = wl.
Proof.
  intros Hsome. apply elem_of_dom in Hsome.
  rewrite fold_insert_dom, dom_empty_L, union_empty_l_L in Hsome.
  apply elem_of_list_to_set, list_elem_of_fmap in Hsome as (e & -> & Hin).
  now exists e.
Qed.

Lemma str_keys_length {A} (d : gmap Z A) : length (str_keys d) = size d.
Proof. unfold str_keys. rewrite length_fmap. apply length_map_to_list. Qed.

(** A complete calibration from a new processor is consistent with
    itself: four to six well-formed regions, four corner samples whose
    mean is the baseline (NaN in a channel where a corner mean is NaN,
    a number where none is), one raw and one corrected record and one
    fitted wavelength per region, the width and the height of the
    decoded image, and a wavelength range that lies within 460 and 625
    and spans the wavelengths of the regions. *)
Theorem complete_record_consistent
    (force : bool) (now : string) (data : list Byte.byte)
    (record : calibration) (st' : processor) :
  process force now (init data) = (Ok (Complete record), st') →
  let regions := calibration_color_regions record in
  let stats := calibration_statistics record in
  let n := length regions in
  timestamp record = now
  ∧ regions = color_regions st' ∧ regions_ok regions ∧ (4 ≤ n ≤ 6)%nat
  ∧ num_colors_detected stats = n
  ∧ (black_corners record).*1
    = [top_left; top_right; bottom_left; bottom_right]
  ∧ num_black_corners stats = 4%nat
  ∧ (let base := baseline_of (black_corners record) in
     baseline record = RGB base.1.1 base.1.2 base.2)
  ∧ (∀ chan,
       (∃ c, c ∈ (black_corners record).*2
             ∧ rgb_get chan (black_rgb c) = None) →
       rgb_get chan (baseline record) = None)
  ∧ ((∀ c chan, c ∈ (black_corners record).*2 →
        is_Some (rgb_get chan (black_rgb c))) →
     ∃ r g b, baseline record = RGB (Some r) (Some g) (Some b))
  ∧ length (calibration_raw_intensities record) = n
  ∧ length (calibration_corrected_intensities record) = n
  ∧ (∃ c, calibration_correction_curves record = Some c
          ∧ correction_curves st' = Some c
          ∧ length (series_wavelengths (data_points c)) = n)
  ∧ (∃ img, image st' = Some img
            ∧ shape img = ((image_info record).2, (image_info record).1))
  ∧ 460 ≤ (wavelength_range stats).1
  ∧ (wavelength_range stats).2 ≤ 625
  ∧ ∀ name region, (name, region) ∈ regions →
      (wavelength_range stats).1 ≤ wavelength region
      ≤ (wavelength_range stats).2.
Proof.
  intros Hrun.
  destruct (load_image_total (init data))
    as (ok & st1 & E1 & (B1 & R1 & Q1 & _) & C1 & L1).
  unfold process in Hrun. cbn [bind] in Hrun. rewrite E1 in Hrun.
  destruct ok; cbn [negb bind ret] in Hrun; [|discriminate].
  destruct (load_image_shape _ _ E1) as (img & Himg & Hshape).
  destruct (extract_color_regions_total st1 (L1 eq_refl))
    as (st2 & E2 & L2 & (B2 & R2 & Q2 & _) & S2 & K2).
  rewrite E2 in Hrun. cbn [bind gets] in Hrun.
  assert (Hok2 : regions_ok (color_regions st2)).
  { apply K2. rewrite C1. split; [apply NoDup_nil_2 | constructor]. }
  destruct (bool_decide (4 ≤ length (color_regions st2))%nat) eqn:H4.
  2:{ destruct force, (bool_decide (0 < length (color_regions st2))%nat);
        cbn in Hrun; discriminate. }
  apply bool_decide_eq_true in H4.
  rewrite (bool_decide_eq_true_2 (0 < length (color_regions st2))%nat) in Hrun
    by lia.
  destruct force; cbn [andb negb bind ret print modify gets] in Hrun;
    [discriminate|].
  destruct (extract_black_corners_total st2 (proj1 L2))
    as (st3 & E3 & C3 & R3 & I3 & _ & S3 & _ & Hkeys).
  rewrite E3 in Hrun. cbn [negb bind] in Hrun.
  destruct (perform_shadow_correction_total st3)
    as (st4 & E4 & _ & C4 & B4 & _ & S4 & _).
  destruct (perform_shadow_correction_tables st3) as (st4' & E4' & T4 & W4).
  rewrite E4 in E4'. injection E4' as _ <-.
  rewrite E4 in Hrun. cbn [bind try_except] in Hrun.
  destruct (fit_correction_curves None st4) as [[c|e] st5] eqn:E5;
    cbn [bind ret gets] in Hrun; [|discriminate].
  destruct (fit_correction_curves_state _ _ _ _ E5) as (lines & ->).
  destruct (fit_correction_curves_tops _ _ _ _ E5) as (_ & tops & polys & _ & _ & Hc).
  rewrite !calculate_baseline_eq in Hrun.
  cbn [bind gets ret print modify] in Hrun.
  unfold convert_to_json_serializable in Hrun.
  assert (Hfour : (black_regions st4).*1
                  = [top_left; top_right; bottom_left; bottom_right]).
  { rewrite B4. apply Hkeys. now rewrite B2, B1. }
  assert (Hregions : color_regions st4 = color_regions st2) by congruence.
  assert (Hok4 : regions_ok (color_regions st4)) by now rewrite Hregions.
  assert (Hraw : size (raw_intensities st4) = length (color_regions st4)).
  { rewrite W4, R3, R2, R1, C4. apply fold_insert_size. now rewrite <- C4. }
  assert (Hcorrected : corrected_intensities st4
            = foldl (λ m e, <[wavelength e.2
                              := corrected_entry (baseline_of (black_regions st3)) e]> m)
                    ∅ (color_regions st4)).
  { now rewrite T4, I3, C4, Q2, Q1. }
  assert (Hsize : size (corrected_intensities st4) = length (color_regions st4)).
  { rewrite Hcorrected. now apply fold_insert_size. }
  assert (Hne : corrected_intensities st4 ≠ ∅).
  { intros Hempty. rewrite Hempty, map_size_empty in Hsize.
    rewrite Hregions in Hsize. lia. }
  destruct (key_range_spec (corrected_intensities st4) Hne)
    as (Hlo & Hhi & Hrange).
  assert (Hsix : (length (color_regions st4) ≤ 6)%nat).
  { rewrite <- (length_fmap fst). apply colors_at_most_six, Hok4. }
  assert (Hwl : ∀ wl, is_Some (corrected_intensities st4 !! wl) →
                      460 ≤ wl ≤ 625).
  { intros wl Hsome. rewrite Hcorrected in Hsome.
    apply fold_insert_key in Hsome as ([name region] & Hin & <-).
    destruct Hok4 as [_ Hall]. rewrite Forall_forall in Hall.
    apply (chart_wavelength_bounds name), (Hall _ Hin). }
  assert (Himage : image st4 = Some img ∧ height st4 = height st1
                   ∧ width st4 = width st1).
  { destruct S4 as (-> & _ & -> & ->). destruct S3 as (-> & _ & -> & ->).
    destruct S2 as (-> & _ & -> & ->). now rewrite Himg. }
  destruct Himage as (Himg4 & Hh4 & Hw4).
  assert (Hsome : black_regions st4 ≠ []).
  { intros Hnil. now rewrite Hnil in Hfour. }
  assert (Hvalues : ∀ chan c,
            c ∈ (black_regions st4).*2 →
            rgb_get chan (black_rgb c)
              ∈ (λ c, rgb_get chan (black_rgb c.2)) <$> black_regions st4).
  { intros chan b0 Hb0. apply list_elem_of_fmap in Hb0 as ([k b1] & -> & Hb1).
    apply list_elem_of_fmap. now exists (k, b1). }
  injection Hrun as <- <-.
  clear E1 E2 E3 E4 E5 S2 S3 S4 L1 L2 K2 Hkeys T4 W4.
  destruct st4 as [d im hs h w cr br ri ci cc err]. cbn in *.
  rewrite !str_keys_length. cbn.
  split; [reflexivity|]. split; [reflexivity|]. split; [exact Hok4|].
  split; [split; [rewrite Hregions; exact H4 | exact Hsix]|].
  split; [reflexivity|]. split; [exact Hfour|].
  split; [rewrite <- (length_fmap fst), Hfour; reflexivity|].
  split; [reflexivity|].
  split.
  { intros chan (b0 & Hb0 & Hnan). specialize (Hvalues chan b0 Hb0).
    rewrite Hnan in Hvalues. destruct chan; cbn; now apply np_mean_nan. }
  split.
  { intros Hall.
    assert (Hchan : ∀ chan,
      is_Some (Py.np_mean ((λ c, rgb_get chan (black_rgb c.2)) <$> br))).
    { intros chan. apply np_mean_finite.
      - destruct br; [done | discriminate].
      - apply Forall_fmap, Forall_forall. intros [k b0] Hin. cbn.
        apply Hall. apply list_elem_of_fmap. now exists (k, b0). }
    destruct (Hchan ch_r) as [r Hr]. destruct (Hchan ch_g) as [g Hg].
    destruct (Hchan ch_b) as [b Hb]. cbn in Hr, Hg, Hb.
    exists r, g, b. now rewrite Hr, Hg, Hb. }
  split; [exact Hraw|]. split; [exact Hsize|].
  split.
  { exists c. split; [reflexivity|]. split; [reflexivity|].
    rewrite Hc. cbn. now rewrite wavelengths_of_length. }
  split.
  { exists img. split; [exact Himg4|]. now rewrite Hh4, Hw4. }
  split; [apply Hwl, Hlo|]. split; [apply Hwl, Hhi|].
  intros name region Hin. apply Hrange.
  rewrite Hcorrected.
  rewrite (fold_insert_lookup _ _ _ (name, region)
             (regions_ok_wavelengths _ Hok4) Hin). eauto.
Qed.

(** With library calls outside [try] blocks that return, as the
    interface has them, [process] returns a dictionary from every state
    and raises nothing. A failure carries one of three messages: the
    image did not load, which happens exactly when [load_image]
    returned [False]; no colour was detected; or the fit raised. The
    message for the black corners is never returned. *)
Theorem process_failure_messages
    (force : bool) (now : string) (st : processor) :
  ∃ r st',
    process force now st = (Ok r, st')
    ∧ (∀ error, r = Failure error →
         error = "Failed to load image"
         ∨ error = no_colors_error
         ∨ ∃ e, error = "Failed to fit correction curves: " +:+ str e)
    ∧ r ≠ Failure "Failed to extract black corner regions"
    ∧ (r = Failure "Failed to load image"
       ↔ ∃ st1, load_image st = (Ok false, st1)).
Proof.
  destruct (load_image_total st) as (ok & st1 & E1 & _ & _ & L1).
  unfold process. cbn [bind]. rewrite E1.
  destruct ok; cbn [negb bind ret].
  2:{ eexists _, _. split; [reflexivity|].
      split; [intros error [= <-]; now left|].
      split; [discriminate|]. split; eauto. }
  assert (Hloaded : ¬ ∃ s, (Ok true, st1) = (Ok false, s))
    by (intros [s Hs]; discriminate).
  destruct (extract_color_regions_total st1 (L1 eq_refl))
    as (st2 & E2 & L2 & _).
  rewrite E2. cbn [bind gets].
  destruct (extract_black_corners_total st2 (proj1 L2)) as (st3 & E3 & _).
  destruct (perform_shadow_correction_total st3) as (st4 & E4 & _).
  destruct force, (bool_decide (4 ≤ length (color_regions st2))%nat),
    (bool_decide (0 < length (color_regions st2))%nat);
    cbn [andb negb bind ret print modify gets].
  all: try (eexists _, _; split; [reflexivity|];
            split; [intros error Herr; try discriminate;
                    injection Herr as <-; right; now left|];
            split; [discriminate|];
            split; [discriminate | intros Hs; now destruct Hloaded]).
  all: rewrite E3; cbn [negb bind]; rewrite E4; cbn [bind try_except].
  all: destruct (fit_correction_curves None st4) as [[c|e] st5];
    cbn [bind ret gets].
  all: try rewrite !calculate_baseline_eq;
    cbn [bind gets ret print modify].
  all: eexists _, _; (split; [reflexivity|]).
  all: split; [intros error Herr; try discriminate;
               injection Herr as <-; right; right; now exists e|].
  all: split; [try discriminate; intros Herr; injection Herr as Herr;
               cbn in Herr; discriminate|].
  all: split; [try discriminate; intros Herr; injection Herr as Herr;
               cbn in Herr; discriminate
              | intros Hs; now destruct Hloaded].
Qed.

Lemma curves_with_stderr (l : list log_line) (s : processor) :
  correction_curves (with_stderr l s) = correction_curves s.
Proof. now destruct s. Qed.

(** The curves after a run. *)
Lemma process_curves (force : bool) (now : string) (st : processor) :
  ∃ r st',
    process force now st = (Ok r, st')
    ∧ match r with
      | Complete record =>
          ∃ c, correction_curves st' = Some c
               ∧ calibration_correction_curves record = Some c
      | _ => correction_curves st' = correction_curves st
      end.
Proof.
  destruct (load_image_total st)
    as (ok & st1 & E1 & (_ & _ & _ & K1 & _) & _ & L1).
  unfold process. cbn [bind]. rewrite E1.
  destruct ok; cbn [negb bind ret].
  2:{ eexists _, _. split; [reflexivity | exact K1]. }
  destruct (extract_color_regions_total st1 (L1 eq_refl))
    as (st2 & E2 & L2 & (_ & _ & _ & K2 & _) & _).
  rewrite E2. cbn [bind gets].
  destruct (extract_black_corners_total st2 (proj1 L2))
    as (st3 & E3 & _ & _ & _ & K3 & _).
  destruct (perform_shadow_correction_total st3)
    as (st4 & E4 & _ & _ & _ & K4 & _).
  destruct force, (bool_decide (4 ≤ length (color_regions st2))%nat),
    (bool_decide (0 < length (color_regions st2))%nat);
    cbn [andb negb bind ret print modify gets].
  all: try (eexists _, _; split; [reflexivity|];
            rewrite curves_with_stderr; congruence).
  all: rewrite E3; cbn [negb bind]; rewrite E4; cbn [bind try_except].
  all: destruct (fit_correction_curves None st4) as [[c|e] st5] eqn:E5;
    cbn [bind ret gets].
  all: try rewrite !calculate_baseline_eq;
    cbn [bind gets ret print modify].
  all: eexists _, _; (split; [reflexivity|]).
  all: try (destruct (fit_correction_curves_raise _ _ _ _ E5) as (K5 & _);
            congruence).
  all: destruct (fit_correction_curves_ok _ _ _ _ E5)
         as (_ & _ & _ & _ & K5 & _).
  all: unfold convert_to_json_serializable; cbn;
    rewrite !curves_with_stderr; eauto.
Qed.

(** After a run on a processor without curves,
    [apply_correction_to_value] returns a value exactly when the run
    returned a complete calibration, and the value is then the input
    times the polynomial of the returned curves at the wavelength;
    after a failure or an analysis-only result it raises the
    [ValueError] for curves not fitted. *)
Theorem corrections_available_iff_complete
    (force : bool) (now : string) (st : processor) (r : result)
    (st' : processor) (wl : Q) (chan : channel) (value : Q) :
  correction_curves st = None →
  process force now st = (Ok r, st') →
  match r with
  | Complete record =>
      ∃ c, calibration_correction_curves record = Some c
        ∧ apply_correction_to_value wl (channel_key chan) value st'
          = (Ok (value * Py.np_polyval (rgb_get chan (polynomial c)) wl)%Q, st')
  | _ =>
      apply_correction_to_value wl (channel_key chan) value st'
      = (Raise (ValueError "Correction curves not fitted yet"), st')
  end.
Proof.
  intros Hnone Hrun.
  destruct (process_curves force now st) as (r0 & st0 & E & Hcurves).
  rewrite Hrun in E. injection E as <- <-.
  unfold apply_correction_to_value. cbn [bind gets].
  destruct r as [error|regions n message|record].
  - rewrite Hcurves, Hnone. reflexivity.
  - rewrite Hcurves, Hnone. reflexivity.
  - destruct Hcurves as (c & -> & Hrecord). exists c.
    split; [exact Hrecord|]. now destruct chan.
Qed.

(** With [force_analysis] a run returns no calibration. *)
Lemma process_forced (now : string) (st : processor) (r : result)
    (st' : processor) :
  process true now st = (Ok r, st') → ∀ record, r ≠ Complete record.
Proof.
  destruct (load_image_total st) as (ok & st1 & E1 & _ & _ & L1).
  unfold process. cbn [bind]. rewrite E1.
  destruct ok; cbn [negb bind ret]; [|intros [= <- _]; discriminate].
  destruct (extract_color_regions_total st1 (L1 eq_refl)) as (st2 & E2 & _).
  rewrite E2. cbn [bind gets].
  destruct (bool_decide (4 ≤ length (color_regions st2))%nat) eqn:H4,
    (bool_decide (0 < length (color_regions st2))%nat) eqn:H0;
    cbn [andb negb bind ret print modify gets];
    try (intros [= <- _]; discriminate).
  apply bool_decide_eq_true in H4. apply bool_decide_eq_false in H0. lia.
Qed.




End Runs.

(** ** Properties of the endpoint *)

Section Requests.
Context `{Vision}.
Variable b64decode : string → Res (list Byte.byte).
Variable imencode : Image → Res (bool * list Byte.byte).

Lemma process_returns (force : bool) (now : string) (st : processor) :
  ∃ r st', process force now st = (Ok r, st').
Proof.
  destruct (process_curves force now st) as (r & st' & E & _). eauto.
Qed.

Lemma comma_prefix (c : Ascii.ascii) (rest : string) :
  String.prefix "," (String c rest) = Ascii.eqb c Server.comma.
Proof.
  change (String.prefix "," (String c rest))
    with (match Ascii.ascii_dec Server.comma c with
          | left _ => String.prefix EmptyString rest
          | right _ => false
          end).
  destruct (Ascii.ascii_dec Server.comma c) as [<-|Hne].
  - now destruct rest.
  - symmetry. apply Ascii.eqb_neq. congruence.
Qed.

(** [',' in s] agrees with [s.split(',', 1)]. *)
Lemma comma_index (s : string) :
  match String.index 0 "," s with
  | Some _ => is_Some (Server.split_comma s).2
  | None => Server.split_comma s = (s, None)
  end.
Proof.
  induction s as [|c rest IH]; [reflexivity|].
  change (String.index 0 "," (String c rest))
    with (if String.prefix "," (String c rest) then Some 0%nat
          else match String.index 0 "," rest with
               | Some n => Some (S n)
               | None => None
               end).
  rewrite comma_prefix. cbn [Server.split_comma].
  destruct (Ascii.eqb c Server.comma); [cbn; eauto|].
  destruct (String.index 0 "," rest).
  - destruct (Server.split_comma rest) as [before after]. exact IH.
  - now rewrite IH.
Qed.

Lemma split_comma_app (prefix payload : string) :
  String.index 0 "," prefix = None →
  Server.split_comma (prefix +:+ "," +:+ payload) = (prefix, Some payload).
Proof.
  induction prefix as [|c rest IH]; intros Hnone; [reflexivity|].
  change (String.index 0 "," (String c rest))
    with (if String.prefix "," (String c rest) then Some 0%nat
          else match String.index 0 "," rest with
               | Some n => Some (S n)
               | None => None
               end) in Hnone.
  rewrite comma_prefix in Hnone.
  change (String c rest +:+ "," +:+ payload)
    with (String c (rest +:+ "," +:+ payload)).
  cbn [Server.split_comma].
  destruct (Ascii.eqb c Server.comma); [discriminate|].
  destruct (String.index 0 "," rest); [discriminate|].
  now rewrite (IH eq_refl).
Qed.

Lemma get_truth (key : string) (fields : list (string * Server.json)) v :
  Server.get key fields = Some v → Server.truth (Server.JObj fields) = true.
Proof. now destruct fields. Qed.

(** Every response has one of three shapes: status 200 with the result
    of the processor, after the line that reports completion; status
    400 with one of three messages; status 500 with the exception that
    was printed last.  An exception in a response was raised by the
    request parser, by an operation on a value of the wrong type, or by
    the base64 decoder, [cv2.imdecode] or [cv2.imencode]: a processor
    whose unguarded library calls return never causes a 500, and the
    index after the split is never out of range. *)
Theorem endpoint_response_shapes (now : string) (request : option Server.json) :
  let run := Server.process_image b64decode imencode now request in
  (Server.status run.1 = 200
   ∧ (∃ r, Server.body run.1 = Server.ResultBody r)
   ∧ last run.2 = Some Server.ProcessingComplete)
  ∨ (Server.status run.1 = 400
     ∧ ∃ message,
         Server.body run.1 = Server.ErrorBody message
         ∧ message ∈ ["No image data provided"; "Failed to decode image";
                      "Failed to encode image"])
  ∨ (Server.status run.1 = 500
     ∧ ∃ e,
         Server.body run.1 = Server.ExceptionBody e
         ∧ last run.2 = Some (Server.ErrorProcessing e)
         ∧ e ≠ Server.IndexError
         ∧ ∀ e', e = Server.Thrown e' →
             (∃ s, b64decode s = Raise e')
             ∨ (∃ data, imdecode data = Raise e')
             ∨ (∃ img, imencode img = Raise e')).
Proof.
  cbn zeta.
  unfold Server.process_image, Server.decode_and_process,
    Server.encode_and_process, Server.handler.
  repeat case_match; subst; cbn [fst snd Server.status Server.body].
  all: try match goal with
    | Hp : process ?f ?n ?s = (Raise _, _) |- _ =>
        destruct (process_returns f n s) as (? & ? & E);
        rewrite E in Hp; discriminate
    end.
  all: try match goal with
    | Hc : Server.contains "image" (Server.JObj ?fields) = Some true,
      Hg : Server.get "image" ?fields = None |- _ =>
        cbn in Hc; rewrite Hg in Hc; discriminate
    end.
  all: try match goal with
    | Hc : Server.contains "," (Server.JStr ?s) = Some true,
      Hs : (Server.split_comma ?s).2 = None |- _ =>
        cbn in Hc; pose proof (comma_index s) as Hi;
        destruct (String.index 0 "," s); [|discriminate];
        rewrite Hs in Hi; now destruct Hi
    end.
  all: first
    [ left; split; [reflexivity|]; split; [eauto|]; apply last_snoc
    | right; left; split; [reflexivity|]; eexists; split; [reflexivity|];
      set_solver
    | right; right; split; [reflexivity|]; eexists; split; [reflexivity|];
      split; [apply last_snoc|]; split; [discriminate|];
      intros e' [= <-]; eauto
    | right; right; split; [reflexivity|]; eexists; split; [reflexivity|];
      split; [apply last_snoc|]; split; [discriminate|];
      intros e' ?; discriminate ].
Qed.

Lemma contains_comma (s : string) :
  Server.contains "," (Server.JStr s)
  = Some (match (Server.split_comma s).2 with Some _ => true | None => false end).
Proof.
  cbn. pose proof (comma_index s) as Hi.
  destruct (String.index 0 "," s).
  - now destruct Hi as [rest ->].
  - now rewrite Hi.
Qed.

(** The request of a response that carries a result. *)
Lemma endpoint_result (now : string) (request : option Server.json)
    (r : result) :
  Server.body (Server.process_image b64decode imencode now request).1
  = Server.ResultBody r →
  ∃ fields encoded st',
    request = Some (Server.JObj fields)
    ∧ process (Server.truth (default (Server.JBool false)
                               (Server.get "force_analysis" fields)))
        now (init encoded) = (Ok r, st').
Proof.
  unfold Server.process_image, Server.decode_and_process,
    Server.encode_and_process, Server.handler.
  repeat case_match; subst; cbn [fst snd Server.status Server.body];
    try discriminate.
  all: intros [= <-]; eauto.
Qed.

(** A request whose image decodes and encodes again is answered with
    status 200 and the result of a new processor on the encoded bytes,
    whatever that result is, a failure of the pipeline included; the
    lines printed are those of the endpoint around those of the
    processor. *)
Theorem endpoint_answers_decodable_images
    (now : string) (fields : list (string * Server.json)) (s : string)
    (data : list Byte.byte) (img : Image) (encoded : list Byte.byte) :
  Server.get "image" fields = Some (Server.JStr s) →
  b64decode (Server.base64_part s) = Ok data →
  imdecode data = Ok (Some img) →
  imencode img = Ok (true, encoded) →
  ∃ r st',
    process (Server.truth (default (Server.JBool false)
                             (Server.get "force_analysis" fields)))
      now (init encoded) = (Ok r, st')
    ∧ Server.process_image b64decode imencode now (Some (Server.JObj fields))
      = (Server.Response (Server.ResultBody r) 200,
         [Server.Received (default (Server.JStr "jpg")
                             (Server.get "format" fields));
          Server.Decoded (shape img);
          Server.Converted (length encoded)]
         ++ (Server.Printed <$> stderr st')
         ++ [Server.ProcessingComplete]).
Proof.
  intros Himage Hdata Himg Hencoded.
  destruct (process_returns
              (Server.truth (default (Server.JBool false)
                               (Server.get "force_analysis" fields)))
              now (init encoded)) as (r & st' & Hrun).
  exists r, st'. split; [exact Hrun|].
  unfold Server.process_image.
  rewrite (get_truth _ _ _ Himage). cbn [negb].
  change (Server.contains "image" (Server.JObj fields))
    with (Some (match Server.get "image" fields with
                | Some _ => true
                | None => false
                end)).
  rewrite Himage. cbn zeta. rewrite contains_comma.
  unfold Server.base64_part in Hdata.
  assert (Hdecode :
    Server.decode_and_process b64decode imencode now
      (default (Server.JBool false) (Server.get "force_analysis" fields))
      (match (Server.split_comma s).2 with Some rest => rest | None => s end)
      [Server.Received (default (Server.JStr "jpg")
                          (Server.get "format" fields))]
    = (Server.Response (Server.ResultBody r) 200,
       [Server.Received (default (Server.JStr "jpg")
                           (Server.get "format" fields));
        Server.Decoded (shape img);
        Server.Converted (length encoded)]
       ++ (Server.Printed <$> stderr st')
       ++ [Server.ProcessingComplete])).
  { unfold Server.decode_and_process, Server.encode_and_process.
    rewrite Hdata, Himg, Hencoded. cbn [negb]. rewrite Hrun.
    cbn. reflexivity. }
  destruct ((Server.split_comma s).2); exact Hdecode.
Qed.

(** The text up to the first comma of the 'image' string is dropped:
    a request with a prefix, a comma and a payload is handled as the
    payload alone, and gets the response of the request that sends
    only the payload when the payload has no comma of its own. *)
Theorem endpoint_drops_data_url_prefix
    (now : string) (others : list (string * Server.json))
    (prefix payload : string) :
  String.index 0 "," prefix = None →
  Server.process_image b64decode imencode now
    (Some (Server.JObj
             (("image", Server.JStr (prefix +:+ "," +:+ payload)) :: others)))
  = Server.decode_and_process b64decode imencode now
      (default (Server.JBool false) (Server.get "force_analysis" others))
      payload
      [Server.Received (default (Server.JStr "jpg")
                          (Server.get "format" others))]
  ∧ (String.index 0 "," payload = None →
     Server.process_image b64decode imencode now
       (Some (Server.JObj
                (("image", Server.JStr (prefix +:+ "," +:+ payload)) :: others)))
     = Server.process_image b64decode imencode now
         (Some (Server.JObj (("image", Server.JStr payload) :: others)))).
Proof.
  intros Hprefix.
  assert (Hrun : ∀ s,
    Server.process_image b64decode imencode now
      (Some (Server.JObj (("image", Server.JStr s) :: others)))
    = Server.decode_and_process b64decode imencode now
        (default (Server.JBool false) (Server.get "force_analysis" others))
        (Server.base64_part s)
        [Server.Received (default (Server.JStr "jpg")
                            (Server.get "format" others))]).
  { intros s. unfold Server.process_image, Server.base64_part.
    cbn [Server.truth negb].
    change (Server.contains "image"
              (Server.JObj (("image", Server.JStr s) :: others)))
      with (Some true).
    change (Server.get "image" (("image", Server.JStr s) :: others))
      with (Some (Server.JStr s)).
    change (Server.get "format" (("image", Server.JStr s) :: others))
      with (Server.get "format" others).
    change (Server.get "force_analysis" (("image", Server.JStr s) :: others))
      with (Server.get "force_analysis" others).
    cbv beta iota zeta. rewrite contains_comma.
    now destruct ((Server.split_comma s).2). }
  rewrite !Hrun. unfold Server.base64_part.
  rewrite (split_comma_app prefix payload Hprefix). cbn [snd].
  split; [reflexivity|]. intros Hpayload.
  pose proof (comma_index payload) as Hi. rewrite Hpayload in Hi.
  now rewrite Hi.
Qed.

(** The endpoint tests 'force_analysis' for truth: with any value that
    Python takes for true, the string "false" included, the response
    carries no calibration. *)
Theorem endpoint_force_analysis_by_truth
    (now : string) (fields : list (string * Server.json)) (v : Server.json) :
  Server.get "force_analysis" fields = Some v →
  Server.truth v = true →
  ∀ record,
    Server.body (Server.process_image b64decode imencode now
                   (Some (Server.JObj fields))).1
    ≠ Server.ResultBody (Complete record).
Proof.
  intros Hforce Htruth record Hbody.
  apply endpoint_result in Hbody as (fields' & encoded & st' & [= <-] & Hrun).
  rewrite Hforce in Hrun.
  change (default (Server.JBool false) (Some v)) with v in Hrun.
  rewrite Htruth in Hrun.
  exact (process_forced _ _ _ _ Hrun record eq_refl).
Qed.

End Requests.

Lemma complete_record_consistent_witness :
  (num_black_corners (calibration_statistics Bench.record) = 4%nat
   ∧ (4 ≤ length (calibration_color_regions Bench.record) ≤ 6)%nat
   ∧ ∃ r g b, baseline Bench.record = RGB (Some r) (Some g) (Some b))
  ∧ (image_info Bench.tiny_record = (5, 5)
     ∧ rgb_get ch_r (baseline Bench.tiny_record) = None).
Proof.
  split.
  - destruct (complete_record_consistent (H := Synthetic.camera) false
                "2025-10-24T12:00:00" [Byte.x04] Bench.record Bench.run.2)
      as (_ & _ & _ & Hn & _ & _ & Hfour & _ & _ & Hnumbers & _).
    + vm_compute. reflexivity.
    + split; [exact Hfour|]. split; [exact Hn|]. apply Hnumbers.
      intros c chan Hin. vm_compute in Hin.
      repeat (apply elem_of_cons in Hin as [->|Hin];
              [destruct chan; vm_compute; eauto|]).
      now apply elem_of_nil in Hin.
  - destruct (complete_record_consistent (H := Synthetic.camera) false
                "2025-10-24T12:00:00" [Byte.x04; Byte.x05] Bench.tiny_record
                Bench.tiny_run.2)
      as (_ & _ & _ & _ & _ & _ & _ & _ & Hnan & _).
    + vm_compute. reflexivity.
    + split; [vm_compute; reflexivity|]. apply Hnan.
      exists (default (BlackRegion (RGB None None None) (RGB None None None)
                         (Rect 0 0 0 0))
                (head (black_corners Bench.tiny_record).*2)).
      split; vm_compute; [left | reflexivity].
Defined.

Lemma corrections_available_iff_complete_witness :
  ∃ c,
    calibration_correction_curves Bench.record = Some c
    ∧ apply_correction_to_value (H := Synthetic.camera) 550 "g" 2 Bench.run.2
      = (Ok (2 * Py.np_polyval (rgb_g (polynomial c)) 550)%Q, Bench.run.2).
Proof.
  exact (corrections_available_iff_complete (H := Synthetic.camera) false
           "2025-10-24T12:00:00" (init [Byte.x04]) (Complete Bench.record)
           Bench.run.2 550 ch_g 2 eq_refl
           ltac:(vm_compute; reflexivity)).
Defined.

Lemma endpoint_answers_decodable_images_witness :
  Server.status
    (Bench.endpoint
       (Server.JObj [("image", Server.JStr (Bench.payload 4))])).1 = 200.
Proof.
  destruct (endpoint_answers_decodable_images (H := Synthetic.camera)
              Bench.b64decode Bench.imencode "2025-10-24T12:00:00"
              [("image", Server.JStr (Bench.payload 4))] (Bench.payload 4)
              [Byte.x04] (Bench.chart Byte.x04) [Byte.x04])
    as (r & st' & _ & Hresponse).
  - reflexivity.
  - vm_compute. reflexivity.
  - vm_compute. reflexivity.
  - vm_compute. reflexivity.
  - unfold Bench.endpoint. now rewrite Hresponse.
Defined.

Lemma endpoint_drops_data_url_prefix_witness :
  Bench.endpoint
    (Server.JObj
       [("image",
         Server.JStr ("data:image/jpeg;base64" +:+ "," +:+ Bench.payload 4))])
  = Bench.endpoint (Server.JObj [("image", Server.JStr (Bench.payload 4))]).
Proof.
  destruct (endpoint_drops_data_url_prefix (H := Synthetic.camera)
              Bench.b64decode Bench.imencode "2025-10-24T12:00:00" []
              "data:image/jpeg;base64" (Bench.payload 4))
    as (_ & Hsame).
  - vm_compute. reflexivity.
  - apply Hsame. vm_compute. reflexivity.
Defined.

Lemma endpoint_force_analysis_by_truth_witness :
  match
    Server.body
      (Bench.endpoint
         (Server.JObj [("image", Server.JStr (Bench.payload 4));
                       ("force_analysis", Server.JStr "false")])).1
  with
  | Server.ResultBody (Complete _) => False
  | _ => True
  end.
Proof.
  destruct (Server.body _) as [error|e|[error|regions n message|record]] eqn:E;
    try exact I.
  apply (endpoint_force_analysis_by_truth (H := Synthetic.camera)
           Bench.b64decode Bench.imencode "2025-10-24T12:00:00"
           [("image", Server.JStr (Bench.payload 4));
            ("force_analysis", Server.JStr "false")]
           (Server.JStr "false") eq_refl eq_refl record E).
Defined.

(** ** Order, repetition and the tables of the record *)

Section Tables.
Context `{Vision}.

#[local] Arguments bind {S A B} m k st /.
#[local] Arguments ret {S A} a st /.
#[local] Arguments raise {S A} e st /.
#[local] Arguments try_except {S A} body handler st /.
#[local] Arguments gets {S A} f st /.
#[local] Arguments modify {S} f st /.
#[local] Arguments call {S A} r st /.
#[local] Arguments print {_} l st /.
#[local] Arguments load_image : simpl never.
#[local] Arguments extract_color_region : simpl never.
#[local] Arguments extract_color_regions : simpl never.
#[local] Arguments extract_black_corners : simpl never.
#[local] Arguments calculate_baseline : simpl never.
#[local] Arguments perform_shadow_correction : simpl never.
#[local] Arguments fit_correction_curves : simpl never.

Lemma dict_set_fresh {K V} `{EqDecision K} (k : K) (v : V) (d : list (K * V)) :
  k ∉ d.*1 → dict_set k v d = d ++ [(k, v)].
Proof.
  induction d as [|[k' v'] d IH]; intros Hfresh; [reflexivity|].
  cbn. destruct (decide (k = k')) as [->|Hne].
  - exfalso. apply Hfresh. left.
  - f_equal. apply IH. intros Hin. apply Hfresh. now right.
Qed.

(** The keys after a part of the detector's loop. *)
Lemma detector_loop_order (todo : list (color * Z)) :
  ∀ (done : list color) st r st',
    NoDup (done ++ todo.*1) →
    (color_regions st).*1 `sublist_of` done →
    for_each todo (λ '(color_name, wl), extract_color_region color_name wl) st
    = (r, st') →
    (color_regions st').*1 `sublist_of` done ++ todo.*1.
Proof.
  induction todo as [|[name wl] todo IH]; intros done st r st' Hnodup Hsub Hrun.
  - injection Hrun as _ <-. now rewrite app_nil_r.
  - cbn [for_each bind] in Hrun.
    destruct (extract_color_region name wl st) as [r1 st1] eqn:Hbody.
    assert (Hstep : (color_regions st1).*1 `sublist_of` done ++ [name]).
    { destruct (extract_color_region_writes _ _ _ _ _ Hbody)
        as [->|(region & -> & _)].
      - now apply sublist_inserts_r.
      - rewrite dict_set_fresh.
        + rewrite fmap_app. now apply sublist_app.
        + intros Hin.
          apply NoDup_app in Hnodup as (_ & Hdisjoint & _).
          apply (Hdisjoint name); [|left].
          exact (elem_of_sublist _ _ _ Hin Hsub). }
    change ((name, wl) :: todo).*1 with (name :: todo.*1).
    rewrite (cons_middle name done (todo.*1)), app_assoc.
    destruct r1 as [[]|e].
    + apply (IH (done ++ [name]) st1 r st'); [|exact Hstep | exact Hrun].
      now rewrite <- app_assoc.
    + injection Hrun as _ <-. now apply sublist_inserts_r.
Qed.

(** On a processor without regions the detector records the colours in
    the order of the chart: red, yellow, green, cyan, blue, magenta,
    leaving out those it did not find. *)
Theorem detected_regions_in_chart_order
    (st : processor) (r : Res bool) (st' : processor) :
  color_regions st = [] →
  extract_color_regions st = (r, st') →
  (color_regions st').*1
    `sublist_of` [red; yellow; green; cyan; blue; magenta].
Proof.
  intros Hnone Hrun. unfold extract_color_regions in Hrun.
  cbn [bind print modify] in Hrun.
  set (st0 := with_stderr (stderr st ++ [LogExtractingColors]) st) in Hrun.
  destruct (for_each COLOR_WAVELENGTHS _ st0) as [r1 st1] eqn:Hloop.
  assert (Horder : (color_regions st1).*1 `sublist_of` [] ++ COLOR_WAVELENGTHS.*1).
  { apply (detector_loop_order COLOR_WAVELENGTHS [] st0 r1 st1).
    - cbn. apply (bool_decide_unpack _). vm_compute. exact I.
    - subst st0. destruct st; cbn in *. now rewrite Hnone.
    - exact Hloop. }
  destruct r1 as [[]|e]; cbn in Hrun; injection Hrun as _ <-.
  - destruct st1; exact Horder.
  - exact Horder.
Qed.

(** The shadow corrector can be called again: with well-formed
    regions a second call returns the table of the first and changes
    neither table, so the baseline is not subtracted twice. *)
Theorem perform_shadow_correction_idempotent
    (st : processor) (table1 : gmap Z (intensity Q)) (st1 : processor) :
  regions_ok (color_regions st) →
  perform_shadow_correction st = (Ok table1, st1) →
  ∃ st2,
    perform_shadow_correction st1 = (Ok table1, st2)
    ∧ corrected_intensities st2 = corrected_intensities st1
    ∧ raw_intensities st2 = raw_intensities st1.
Proof.
  intros Hok Hrun.
  destruct (perform_shadow_correction_total st)
    as (s1 & E1 & _ & C1 & B1 & _).
  destruct (perform_shadow_correction_tables st) as (s1' & E1' & T1 & W1).
  rewrite E1 in E1'. injection E1' as _ <-.
  rewrite E1 in Hrun. injection Hrun as <- <-.
  destruct (perform_shadow_correction_tables s1) as (s2 & E2 & T2 & W2).
  rewrite C1, B1 in T2. rewrite C1 in W2.
  pose proof (regions_ok_wavelengths _ Hok) as Hnodup.
  assert (Hagain : ∀ V (f : color * color_region → V) (m : gmap Z V),
    foldl (λ m e, <[wavelength e.2 := f e]> m)
          (foldl (λ m e, <[wavelength e.2 := f e]> m) m (color_regions st))
          (color_regions st)
    = foldl (λ m e, <[wavelength e.2 := f e]> m) m (color_regions st)).
  { intros V f m. apply map_eq. intros wl.
    destruct (decide (wl ∈ (λ e, wavelength e.2) <$> color_regions st))
      as [Hin|Hout].
    - apply list_elem_of_fmap in Hin as (e & -> & Hin).
      now rewrite !(fold_insert_lookup f _ _ e Hnodup Hin).
    - now rewrite (fold_insert_other f _ _ wl Hout). }
  assert (Hc : corrected_intensities s2 = corrected_intensities s1).
  { rewrite T2, T1. apply Hagain. }
  assert (Hr : raw_intensities s2 = raw_intensities s1).
  { rewrite W2, W1. apply Hagain. }
  exists s2. rewrite E2, Hc. auto.
Qed.

(** The tables of a complete calibration, in terms of the record. *)
Lemma complete_run_tables (force : bool) (now : string)
    (data : list Byte.byte) (record : calibration) (st' : processor) :
  process force now (init data) = (Ok (Complete record), st') →
  regions_ok (calibration_color_regions record)
  ∧ calibration_raw_intensities record
    = str_keys (foldl (λ m e, <[wavelength e.2
                                := Intensity (region_rgb e.2) e.1]> m)
                      ∅ (calibration_color_regions record))
  ∧ calibration_corrected_intensities record
    = str_keys (foldl (λ m e, <[wavelength e.2
                                := corrected_entry
                                     (baseline_of (black_corners record)) e]> m)
                      ∅ (calibration_color_regions record)).
Proof.
  intros Hrun.
  destruct (load_image_total (init data))
    as (ok & st1 & E1 & (B1 & R1 & Q1 & _) & C1 & L1).
  unfold process in Hrun. cbn [bind] in Hrun. rewrite E1 in Hrun.
  destruct ok; cbn [negb bind ret] in Hrun; [|discriminate].
  destruct (extract_color_regions_total st1 (L1 eq_refl))
    as (st2 & E2 & L2 & (B2 & R2 & Q2 & _) & S2 & K2).
  rewrite E2 in Hrun. cbn [bind gets] in Hrun.
  assert (Hok2 : regions_ok (color_regions st2)).
  { apply K2. rewrite C1. split; [apply NoDup_nil_2 | constructor]. }
  destruct (bool_decide (4 ≤ length (color_regions st2))%nat) eqn:H4.
  2:{ destruct force, (bool_decide (0 < length (color_regions st2))%nat);
        cbn in Hrun; discriminate. }
  apply bool_decide_eq_true in H4.
  rewrite (bool_decide_eq_true_2 (0 < length (color_regions st2))%nat) in Hrun
    by lia.
  destruct force; cbn [andb negb bind ret print modify gets] in Hrun;
    [discriminate|].
  destruct (extract_black_corners_total st2 (proj1 L2))
    as (st3 & E3 & C3 & R3 & I3 & _).
  rewrite E3 in Hrun. cbn [negb bind] in Hrun.
  destruct (perform_shadow_correction_total st3)
    as (st4 & E4 & _ & C4 & B4 & _).
  destruct (perform_shadow_correction_tables st3) as (st4' & E4' & T4 & W4).
  rewrite E4 in E4'. injection E4' as _ <-.
  rewrite E4 in Hrun. cbn [bind try_except] in Hrun.
  destruct (fit_correction_curves None st4) as [[c|e] st5] eqn:E5;
    cbn [bind ret gets] in Hrun; [|discriminate].
  destruct (fit_correction_curves_state _ _ _ _ E5) as (lines & ->).
  rewrite !calculate_baseline_eq in Hrun.
  cbn [bind gets ret print modify] in Hrun.
  unfold convert_to_json_serializable in Hrun.
  assert (Hok4 : regions_ok (color_regions st4)) by (rewrite C4, C3; exact Hok2).
  rewrite R3, R2, R1, <- C4 in W4. rewrite I3, Q2, Q1, <- C4, <- B4 in T4.
  injection Hrun as <- <-.
  clear E1 E2 E3 E4 E5 S2 L1 L2 K2.
  destruct st4 as [d im hs h w cr br ri ci cc err]. cbn in *.
  rewrite T4, W4. auto.
Qed.

(** In a complete calibration every detected region has its raw
    record and its corrected record under the key of its wavelength,
    and no other record under that key: the raw record is the mean
    colour of the region, and the corrected record is that colour less
    the mean of the black corners of the same record, floored at
    zero. *)
Theorem complete_record_intensities
    (force : bool) (now : string) (data : list Byte.byte)
    (record : calibration) (st' : processor)
    (name : color) (region : color_region) :
  process force now (init data) = (Ok (Complete record), st') →
  (name, region) ∈ calibration_color_regions record →
  let key := pretty (wavelength region) in
  let raw := Intensity (region_rgb region) name in
  let corrected :=
    corrected_entry (baseline_of (black_corners record)) (name, region) in
  (key, raw) ∈ calibration_raw_intensities record
  ∧ (key, corrected) ∈ calibration_corrected_intensities record
  ∧ (∀ v, (key, v) ∈ calibration_raw_intensities record → v = raw)
  ∧ (∀ v, (key, v) ∈ calibration_corrected_intensities record → v = corrected).
Proof.
  intros Hrun Hin.
  destruct (complete_run_tables _ _ _ _ _ Hrun) as (Hok & -> & ->).
  pose proof (regions_ok_wavelengths _ Hok) as Hnodup.
  assert (Hkeys : ∀ V (f : color * color_region → V) v,
    (pretty (wavelength region), v)
      ∈ str_keys (foldl (λ m e, <[wavelength e.2 := f e]> m) ∅
                    (calibration_color_regions record))
    ↔ v = f (name, region)).
  { intros V f v. unfold str_keys. rewrite list_elem_of_fmap.
    pose proof (fold_insert_lookup f _ ∅ (name, region) Hnodup Hin) as Hlookup.
    cbn [snd] in Hlookup. split.
    - intros ([k v'] & [= Hk ->] & Hkv).
      apply (inj pretty) in Hk. subst k.
      apply elem_of_map_to_list in Hkv. congruence.
    - intros ->. exists (wavelength region, f (name, region)).
      split; [reflexivity|]. now apply elem_of_map_to_list. }
  cbn zeta. repeat split.
  - now apply Hkeys.
  - now apply Hkeys.
  - intros v Hv. now apply Hkeys in Hv.
  - intros v Hv.
    now apply (Hkeys _ (corrected_entry (baseline_of (black_corners record))))
      in Hv.
Qed.

End Tables.

Lemma detected_regions_in_chart_order_witness :
  (color_regions
     (extract_color_regions (H := Synthetic.camera)
        (load_image (H := Synthetic.camera) (init [Byte.x05])).2).2).*1
    `sublist_of` [red; yellow; green; cyan; blue; magenta].
Proof.
  apply (detected_regions_in_chart_order (H := Synthetic.camera)
           (load_image (H := Synthetic.camera) (init [Byte.x05])).2
           (extract_color_regions (H := Synthetic.camera)
              (load_image (H := Synthetic.camera) (init [Byte.x05])).2).1).
  - vm_compute. reflexivity.
  - vm_compute. reflexivity.
Defined.

Lemma perform_shadow_correction_idempotent_witness :
  ∃ st2,
    perform_shadow_correction (H := Synthetic.camera) Synthetic.reshadow.2
    = (Ok Synthetic.reshadow_table, st2).
Proof.
  destruct (perform_shadow_correction_idempotent (H := Synthetic.camera)
              (Synthetic.calibrated Byte.x04) Synthetic.reshadow_table
              Synthetic.reshadow.2) as (st2 & Hagain & _).
  - apply (bool_decide_unpack _). vm_compute. exact I.
  - vm_compute. reflexivity.
  - now exists st2.
Defined.

Lemma complete_record_intensities_witness :
  (pretty (wavelength (Synthetic.chart_region 0).2),
   Intensity (region_rgb (Synthetic.chart_region 0).2)
     (Synthetic.chart_region 0).1)
    ∈ calibration_raw_intensities Bench.record.
Proof.
  destruct (complete_record_intensities (H := Synthetic.camera) false
              "2025-10-24T12:00:00" [Byte.x04] Bench.record Bench.run.2
              (Synthetic.chart_region 0).1 (Synthetic.chart_region 0).2)
    as (Hraw & _).
  - vm_compute. reflexivity.
  - apply list_elem_of_lookup. exists 0%nat. vm_compute. reflexivity.
  - exact Hraw.
Defined.
